(** * BinaryJS data layer: request cache, in-flight registry, retries, queries

    A shallow embedding of the three classes that make up the data-fetching
    core of BinaryJS,

    - [BinaryJSFetch]     (src/core/BinaryJSFetch.ts): response cache,
      pending-request registry, retry loop around the platform [fetch];
    - [BinaryJSApi]       (src/core/BinaryJSApi.ts): endpoint configuration,
      request/response transformation and validation;
    - [BinaryJSApiClient] (the query client built on [BinaryJSApi]): per-key
      query states, staleness, mutations, invalidation.

    JavaScript runs these [async] methods on one thread.  A method body runs
    without interruption up to its next [await]; what happens between two
    suspension points is therefore a function on the state of the three
    singletons.  The embedding is an event machine: an event is either a call
    made by application code (which runs the synchronous prefix of the
    method), the completion of a transport call, the end of a back-off
    sleep, the resumption of a suspended caller, a timer, or the passing of
    time.

    Scope of the embedding:
    - numbers are integers ([Z]); timestamps are milliseconds;
    - a JSON value is its text, so [JSON.stringify] is the identity on
      data;
    - [await fetch(...)] followed by [await response.json()] is one
      suspension, answered by one [TransportOutcome]; the abort issued by the
      timeout timer is one of the failures the transport can answer with;
    - a back-off sleep ends when the environment says so;
    - no [FetchEventListener], [ApiEventListener] or error handler is
      registered, and there is no [window]: the [notify...] calls and the
      [localStorage] copy of the cache do nothing;
    - a resumed caller runs to its next [await] or to its end in one event,
      and events of the environment may come between the settling of a
      promise and the resumption of a caller that awaits it. *)

From stdpp Require Import gmap strings list fin_maps.
From Stdlib Require Import ZArith String Lia.

Local Open Scope string_scope.
Local Open Scope Z_scope.

(** ** Values *)

(** A JSON value is represented by its canonical text, so that
    [JSON.stringify] is the identity on [Data] and [JSON.stringify(d).length]
    is [String.length d].  [undefined] is [None] in an [option Data]. *)
Definition Data := string.

(** JavaScript truthiness of a JSON value: [null], [false], [0], [-0] and
    the empty string (the text made of two quote characters) are falsy. *)
Definition quote : string := String (Ascii.ascii_of_nat 34) EmptyString.

Definition js_truthy (d : Data) : bool :=
  negb (bool_decide (d ∈ ["null"; "false"; "0"; "-0"; quote +:+ quote])).

(** Template-literal interpolation of a possibly undefined string. *)
Definition interpolate (x : option string) : string :=
  match x with
  | Some v => v
  | None => "undefined"
  end.

(** Errors thrown by the three classes, one constructor per [new Error(...)]
    site, plus the failures raised by the platform. *)
Inductive Error :=
| HttpError (status : Z)               (* `HTTP error! status: ${status}` *)
| TransportFailure (reason : string)   (* fetch()/json() rejected: network, abort, parse *)
| MaxRetriesExceeded                   (* "Max retries exceeded" *)
| TypeError                            (* destructuring an undefined retry config *)
| EndpointNotConfigured (endpoint : string)
| RequestValidationFailed              (* "Request validation failed" *)
| ResponseValidationFailed.            (* "Response validation failed" *)

(** What one call of the platform [fetch] (the transport) comes back with.
    [Responded] stands for a resolved [Response] whose [json()] yields
    [body]; [Failed] for a rejection of [fetch] or of [json()], which
    includes the abort issued by the timeout timer. *)
Inductive TransportOutcome :=
| Responded (ok : bool) (status : Z) (body : Data)
| Failed (reason : string).

(** ** BinaryJSFetch: configuration *)

Inductive BackoffKind := Linear | Exponential.

Record RetryConfig := {
  attempts : Z;
  delay : Z;
  backoff : BackoffKind
}.

Record CacheConfig := {
  enabled : bool;
  ttl : option Z
}.

(** [FetchConfig] after merging.  [headers], [credentials], [mode],
    [priority] and [prefetch] are carried by the source but never read by
    the code embedded here. *)
Record FetchConfig := {
  fc_cache : option CacheConfig;
  fc_retry : option RetryConfig;
  fc_timeout : option Z
}.

(** [Partial<FetchConfig>]: a key may be absent ([None]) or present, and a
    present key may hold [undefined] ([Some None]). *)
Record PartialFetchConfig := {
  p_cache : option (option CacheConfig);
  p_retry : option (option RetryConfig);
  p_timeout : option (option Z)
}.

Definition noFetchConfig : PartialFetchConfig :=
  {| p_cache := None; p_retry := None; p_timeout := None |}.

Definition defaultConfig : FetchConfig :=
  {| fc_cache := Some {| enabled := true; ttl := Some 5000 |};
     fc_retry := Some {| attempts := 3; delay := 1000; backoff := Exponential |};
     fc_timeout := Some 30000 |}.

(** One key of an object spread [{...base, ...over}]: a key present in
    [over] wins, whatever it holds. *)
Definition spread_key {A} (base : A) (over : option A) : A :=
  match over with
  | Some v => v
  | None => base
  end.

(** [{ ...this.defaultConfig, ...config }] *)
Definition mergeConfig (config : PartialFetchConfig) : FetchConfig :=
  {| fc_cache := spread_key (fc_cache defaultConfig) (p_cache config);
     fc_retry := spread_key (fc_retry defaultConfig) (p_retry config);
     fc_timeout := spread_key (fc_timeout defaultConfig) (p_timeout config) |}.

(** ** BinaryJSFetch: responses *)

Record Metadata := {
  timestamp : Z;
  cacheHit : bool;
  retryCount : Z;
  duration : Z;
  size : Z
}.

Record FetchResponse := {
  data : Data;
  metadata : Metadata
}.

(** How a promise of a [FetchResponse] is settled. *)
Inductive Settled :=
| Fulfilled (r : FetchResponse)
| Rejected (e : Error).

(** ** BinaryJSFetch: the retry loop of [executeRequest] *)

(** [calculateBackoff]: [None] is the [TypeError] of destructuring
    [config.retry!] when no retry configuration is present. *)
Definition calculateBackoff (attempt : Z) (config : FetchConfig) : option Z :=
  match fc_retry config with
  | Some r =>
      Some (match backoff r with
            | Exponential => delay r * 2 ^ (attempt - 1)
            | Linear => delay r * attempt
            end)
  | None => None
  end.

(** [config.retry?.attempts || 0] *)
Definition attemptsOrZero (config : FetchConfig) : Z :=
  match fc_retry config with
  | Some r => attempts r
  | None => 0
  end.

(** The loop condition [retryCount <= (config.retry?.attempts || 0)]. *)
Definition loopGuard (config : FetchConfig) (retryCount : Z) : bool :=
  retryCount <=? attemptsOrZero config.

(** [retryCount === config.retry?.attempts] *)
Definition lastAttempt (config : FetchConfig) (retryCount : Z) : bool :=
  match fc_retry config with
  | Some r => retryCount =? attempts r
  | None => false
  end.

(** The [try] body after the transport has come back: [!response.ok]
    throws, otherwise the parsed body is the data. *)
Definition attemptResult (o : TransportOutcome) : Error + Data :=
  match o with
  | Responded true _ body => inr body
  | Responded false status _ => inl (HttpError status)
  | Failed reason => inl (TransportFailure reason)
  end.

(** The response built on success. *)
Definition freshResponse (d : Data) (retries startTime endTime : Z) : FetchResponse :=
  {| data := d;
     metadata := {| timestamp := endTime;
                    cacheHit := false;
                    retryCount := retries;
                    duration := endTime - startTime;
                    size := Z.of_nat (String.length d) |} |}.

(** The [catch] block: rethrow on the last attempt, otherwise count the
    retry and compute the sleep. *)
Inductive CatchAction :=
| Rethrow (e : Error)
| Retry (retries : Z) (sleep : Z).

Definition onAttemptFailure (config : FetchConfig) (retries : Z) (e : Error) : CatchAction :=
  if lastAttempt config retries then Rethrow e
  else match calculateBackoff (retries + 1) config with
       | Some ms => Retry (retries + 1) ms
       | None => Rethrow TypeError
       end.

(** [executeRequest] run on its own, against a transport that answers the
    [i]-th call (counted from 0) with [transport i] at time [clock i].  The
    result is how the returned promise settles and how many transport calls
    were made.  [fuel] bounds the number of loop tests; [None] means it ran
    out. *)
Fixpoint executeRequestFrom (fuel : nat) (transport : nat → TransportOutcome)
    (clock : nat → Z) (config : FetchConfig) (startTime : Z)
    (calls : nat) (retries : Z) : option (Settled * nat) :=
  match fuel with
  | O => None
  | S fuel' =>
      if loopGuard config retries then
        match attemptResult (transport calls) with
        | inr d => Some (Fulfilled (freshResponse d retries startTime (clock calls)), S calls)
        | inl e =>
            match onAttemptFailure config retries e with
            | Rethrow e' => Some (Rejected e', S calls)
            | Retry retries' _ =>
                executeRequestFrom fuel' transport clock config startTime (S calls) retries'
            end
        end
      else Some (Rejected MaxRetriesExceeded, calls)
  end.

(** The loop tests the guard at most [attempts + 2] times. *)
Definition executeRequestFuel (config : FetchConfig) : nat :=
  S (S (Z.to_nat (attemptsOrZero config))).

Definition executeRequest (transport : nat → TransportOutcome) (clock : nat → Z)
    (config : FetchConfig) (startTime : Z) : option (Settled * nat) :=
  executeRequestFrom (executeRequestFuel config) transport clock config startTime 0%nat 0.

(** ** BinaryJSFetch: cache and pending requests *)

Record CacheEntry := {
  ce_data : Data;
  ce_timestamp : Z
}.

(** [RequestInit] as the code builds it: [method], [headers] and [body],
    each possibly absent. *)
Record RequestInit := {
  ri_method : option string;
  ri_headers : option (list (string * string));
  ri_body : option string
}.

Definition emptyInit : RequestInit :=
  {| ri_method := None; ri_headers := None; ri_body := None |}.

(** [JSON.stringify(options)]: an object's own keys in insertion order,
    keys holding [undefined] left out.  String escaping is not modelled. *)
Definition jsonString (s : string) : string := quote +:+ s +:+ quote.

Definition jsonField (name value : string) : string :=
  jsonString name +:+ ":" +:+ value.

Definition jsonObject (fields : list string) : string :=
  "{" +:+ String.concat "," fields +:+ "}".

Definition stringifyHeaders (h : list (string * string)) : string :=
  jsonObject (map (λ kv, jsonField (fst kv) (jsonString (snd kv))) h).

Definition stringifyInit (o : RequestInit) : string :=
  jsonObject (omap id
    [ (λ m, jsonField "method" (jsonString m)) <$> ri_method o;
      (λ h, jsonField "headers" (stringifyHeaders h)) <$> ri_headers o;
      (λ b, jsonField "body" (jsonString b)) <$> ri_body o ]).

(** [`${url}:${JSON.stringify(options)}`] *)
Definition cacheKeyOf (url : string) (options : RequestInit) : string :=
  url +:+ ":" +:+ stringifyInit options.

(** [mergedConfig.cache?.enabled] *)
Definition cacheEnabled (config : FetchConfig) : bool :=
  match fc_cache config with
  | Some c => enabled c
  | None => false
  end.

(** [!mergedConfig.cache.ttl || Date.now() - cached.timestamp < mergedConfig.cache.ttl] *)
Definition withinTtl (c : CacheConfig) (now : Z) (e : CacheEntry) : bool :=
  match ttl c with
  | None => true
  | Some t => (t =? 0) || (now - ce_timestamp e <? t)
  end.

(** The cache check at the head of [fetch]: the entry that answers the
    call, if any. *)
Definition cacheCheck (config : FetchConfig) (now : Z)
    (cache : gmap string CacheEntry) (cacheKey : string) : option CacheEntry :=
  match fc_cache config with
  | Some c =>
      if enabled c then
        match cache !! cacheKey with
        | Some e => if withinTtl c now e then Some e else None
        | None => None
        end
      else None
  | None => None
  end.

Definition cachedResponse (e : CacheEntry) : FetchResponse :=
  {| data := ce_data e;
     metadata := {| timestamp := ce_timestamp e;
                    cacheHit := true;
                    retryCount := 0;
                    duration := 0;
                    size := Z.of_nat (String.length (ce_data e)) |} |}.

(** An activation of [executeRequest] that has not settled yet: it waits
    either for the transport or for the end of a back-off sleep. *)
Inductive Phase :=
| InTransport
| InBackoff (ms : Z).

Record Run := {
  run_url : string;
  run_key : string;
  run_config : FetchConfig;
  run_start : Z;
  run_retries : Z;
  run_phase : Phase
}.

(** What [fetch] hands back: a promise already fulfilled from the cache, or
    the promise stored in [pendingRequests], named by its number. *)
Inductive FetchReturn :=
| Now (r : FetchResponse)
| Later (p : nat).

(** ** BinaryJSApi: configuration and request states *)

Record Validation := {
  validate_request : option (option Data → bool);
  validate_response : option (Data → bool)
}.

Record Transform := {
  transform_request : option (option Data → option Data);
  transform_response : option (Data → Data)
}.

(** [ApiEndpoint], also used for [Partial<ApiEndpoint>] and for the object
    that the spread in [request] builds: every key may be absent. *)
Record ApiEndpoint := {
  path : option string;
  method : option string;
  headers : option (list (string * string));
  ep_cache : option CacheConfig;
  ep_retry : option RetryConfig;
  validation : option Validation;
  transform : option Transform
}.

Definition noOptions : ApiEndpoint :=
  {| path := None; method := None; headers := None; ep_cache := None;
     ep_retry := None; validation := None; transform := None |}.

(** [ApiServiceConfig].  The interceptors are registered by the source but
    never applied, and no error handler is installed. *)
Record ApiServiceConfig := {
  baseUrl : string;
  defaultHeaders : option (list (string * string));
  endpoints : gmap string ApiEndpoint
}.

Record ApiMetadata := {
  am_cacheHit : bool;
  am_retryCount : Z;
  am_duration : Z
}.

Definition noMetadata : ApiMetadata :=
  {| am_cacheHit := false; am_retryCount := 0; am_duration := 0 |}.

(** The three fields of a response's metadata that [ApiRequestState]
    declares. *)
Definition apiMetadata (m : Metadata) : ApiMetadata :=
  {| am_cacheHit := cacheHit m; am_retryCount := retryCount m; am_duration := duration m |}.

Record ApiRequestState := {
  rs_data : option Data;
  rs_loading : bool;
  rs_error : option Error;
  rs_timestamp : Z;
  rs_metadata : ApiMetadata
}.

Record RequestStatePatch := {
  rp_data : option (option Data);
  rp_loading : option bool;
  rp_error : option (option Error);
  rp_timestamp : option Z;
  rp_metadata : option ApiMetadata
}.

Definition noRequestPatch : RequestStatePatch :=
  {| rp_data := None; rp_loading := None; rp_error := None;
     rp_timestamp := None; rp_metadata := None |}.

(** ** BinaryJSApiClient: configuration and query states *)

Record QueryConfig := {
  qc_enabled : bool;
  staleTime : option Z;
  refetchInterval : option Z;
  refetchOnWindowFocus : option bool;
  qc_retryOnError : option bool;
  dedupeTime : option Z
}.

Record PartialQueryConfig := {
  pq_enabled : option bool;
  pq_staleTime : option (option Z);
  pq_refetchInterval : option (option Z);
  pq_refetchOnWindowFocus : option (option bool);
  pq_retryOnError : option (option bool);
  pq_dedupeTime : option (option Z)
}.

Definition noQueryConfig : PartialQueryConfig :=
  {| pq_enabled := None; pq_staleTime := None; pq_refetchInterval := None;
     pq_refetchOnWindowFocus := None; pq_retryOnError := None; pq_dedupeTime := None |}.

Definition defaultQueryConfig : QueryConfig :=
  {| qc_enabled := true;
     staleTime := Some 5000;
     refetchInterval := Some 0;
     refetchOnWindowFocus := Some true;
     qc_retryOnError := Some true;
     dedupeTime := Some 1000 |}.

(** [{ ...this.defaultQueryConfig, ...config }] *)
Definition mergeQueryConfig (config : PartialQueryConfig) : QueryConfig :=
  {| qc_enabled := spread_key (qc_enabled defaultQueryConfig) (pq_enabled config);
     staleTime := spread_key (staleTime defaultQueryConfig) (pq_staleTime config);
     refetchInterval := spread_key (refetchInterval defaultQueryConfig) (pq_refetchInterval config);
     refetchOnWindowFocus :=
       spread_key (refetchOnWindowFocus defaultQueryConfig) (pq_refetchOnWindowFocus config);
     qc_retryOnError := spread_key (qc_retryOnError defaultQueryConfig) (pq_retryOnError config);
     dedupeTime := spread_key (dedupeTime defaultQueryConfig) (pq_dedupeTime config) |}.

Record MutationConfig := {
  optimisticUpdate : option bool;
  rollbackOnError : option bool;
  mc_retryOnError : option bool;
  invalidateQueries : option (list string)
}.


(** Truthiness of an optional flag and of an optional number. *)
Definition flagSet (f : option bool) : bool := default false f.

Definition numberSet (n : option Z) : bool :=
  match n with
  | Some v => negb (v =? 0)
  | None => false
  end.

Record QueryState := {
  qs_data : option Data;
  qs_loading : bool;
  qs_error : option Error;
  qs_timestamp : Z;
  qs_metadata : ApiMetadata;
  isStale : bool;
  lastUpdated : Z;
  refetchCount : Z
}.

Record QueryStatePatch := {
  qp_data : option (option Data);
  qp_loading : option bool;
  qp_error : option (option Error);
  qp_metadata : option ApiMetadata;
  qp_isStale : option bool;
  qp_lastUpdated : option Z;
  qp_refetchCount : option Z
}.

Definition noQueryPatch : QueryStatePatch :=
  {| qp_data := None; qp_loading := None; qp_error := None; qp_metadata := None;
     qp_isStale := None; qp_lastUpdated := None; qp_refetchCount := None |}.

(** The patch [{ isStale: true }]. *)
Definition stalePatch : QueryStatePatch :=
  {| qp_data := None; qp_loading := None; qp_error := None; qp_metadata := None;
     qp_isStale := Some true; qp_lastUpdated := None; qp_refetchCount := None |}.

(** ** Callers *)

(** What a finished call gave its caller. *)
Inductive Value :=
| VResponse (r : FetchResponse)
| VQueryState (q : option QueryState)
| VData (d : Data).

Inductive Result :=
| Returned (v : Value)
| Thrown (e : Error).

(** Who awaits the promise of [BinaryJSApi.request]. *)
Inductive Continuation :=
| ToCaller
| ToQuery (queryKey : string) (currentState : option QueryState) (mergedConfig : QueryConfig)
| ToMutate (config : MutationConfig).

(** How the promise of [request] is settled.  A fulfilled one holds the
    response object itself, not a copy: [Now r] is an object of the call's
    own, [Later p] is the object of the pending-request promise [p], which
    every caller that awaited [p] holds too. *)
Inductive RequestOutcome :=
| RequestOk (response : FetchReturn)
| RequestFailed (e : Error).

(** A call made by application code: suspended at an [await], or done. *)
Inductive Task :=
| AwaitFetch (fr : FetchReturn)
| AwaitFetchInRequest (endpoint : string) (endpointConfig : ApiEndpoint)
    (fr : FetchReturn) (k : Continuation)
| AwaitRequest (outcome : RequestOutcome) (k : Continuation)
| Done (r : Result).

(** ** The state of the three singletons and of their environment *)

Record State := {
  now : Z;                                   (* Date.now() *)
  cache : gmap string CacheEntry;            (* BinaryJSFetch.cache *)
  pendingRequests : gmap string nat;         (* BinaryJSFetch.pendingRequests *)
  runs : gmap nat Run;                       (* unsettled executeRequest activations *)
  promises : gmap nat Settled;               (* settled pending-request promises *)
  nextPromise : nat;
  transportCalls : list (nat * string);      (* calls of the platform fetch: promise, url *)
  requestStates : gmap string ApiRequestState;  (* BinaryJSApi.requestStates *)
  queryCache : gmap string QueryState;       (* BinaryJSApiClient.queryCache *)
  timers : list (Z * string);                (* refetch-interval timers: due time, query key *)
  tasks : list Task                          (* calls of application code, by number *)
}.

Definition initialState : State :=
  {| now := 0; cache := ∅; pendingRequests := ∅; runs := ∅; promises := ∅;
     nextPromise := 0; transportCalls := []; requestStates := ∅; queryCache := ∅;
     timers := []; tasks := [] |}.

Definition set_now (v : Z) (s : State) : State :=
  {| now := v; cache := cache s; pendingRequests := pendingRequests s; runs := runs s;
     promises := promises s; nextPromise := nextPromise s;
     transportCalls := transportCalls s; requestStates := requestStates s;
     queryCache := queryCache s; timers := timers s; tasks := tasks s |}.

Definition set_cache (v : gmap string CacheEntry) (s : State) : State :=
  {| now := now s; cache := v; pendingRequests := pendingRequests s; runs := runs s;
     promises := promises s; nextPromise := nextPromise s;
     transportCalls := transportCalls s; requestStates := requestStates s;
     queryCache := queryCache s; timers := timers s; tasks := tasks s |}.

Definition set_pendingRequests (v : gmap string nat) (s : State) : State :=
  {| now := now s; cache := cache s; pendingRequests := v; runs := runs s;
     promises := promises s; nextPromise := nextPromise s;
     transportCalls := transportCalls s; requestStates := requestStates s;
     queryCache := queryCache s; timers := timers s; tasks := tasks s |}.

Definition set_runs (v : gmap nat Run) (s : State) : State :=
  {| now := now s; cache := cache s; pendingRequests := pendingRequests s; runs := v;
     promises := promises s; nextPromise := nextPromise s;
     transportCalls := transportCalls s; requestStates := requestStates s;
     queryCache := queryCache s; timers := timers s; tasks := tasks s |}.

Definition set_promises (v : gmap nat Settled) (s : State) : State :=
  {| now := now s; cache := cache s; pendingRequests := pendingRequests s; runs := runs s;
     promises := v; nextPromise := nextPromise s;
     transportCalls := transportCalls s; requestStates := requestStates s;
     queryCache := queryCache s; timers := timers s; tasks := tasks s |}.

Definition set_nextPromise (v : nat) (s : State) : State :=
  {| now := now s; cache := cache s; pendingRequests := pendingRequests s; runs := runs s;
     promises := promises s; nextPromise := v;
     transportCalls := transportCalls s; requestStates := requestStates s;
     queryCache := queryCache s; timers := timers s; tasks := tasks s |}.

Definition set_transportCalls (v : list (nat * string)) (s : State) : State :=
  {| now := now s; cache := cache s; pendingRequests := pendingRequests s; runs := runs s;
     promises := promises s; nextPromise := nextPromise s;
     transportCalls := v; requestStates := requestStates s;
     queryCache := queryCache s; timers := timers s; tasks := tasks s |}.

Definition set_requestStates (v : gmap string ApiRequestState) (s : State) : State :=
  {| now := now s; cache := cache s; pendingRequests := pendingRequests s; runs := runs s;
     promises := promises s; nextPromise := nextPromise s;
     transportCalls := transportCalls s; requestStates := v;
     queryCache := queryCache s; timers := timers s; tasks := tasks s |}.

Definition set_queryCache (v : gmap string QueryState) (s : State) : State :=
  {| now := now s; cache := cache s; pendingRequests := pendingRequests s; runs := runs s;
     promises := promises s; nextPromise := nextPromise s;
     transportCalls := transportCalls s; requestStates := requestStates s;
     queryCache := v; timers := timers s; tasks := tasks s |}.

Definition set_timers (v : list (Z * string)) (s : State) : State :=
  {| now := now s; cache := cache s; pendingRequests := pendingRequests s; runs := runs s;
     promises := promises s; nextPromise := nextPromise s;
     transportCalls := transportCalls s; requestStates := requestStates s;
     queryCache := queryCache s; timers := v; tasks := tasks s |}.

Definition set_tasks (v : list Task) (s : State) : State :=
  {| now := now s; cache := cache s; pendingRequests := pendingRequests s; runs := runs s;
     promises := promises s; nextPromise := nextPromise s;
     transportCalls := transportCalls s; requestStates := requestStates s;
     queryCache := queryCache s; timers := timers s; tasks := v |}.

(** ** BinaryJSFetch: operations *)

(** The synchronous prefix of [executeRequest], run for promise [p]: it
    reads the clock, tests the loop guard with [retryCount = 0] and, if the
    guard holds, calls the transport and suspends.  If the guard fails the
    loop is skipped and the promise is rejected at once. *)
Definition startRun (p : nat) (url cacheKey : string) (config : FetchConfig)
    (s : State) : State :=
  if loopGuard config 0 then
    set_transportCalls (transportCalls s ++ [(p, url)])
      (set_runs (<[p := {| run_url := url; run_key := cacheKey; run_config := config;
                           run_start := now s; run_retries := 0;
                           run_phase := InTransport |}]> (runs s)) s)
  else set_promises (<[p := Rejected MaxRetriesExceeded]> (promises s)) s.

(** [fetch(url, options, config)], which contains no [await]: cache check,
    pending-request check, then a new [executeRequest] whose promise is
    stored in [pendingRequests]. *)
Definition fetch (url : string) (options : RequestInit) (config : PartialFetchConfig)
    (s : State) : State * FetchReturn :=
  let mergedConfig := mergeConfig config in
  let cacheKey := cacheKeyOf url options in
  match cacheCheck mergedConfig (now s) (cache s) cacheKey with
  | Some cached => (s, Now (cachedResponse cached))
  | None =>
      match pendingRequests s !! cacheKey with
      | Some p => (s, Later p)
      | None =>
          let p := nextPromise s in
          let s1 := startRun p url cacheKey mergedConfig s in
          (set_pendingRequests (<[cacheKey := p]> (pendingRequests s1))
             (set_nextPromise (S p) s1),
           Later p)
      end
  end.

(** The [.then] callback that [fetch] chains on [executeRequest]: it runs
    only when the request is fulfilled. *)
Definition onFulfilled (run : Run) (response : FetchResponse) (s : State) : State :=
  let s1 :=
    if cacheEnabled (run_config run) then
      set_cache (<[run_key run := {| ce_data := data response;
                                     ce_timestamp := timestamp (metadata response) |}]>
                   (cache s)) s
    else s in
  set_pendingRequests (delete (run_key run) (pendingRequests s1)) s1.

Definition settle (p : nat) (o : Settled) (s : State) : State :=
  set_promises (<[p := o]> (promises s)) (set_runs (delete p (runs s)) s).

(** The transport call of run [p] comes back with [o]: the rest of the
    [try] body, or the [catch] block, up to the next suspension. *)
Definition transportDone (p : nat) (o : TransportOutcome) (s : State) : State :=
  match runs s !! p with
  | Some run =>
      match run_phase run with
      | InTransport =>
          match attemptResult o with
          | inr d =>
              let response := freshResponse d (run_retries run) (run_start run) (now s) in
              settle p (Fulfilled response) (onFulfilled run response s)
          | inl e =>
              match onAttemptFailure (run_config run) (run_retries run) e with
              | Rethrow e' => settle p (Rejected e') s
              | Retry n ms =>
                  set_runs (<[p := {| run_url := run_url run; run_key := run_key run;
                                      run_config := run_config run;
                                      run_start := run_start run; run_retries := n;
                                      run_phase := InBackoff ms |}]> (runs s)) s
              end
          end
      | InBackoff _ => s
      end
  | None => s
  end.

(** The back-off sleep of run [p] ends: the loop guard is tested again. *)
Definition backoffDone (p : nat) (s : State) : State :=
  match runs s !! p with
  | Some run =>
      match run_phase run with
      | InBackoff _ =>
          if loopGuard (run_config run) (run_retries run) then
            set_transportCalls (transportCalls s ++ [(p, run_url run)])
              (set_runs (<[p := {| run_url := run_url run; run_key := run_key run;
                                   run_config := run_config run;
                                   run_start := run_start run;
                                   run_retries := run_retries run;
                                   run_phase := InTransport |}]> (runs s)) s)
          else settle p (Rejected MaxRetriesExceeded) s
      | InTransport => s
      end
  | None => s
  end.

(** [clearCache()] *)
Definition clearCache (s : State) : State := set_cache ∅ s.

(** How the promise behind a [FetchReturn] has settled, if it has. *)
Definition settledOf (fr : FetchReturn) (s : State) : option Settled :=
  match fr with
  | Now r => Some (Fulfilled r)
  | Later p => promises s !! p
  end.

(** ** BinaryJSApi: operations *)

Definition applyRequestPatch (st : ApiRequestState) (u : RequestStatePatch) : ApiRequestState :=
  {| rs_data := spread_key (rs_data st) (rp_data u);
     rs_loading := spread_key (rs_loading st) (rp_loading u);
     rs_error := spread_key (rs_error st) (rp_error u);
     rs_timestamp := spread_key (rs_timestamp st) (rp_timestamp u);
     rs_metadata := spread_key (rs_metadata st) (rp_metadata u) |}.

Definition updateRequestState (endpoint : string) (u : RequestStatePatch) (s : State) : State :=
  let currentState :=
    default {| rs_data := None; rs_loading := false; rs_error := None;
               rs_timestamp := now s; rs_metadata := noMetadata |}
            (requestStates s !! endpoint) in
  set_requestStates (<[endpoint := applyRequestPatch currentState u]> (requestStates s)) s.

(** One key of [{ ...base, ...options }] where the base object itself may
    be undefined. *)
Definition spread_optional {A B} (f : A → option B) (base : option A) (over : A) : option B :=
  match f over with
  | Some v => Some v
  | None => base ≫= f
  end.

(** [{ ...this.config.endpoints[endpoint], ...options }] *)
Definition spreadEndpoint (base : option ApiEndpoint) (options : ApiEndpoint) : ApiEndpoint :=
  {| path := spread_optional path base options;
     method := spread_optional method base options;
     headers := spread_optional headers base options;
     ep_cache := spread_optional ep_cache base options;
     ep_retry := spread_optional ep_retry base options;
     validation := spread_optional validation base options;
     transform := spread_optional transform base options |}.

(** Assigning one header: an existing key keeps its place. *)
Fixpoint setHeader (k v : string) (h : list (string * string)) : list (string * string) :=
  match h with
  | [] => [(k, v)]
  | (k', v') :: rest =>
      if String.eqb k k' then (k, v) :: rest else (k', v') :: setHeader k v rest
  end.

(** [{ ...this.config.defaultHeaders, ...endpointConfig.headers }] *)
Definition spreadHeaders (a b : option (list (string * string))) : list (string * string) :=
  foldl (λ acc kv, setHeader (fst kv) (snd kv) acc) (default [] a) (default [] b).

(** The [catch] block of [request]. *)
Definition requestFailed (endpoint : string) (e : Error) (s : State) : State :=
  updateRequestState endpoint
    {| rp_data := None; rp_loading := Some false; rp_error := Some (Some e);
       rp_timestamp := None; rp_metadata := None |} s.

(** Where the synchronous prefix of [request] ends: with an exception, or
    suspended at [await this.fetch.fetch(...)]. *)
Inductive RequestStart :=
| Threw (e : Error)
| Suspended (endpointConfig : ApiEndpoint) (fr : FetchReturn).

(** The pieces of [request] that depend on the endpoint configuration
    only. *)

(** [`${this.config.baseUrl}${endpointConfig.path}`] *)
Definition endpointUrl (svc : ApiServiceConfig) (endpointConfig : ApiEndpoint) : string :=
  baseUrl svc +:+ interpolate (path endpointConfig).

(** [{ cache: endpointConfig.cache, retry: endpointConfig.retry, headers }]:
    the keys [cache] and [retry] are present even when they hold
    [undefined]. *)
Definition endpointFetchConfig (endpointConfig : ApiEndpoint) : PartialFetchConfig :=
  {| p_cache := Some (ep_cache endpointConfig);
     p_retry := Some (ep_retry endpointConfig);
     p_timeout := None |}.

(** [requestData] after [transform.request] *)
Definition transformedRequest (endpointConfig : ApiEndpoint) (data : option Data)
    : option Data :=
  match transform endpointConfig ≫= transform_request with
  | Some f => f data
  | None => data
  end.

(** [validation?.request && !validation.request(requestData)] *)
Definition requestInvalid (endpointConfig : ApiEndpoint) (requestData : option Data) : bool :=
  match validation endpointConfig ≫= validate_request with
  | Some valid => negb (valid requestData)
  | None => false
  end.

(** [{ method, headers, body: requestData ? JSON.stringify(requestData) : undefined }] *)
Definition endpointInit (svc : ApiServiceConfig) (endpointConfig : ApiEndpoint)
    (requestData : option Data) : RequestInit :=
  {| ri_method := method endpointConfig;
     ri_headers := Some (spreadHeaders (defaultHeaders svc) (headers endpointConfig));
     ri_body := match requestData with
                | Some d => if js_truthy d then Some d else None
                | None => None
                end |}.

(** [response.data] after [transform.response] *)
Definition transformedResponse (endpointConfig : ApiEndpoint) (response : FetchResponse)
    : FetchResponse :=
  match transform endpointConfig ≫= transform_response with
  | Some f => {| data := f (data response); metadata := metadata response |}
  | None => response
  end.

(** [validation?.response && !validation.response(response.data)] *)
Definition responseInvalid (endpointConfig : ApiEndpoint) (d : Data) : bool :=
  match validation endpointConfig ≫= validate_response with
  | Some valid => negb (valid d)
  | None => false
  end.

Section Api.

Variable svc : ApiServiceConfig.

(** [request(endpoint, data, options)] up to its [await].  The object
    spread always yields an object, so the test on [endpointConfig] sees
    [Some]. *)
Definition request (endpoint : string) (data : option Data) (options : ApiEndpoint)
    (s : State) : State * RequestStart :=
  let endpointConfig : option ApiEndpoint :=
    Some (spreadEndpoint (endpoints svc !! endpoint) options) in
  match endpointConfig with
  | None => (s, Threw (EndpointNotConfigured endpoint))
  | Some endpointConfig =>
      let s1 :=
        updateRequestState endpoint
          {| rp_data := None; rp_loading := Some true; rp_error := None;
             rp_timestamp := None; rp_metadata := None |} s in
      let url := endpointUrl svc endpointConfig in
      let fetchConfig := endpointFetchConfig endpointConfig in
      let requestData := transformedRequest endpointConfig data in
      if requestInvalid endpointConfig requestData then
        (requestFailed endpoint RequestValidationFailed s1, Threw RequestValidationFailed)
      else
        let (s2, fr) :=
          fetch url (endpointInit svc endpointConfig requestData) fetchConfig s1 in
        (s2, Suspended endpointConfig fr)
  end.

(** [request] after its [await], given how the awaited promise settled.
    [response.data = transform(response.data)] assigns to the response
    object itself; when that object is the one held by a pending-request
    promise, every other caller awaiting the promise sees the assignment. *)
Definition requestResume (endpoint : string) (endpointConfig : ApiEndpoint)
    (fr : FetchReturn) (outcome : Settled) (s : State) : State * Settled :=
  match outcome with
  | Rejected e => (requestFailed endpoint e s, Rejected e)
  | Fulfilled response =>
      let response1 := transformedResponse endpointConfig response in
      let s1 :=
        match transform endpointConfig ≫= transform_response, fr with
        | Some _, Later p => set_promises (<[p := Fulfilled response1]> (promises s)) s
        | _, _ => s
        end in
      if responseInvalid endpointConfig (data response1) then
        (requestFailed endpoint ResponseValidationFailed s1,
         Rejected ResponseValidationFailed)
      else
        (updateRequestState endpoint
           {| rp_data := Some (Some (data response1));
              rp_loading := Some false;
              rp_error := Some None;
              rp_timestamp := Some (now s1);
              rp_metadata := Some (apiMetadata (metadata response1)) |} s1,
         Fulfilled response1)
  end.

(** ** BinaryJSApiClient: operations *)

Definition applyQueryPatch (st : QueryState) (u : QueryStatePatch) : QueryState :=
  {| qs_data := spread_key (qs_data st) (qp_data u);
     qs_loading := spread_key (qs_loading st) (qp_loading u);
     qs_error := spread_key (qs_error st) (qp_error u);
     qs_timestamp := qs_timestamp st;
     qs_metadata := spread_key (qs_metadata st) (qp_metadata u);
     isStale := spread_key (isStale st) (qp_isStale u);
     lastUpdated := spread_key (lastUpdated st) (qp_lastUpdated u);
     refetchCount := spread_key (refetchCount st) (qp_refetchCount u) |}.

Definition updateQueryState (key : string) (u : QueryStatePatch) (s : State) : State :=
  let currentState :=
    default {| qs_data := None; qs_loading := false; qs_error := None;
               qs_timestamp := now s; qs_metadata := noMetadata;
               isStale := true; lastUpdated := 0; refetchCount := 0 |}
            (queryCache s !! key) in
  set_queryCache (<[key := applyQueryPatch currentState u]> (queryCache s)) s.

(** [this.queryCache.forEach((state, key) => { if (matches(key))
    this.updateQueryState(key, { isStale: true }) })] *)
Definition markStaleWhere (matches : string → bool) (s : State) : State :=
  map_fold (λ key _ acc, if matches key then updateQueryState key stalePatch acc else acc)
           s (queryCache s).

(** [invalidateQueries.some((query) => key.startsWith(query))] *)
Definition startsWithAny (queries : list string) (key : string) : bool :=
  existsb (λ q, String.prefix q key) queries.

(** [`${endpoint}:${JSON.stringify(data)}`] *)
Definition queryKeyOf (endpoint : string) (data : option Data) : string :=
  endpoint +:+ ":" +:+ interpolate data.

(** The dedupe test of [query]. *)
Definition dedupes (mergedConfig : QueryConfig) (now : Z)
    (currentState : option QueryState) : bool :=
  match currentState with
  | Some st =>
      negb (isStale st)
      && match dedupeTime mergedConfig with
         | Some t => negb (t =? 0) && (now - lastUpdated st <? t)
         | None => false
         end
  | None => false
  end.

(** A task for a call that went through [request]. *)
Definition awaiting (endpoint : string) (r : RequestStart) (k : Continuation) : Task :=
  match r with
  | Threw e => AwaitRequest (RequestFailed e) k
  | Suspended endpointConfig fr => AwaitFetchInRequest endpoint endpointConfig fr k
  end.

(** [query(endpoint, data, config)] up to its [await]. *)
Definition query (endpoint : string) (data : option Data) (config : PartialQueryConfig)
    (s : State) : State * Task :=
  let queryKey := queryKeyOf endpoint data in
  let mergedConfig := mergeQueryConfig config in
  let currentState := queryCache s !! queryKey in
  if negb (qc_enabled mergedConfig) then
    (s, Done (Returned (VQueryState currentState)))
  else if dedupes mergedConfig (now s) currentState then
    (s, Done (Returned (VQueryState currentState)))
  else
    let s1 :=
      updateQueryState queryKey
        {| qp_data := None; qp_loading := Some true; qp_error := None;
           qp_metadata := None; qp_isStale := None; qp_lastUpdated := None;
           qp_refetchCount := None |} s in
    let (s2, r) := request endpoint data noOptions s1 in
    (s2, awaiting endpoint r (ToQuery queryKey currentState mergedConfig)).

(** [query] after its [await]. *)
Definition queryResume (queryKey : string) (currentState : option QueryState)
    (mergedConfig : QueryConfig) (outcome : Settled) (s : State) : State * Result :=
  match outcome with
  | Fulfilled response =>
      let s1 :=
        updateQueryState queryKey
          {| qp_data := Some (Some (data response));
             qp_loading := Some false;
             qp_error := Some None;
             qp_metadata := Some (apiMetadata (metadata response));
             qp_isStale := Some false;
             qp_lastUpdated := Some (now s);
             qp_refetchCount :=
               Some (match currentState with
                     | Some st => refetchCount st
                     | None => 0
                     end + 1) |} s in
      let s2 :=
        if numberSet (refetchInterval mergedConfig) then
          set_timers (timers s1 ++ [(now s1 + default 0 (refetchInterval mergedConfig),
                                     queryKey)]) s1
        else s1 in
      (s2, Returned (VQueryState (queryCache s2 !! queryKey)))
  | Rejected e =>
      (updateQueryState queryKey
         {| qp_data := None; qp_loading := Some false; qp_error := Some (Some e);
            qp_metadata := None; qp_isStale := Some true; qp_lastUpdated := None;
            qp_refetchCount := None |} s,
       Thrown e)
  end.

(** [mutate(endpoint, data, config)] up to its [await]. *)
Definition mutate (endpoint : string) (data : Data) (config : MutationConfig)
    (s : State) : State * Task :=
  let invalidate := default [] (invalidateQueries config) in
  let s1 :=
    if flagSet (optimisticUpdate config) then markStaleWhere (startsWithAny invalidate) s
    else s in
  let (s2, r) := request endpoint (Some data) noOptions s1 in
  (s2, awaiting endpoint r (ToMutate config)).

(** [mutate] after its [await]. *)
Definition mutateResume (config : MutationConfig) (outcome : Settled) (s : State)
    : State * Result :=
  let invalidate := default [] (invalidateQueries config) in
  match outcome with
  | Fulfilled response =>
      (foldl (λ acc q, markStaleWhere (String.prefix q) acc) s invalidate,
       Returned (VData (data response)))
  | Rejected e =>
      (if flagSet (rollbackOnError config) then markStaleWhere (startsWithAny invalidate) s
       else s,
       Thrown e)
  end.

(** [invalidateQuery(endpoint)] *)
Definition invalidateQuery (endpoint : string) (s : State) : State :=
  markStaleWhere (String.prefix endpoint) s.

(** [clearQueryCache()] *)
Definition clearQueryCache (s : State) : State := set_queryCache ∅ s.

(** The callback of a refetch-interval timer. *)
Definition timerFired (i : nat) (s : State) : State :=
  match timers s !! i with
  | Some (due, key) =>
      if due <=? now s then
        updateQueryState key stalePatch (set_timers (delete i (timers s)) s)
      else s
  | None => s
  end.

(** ** The event machine *)

Inductive Event :=
| CallFetch (url : string) (options : RequestInit) (config : PartialFetchConfig)
| CallRequest (endpoint : string) (data : option Data) (options : ApiEndpoint)
| CallQuery (endpoint : string) (data : option Data) (config : PartialQueryConfig)
| CallMutate (endpoint : string) (data : Data) (config : MutationConfig)
| CallInvalidateQuery (endpoint : string)
| CallClearQueryCache
| CallClearCache
| TransportDone (p : nat) (o : TransportOutcome)
| BackoffDone (p : nat)
| Resume (t : nat)
| TimerFired (i : nat)
| Tick (dt : Z).

Definition spawn (t : Task) (s : State) : State := set_tasks (tasks s ++ [t]) s.

Definition finish (t : nat) (r : Result) (s : State) : State :=
  set_tasks (<[t := Done r]> (tasks s)) s.

Definition resultOf (o : Settled) : Result :=
  match o with
  | Fulfilled r => Returned (VResponse r)
  | Rejected e => Thrown e
  end.

(** The code awaiting the promise of [request]. *)
Definition continue (k : Continuation) (outcome : Settled) (s : State) : State * Result :=
  match k with
  | ToCaller => (s, resultOf outcome)
  | ToQuery queryKey currentState mergedConfig =>
      queryResume queryKey currentState mergedConfig outcome s
  | ToMutate config => mutateResume config outcome s
  end.

(** The response object that [request] returns when it returns. *)
Definition outcomeRef (fr : FetchReturn) (o : Settled) : RequestOutcome :=
  match o with
  | Fulfilled r =>
      RequestOk (match fr with
                 | Later p => Later p
                 | Now _ => Now r
                 end)
  | Rejected e => RequestFailed e
  end.

(** What the code awaiting [request] finds when it resumes: the response
    object as it is by then. *)
Definition outcomeValue (o : RequestOutcome) (s : State) : option Settled :=
  match o with
  | RequestOk response => settledOf response s
  | RequestFailed e => Some (Rejected e)
  end.

Definition suspend (t : nat) (task : Task) (s : State) : State :=
  set_tasks (<[t := task]> (tasks s)) s.

(** Task [t] runs from the [await] it is suspended at to the next one or to
    its end, if the promise it awaits has settled. *)
Definition resume (t : nat) (s : State) : State :=
  match tasks s !! t with
  | Some (AwaitFetch fr) =>
      match settledOf fr s with
      | Some o => finish t (resultOf o) s
      | None => s
      end
  | Some (AwaitFetchInRequest endpoint endpointConfig fr k) =>
      match settledOf fr s with
      | Some o =>
          let (s1, o1) := requestResume endpoint endpointConfig fr o s in
          suspend t (AwaitRequest (outcomeRef fr o1) k) s1
      | None => s
      end
  | Some (AwaitRequest o k) =>
      match outcomeValue o s with
      | Some v =>
          let (s1, r) := continue k v s in
          finish t r s1
      | None => s
      end
  | Some (Done _) => s
  | None => s
  end.

Definition step (s : State) (ev : Event) : State :=
  match ev with
  | CallFetch url options config =>
      let (s1, fr) := fetch url options config s in
      spawn (AwaitFetch fr) s1
  | CallRequest endpoint data options =>
      let (s1, r) := request endpoint data options s in
      spawn (awaiting endpoint r ToCaller) s1
  | CallQuery endpoint data config =>
      let (s1, t) := query endpoint data config s in
      spawn t s1
  | CallMutate endpoint data config =>
      let (s1, t) := mutate endpoint data config s in
      spawn t s1
  | CallInvalidateQuery endpoint => invalidateQuery endpoint s
  | CallClearQueryCache => clearQueryCache s
  | CallClearCache => clearCache s
  | TransportDone p o => transportDone p o s
  | BackoffDone p => backoffDone p s
  | Resume t => resume t s
  | TimerFired i => timerFired i s
  | Tick dt => if 0 <=? dt then set_now (now s + dt) s else s
  end.

(** A run of the machine. *)
Definition run (s : State) (evs : list Event) : State := foldl step s evs.

End Api.

(** ** Vocabulary of the properties *)

(** What marking does to one entry. *)
Definition marked (matches : string → bool) (key : string) (st : QueryState) : QueryState :=
  if matches key then applyQueryPatch st stalePatch else st.

(** The patch [{ loading: true }] of [query]. *)
Definition loadingPatch : QueryStatePatch :=
  {| qp_data := None; qp_loading := Some true; qp_error := None; qp_metadata := None;
     qp_isStale := None; qp_lastUpdated := None; qp_refetchCount := None |}.

(** The patch [{ loading: true }] of [request]. *)
Definition requestLoadingPatch : RequestStatePatch :=
  {| rp_data := None; rp_loading := Some true; rp_error := None;
     rp_timestamp := None; rp_metadata := None |}.

(** The endpoint configuration, request options, cache key and merged fetch
    configuration that [query] and [mutate] reach [fetch] with. *)
Definition configOf (svc : ApiServiceConfig) (endpoint : string) : ApiEndpoint :=
  spreadEndpoint (endpoints svc !! endpoint) noOptions.

Definition initOf (svc : ApiServiceConfig) (endpoint : string) (input : option Data)
    : RequestInit :=
  endpointInit svc (configOf svc endpoint) (transformedRequest (configOf svc endpoint) input).

Definition fetchKeyOf (svc : ApiServiceConfig) (endpoint : string) (input : option Data)
    : string :=
  cacheKeyOf (endpointUrl svc (configOf svc endpoint)) (initOf svc endpoint input).

Definition fetchConfigOf (svc : ApiServiceConfig) (endpoint : string) : FetchConfig :=
  mergeConfig (endpointFetchConfig (configOf svc endpoint)).

(** The marking that [mutate] does before it calls [request]. *)
Definition optimisticMarking (config : MutationConfig) (s : State) : State :=
  if flagSet (optimisticUpdate config)
  then markStaleWhere (startsWithAny (default [] (invalidateQueries config))) s
  else s.

(** The run that [fetch] registers when it starts [executeRequest], and the
    state it leaves. *)
Definition startedRun (url : string) (options : RequestInit) (config : PartialFetchConfig)
    (s : State) : Run :=
  {| run_url := url; run_key := cacheKeyOf url options; run_config := mergeConfig config;
     run_start := now s; run_retries := 0; run_phase := InTransport |}.

Definition startedState (url : string) (options : RequestInit) (config : PartialFetchConfig)
    (s : State) : State :=
  set_pendingRequests (<[cacheKeyOf url options := nextPromise s]> (pendingRequests s))
    (set_nextPromise (S (nextPromise s))
       (set_transportCalls (transportCalls s ++ [(nextPromise s, url)])
          (set_runs (<[nextPromise s := startedRun url options config s]> (runs s)) s))).

(** Between [s] and [s'] one transport call was started, for [url], under
    the next promise number, and its run waits for the transport. *)
Definition startsTransport (s s' : State) (url : string) : Prop :=
  transportCalls s' = (transportCalls s ++ [(nextPromise s, url)])%list
  ∧ ∃ r, runs s' !! nextPromise s = Some r ∧ run_phase r = InTransport ∧ run_url r = url.

(** A task that has not finished. *)
Definition suspended (t : Task) : Prop :=
  match t with
  | Done _ => False
  | _ => True
  end.

(** Task [t] awaits the pending-request promise [p]. *)
Definition awaitsPromise (p : nat) (t : Task) : Prop :=
  match t with
  | AwaitFetch (Later q) => q = p
  | AwaitFetchInRequest _ _ (Later q) _ => q = p
  | _ => False
  end.

(** Every unsettled run is the one registered under its key. *)
Definition registryInv (s : State) : Prop :=
  ∀ p r, runs s !! p = Some r → pendingRequests s !! run_key r = Some p.

(** Run [p] has a transport call for [key] in flight. *)
Definition inFlight (s : State) (key : string) (p : nat) : Prop :=
  ∃ r, runs s !! p = Some r ∧ run_key r = key ∧ run_phase r = InTransport.

(** The events that take run [p] from its transport call number [calls] to
    its end when nothing else happens: the transport answers, and after a
    failure that is retried the sleep ends. *)
Fixpoint soloEvents (fuel : nat) (transport : nat → TransportOutcome) (p : nat)
    (config : FetchConfig) (calls : nat) (retries : Z) : list Event :=
  match fuel with
  | O => []
  | S fuel' =>
      TransportDone p (transport calls)
      :: match attemptResult (transport calls) with
         | inr _ => []
         | inl e =>
             match onAttemptFailure config retries e with
             | Rethrow _ => []
             | Retry retries' _ =>
                 BackoffDone p
                 :: (if loopGuard config retries'
                     then soloEvents fuel' transport p config (S calls) retries'
                     else [])
             end
         end
  end.

(** The run [r] with another retry count and phase. *)
Definition runAt (r : Run) (retries : Z) (phase : Phase) : Run :=
  {| run_url := run_url r; run_key := run_key r; run_config := run_config r;
     run_start := run_start r; run_retries := retries; run_phase := phase |}.

(** ** A sample service *)

(** Three endpoints in the style of the usage notes of [BinaryJSApi]: a
    cached read, a cached write, and a cached read whose validator rejects
    the body [null]. *)
Definition cachedEndpoint (p m : string) : ApiEndpoint :=
  {| path := Some p; method := Some m; headers := None;
     ep_cache := Some {| enabled := true; ttl := Some 5000 |};
     ep_retry := None; validation := None; transform := None |}.

Definition checkedEndpoint : ApiEndpoint :=
  {| path := Some "/profile"; method := Some "GET"; headers := None;
     ep_cache := Some {| enabled := true; ttl := Some 5000 |};
     ep_retry := None;
     validation := Some {| validate_request := None;
                           validate_response := Some (λ d, negb (String.eqb d "null")) |};
     transform := None |}.

Definition exampleService : ApiServiceConfig :=
  {| baseUrl := "https://api.example.com";
     defaultHeaders := None;
     endpoints :=
       <["users" := cachedEndpoint "/users" "GET"]>
         (<["updateUser" := cachedEndpoint "/users/1" "PUT"]>
            (<["profile" := checkedEndpoint]> ∅)) |}.

(** The state of the sample service after one query of [users] has been
    answered by the transport, 5 ms after it was made, and has resumed
    twice: in [request], then in [query]. *)
Definition usersLoaded : State :=
  run exampleService initialState
    [CallQuery "users" None noQueryConfig;
     Tick 5;
     TransportDone 0 (Responded true 200 "[1]");
     Resume 0;
     Resume 0].

(** A service whose one endpoint appends [!] to every response. *)
Definition markingService : ApiServiceConfig :=
  {| baseUrl := "https://api.example.com";
     defaultHeaders := None;
     endpoints :=
       {[ "notes" := {| path := Some "/notes"; method := Some "GET"; headers := None;
                        ep_cache := None; ep_retry := None; validation := None;
                        transform := Some {| transform_request := None;
                                             transform_response := Some (λ d, d +:+ "!") |}
                     |} ]} |}.

(** A fetch configuration without caching and without retries, and one with
    three retries. *)
Definition singleAttempt : PartialFetchConfig :=
  {| p_cache := Some (Some {| enabled := false; ttl := None |});
     p_retry := Some (Some {| attempts := 0; delay := 0; backoff := Linear |});
     p_timeout := None |}.

Definition threeRetries : FetchConfig :=
  {| fc_cache := None;
     fc_retry := Some {| attempts := 3; delay := 1000; backoff := Exponential |};
     fc_timeout := Some 30000 |}.

(** ** Further operations and vocabulary *)

(** The getters of the two state maps, the prefetch queue of [BinaryJSFetch]
    and the refetch on window focus of [BinaryJSApiClient] are given beside
    the event machine, as functions on its state. *)


(** The query state that [query] writes on success: [previous] is the state
    stored when [query] resumes, [current] the one it read when it was
    called. *)
Definition succeededQueryState (previous current : option QueryState)
    (response : FetchResponse) (time : Z) : QueryState :=
  {| qs_data := Some (data response); qs_loading := false; qs_error := None;
     qs_timestamp := from_option qs_timestamp time previous;
     qs_metadata := apiMetadata (metadata response);
     isStale := false; lastUpdated := time;
     refetchCount := from_option refetchCount 0 current + 1 |}.

(** The query state that [query] writes on failure. *)
Definition failedQueryState (previous : option QueryState) (e : Error) (time : Z)
    : QueryState :=
  {| qs_data := previous ≫= qs_data; qs_loading := false; qs_error := Some e;
     qs_timestamp := from_option qs_timestamp time previous;
     qs_metadata := from_option qs_metadata noMetadata previous;
     isStale := true;
     lastUpdated := from_option lastUpdated 0 previous;
     refetchCount := from_option refetchCount 0 previous |}.

(** [getQueryState(endpoint, data)] *)
Definition getQueryState (endpoint : string) (data : option Data) (s : State)
    : option QueryState :=
  queryCache s !! queryKeyOf endpoint data.

(** [getRequestState(endpoint)] *)
Definition getRequestState (endpoint : string) (s : State) : option ApiRequestState :=
  requestStates s !! endpoint.

(** The key [key] is registered in [pendingRequests] with promise [p], which
    was rejected with [e] and whose run is over. *)
Definition rejectedFor (s : State) (key : string) (p : nat) (e : Error) : Prop :=
  pendingRequests s !! key = Some p
  ∧ promises s !! p = Some (Rejected e)
  ∧ runs s !! p = None
  ∧ (p < nextPromise s)%nat.

(** The events that can start a transport call: the four calls, and the end
    of a back-off sleep. *)
Definition mayCallTransport (ev : Event) : bool :=
  match ev with
  | CallFetch _ _ _ | CallRequest _ _ _ | CallQuery _ _ _ | CallMutate _ _ _
  | BackoffDone _ => true
  | _ => false
  end.

(** The value of header [k] in a header object. *)
Fixpoint headerOf (k : string) (h : list (string * string)) : option string :=
  match h with
  | [] => None
  | (k', v) :: rest => if String.eqb k k' then Some v else headerOf k rest
  end.

(** ** BinaryJSFetch: the prefetch queue *)

(** An entry of [requestQueue]: the closure that [prefetch] pushes, given by
    what it captured. *)
Record Queued := {
  q_url : string;
  q_options : RequestInit;
  q_config : FetchConfig
}.

(** A merged configuration passed on to [fetch]: every key is present. *)
Definition asPartial (config : FetchConfig) : PartialFetchConfig :=
  {| p_cache := Some (fc_cache config);
     p_retry := Some (fc_retry config);
     p_timeout := Some (fc_timeout config) |}.

(** [prefetch(url, options, config)]: the configuration is merged and the
    closure is pushed; nothing is fetched. *)
Definition prefetch (url : string) (options : RequestInit) (config : PartialFetchConfig)
    (requestQueue : list Queued) : list Queued :=
  (requestQueue
   ++ [{| q_url := url; q_options := options; q_config := mergeConfig config |}])%list.

(** One closure of the queue is called: it calls [fetch] and awaits the
    promise. *)
Definition flushEntry (acc : State * list FetchReturn) (q : Queued)
    : State * list FetchReturn :=
  let (s1, fr) := fetch (q_url q) (q_options q) (asPartial (q_config q)) acc.1 in
  (s1, (acc.2 ++ [fr])%list).

(** [flushQueue()] up to its [await]: [requestQueue.map((fn) => fn())] calls
    the closures in order. *)
Definition flushQueue (requestQueue : list Queued) (s : State) : State * list FetchReturn :=
  foldl flushEntry (s, []) requestQueue.

(** The call of [fetch] that the closure makes, as an event. *)
Definition fetchEvent (q : Queued) : Event :=
  CallFetch (q_url q) (q_options q) (asPartial (q_config q)).




(** ** BinaryJSApiClient: refetching on window focus *)

Definition colon : Ascii.ascii := Ascii.ascii_of_nat 58.

(** [key.split(":")[0]] *)
Fixpoint beforeColon (key : string) : string :=
  match key with
  | EmptyString => EmptyString
  | String c rest => if Ascii.eqb c colon then EmptyString else String c (beforeColon rest)
  end.

(** The callback that [refetchStaleQueries] passes to [queryCache.forEach],
    at the entry of [key]: a stale entry makes it call [query] with the
    endpoint alone. *)
Definition refetchEntry (svc : ApiServiceConfig) (s : State) (key : string) : State :=
  match queryCache s !! key with
  | Some state =>
      if isStale state && flagSet (refetchOnWindowFocus defaultQueryConfig) then
        let (s1, t) := query svc (beforeColon key) None noQueryConfig s in
        spawn t s1
      else s
  | None => s
  end.

(** [refetchStaleQueries()] up to its [await], given the keys that
    [forEach] visits, in the order of the visit (insertion order, with the
    keys that the calls of [query] add visited last). *)
Definition refetchStaleQueries (svc : ApiServiceConfig) (visited : list string) (s : State)
    : State :=
  foldl (refetchEntry svc) s visited.

(** Task [t] is a call of [query] that will write the query state of [key]. *)
Definition queriesKey (key : string) (t : Task) : Prop :=
  match t with
  | AwaitFetchInRequest _ _ _ (ToQuery k _ _) => k = key
  | AwaitRequest _ (ToQuery k _ _) => k = key
  | _ => False
  end.

(** ** Callers of one run, safe integers and header names *)






(** [Number.isSafeInteger]: the integers that a double holds exactly,
    together with their neighbours.  Sums and products of safe integers
    that are safe are computed exactly by the doubles of the source. *)
Definition safeInteger (z : Z) : bool := Z.abs z <=? 2 ^ 53 - 1.

(** Property names that consist of decimal digits only.  Among them are
    the array indices, which a JavaScript object lists before its other
    keys, in ascending order, whenever they were added. *)
Definition isDigit (c : Ascii.ascii) : bool :=
  ((48 <=? Ascii.nat_of_ascii c) && (Ascii.nat_of_ascii c <=? 57))%nat.

Fixpoint allDigits (k : string) : bool :=
  match k with
  | EmptyString => true
  | String c rest => isDigit c && allDigits rest
  end.

Definition indexLike (k : string) : bool :=
  match k with
  | EmptyString => false
  | _ => allDigits k
  end.

(** ** Further samples *)

(** A transport that is down twice and then answers. *)
Definition downTwice (i : nat) : TransportOutcome :=
  match i with
  | 0%nat | 1%nat => Failed "down"
  | _ => Responded true 200 "ok"
  end.

(** A service whose one endpoint wants data: its request validator rejects
    a call without. *)
Definition signupService : ApiServiceConfig :=
  {| baseUrl := "https://api.example.com";
     defaultHeaders := Some [("Accept", "application/json")];
     endpoints :=
       {[ "signup" := {| path := Some "/signup"; method := Some "POST"; headers := None;
                         ep_cache := None; ep_retry := None;
                         validation :=
                           Some {| validate_request := Some (λ d, bool_decide (is_Some d));
                                   validate_response := None |};
                         transform := None |} ]} |}.

(** Caching switched on without a [ttl]. *)
Definition cacheWithoutTtl : PartialFetchConfig :=
  {| p_cache := Some (Some {| enabled := true; ttl := None |});
     p_retry := None; p_timeout := None |}.

(** A query configuration with a refetch interval of half a minute. *)
Definition everyHalfMinute : PartialQueryConfig :=
  {| pq_enabled := None; pq_staleTime := None; pq_refetchInterval := Some (Some 30000);
     pq_refetchOnWindowFocus := None; pq_retryOnError := None; pq_dedupeTime := None |}.

(** The sample service after a query of [users] whose transport call
    failed. *)
Definition usersFailed : State :=
  run exampleService initialState
    [CallQuery "users" None noQueryConfig;
     TransportDone 0 (Failed "down");
     Resume 0;
     Resume 0].

(** A mutation of [updateUser] that invalidates [users] before and after,
    and rolls back on error. *)
Definition updatingUsers : MutationConfig :=
  {| optimisticUpdate := Some true; rollbackOnError := Some true;
     mc_retryOnError := None; invalidateQueries := Some ["users"] |}.


(** * Properties *)

(** Name the result of the [fetch] (or [request]) call in the goal, after
    recording what [lemma] says about it. *)
Ltac with_fetch lemma H :=
  match goal with
  | |- context [fetch ?u ?o ?c ?s] =>
      pose proof (lemma u o c s) as H; destruct (fetch u o c s) as [? ?]
  end.

Ltac with_request lemma H :=
  match goal with
  | |- context [request ?svc ?e ?d ?o ?s] =>
      pose proof (lemma e d o s) as H; destruct (request svc e d o s) as [? ?]
  end.

(** Read [foldl step] as a run of the machine again. *)
Ltac fold_run :=
  match goal with
  | |- context [foldl (step ?svc) ?s ?l] => change (foldl (step svc) s l) with (run svc s l)
  end.

(** ** The retry loop *)

Section RetryLoop.

Variables (transport : nat → TransportOutcome) (clock : nat → Z).
Variables (config : FetchConfig) (startTime : Z).

(** With enough fuel for the loop tests that remain, the loop settles. *)
Lemma executeRequestFrom_total (fuel calls : nat) (retries : Z) :
  (Z.to_nat (attemptsOrZero config + 1 - retries) < fuel)%nat →
  is_Some (executeRequestFrom fuel transport clock config startTime calls retries).
Proof.
  revert calls retries.
  induction fuel as [|fuel IH]; intros calls retries Hfuel; [lia|].
  cbn [executeRequestFrom].
  destruct (loopGuard config retries) eqn:Hguard; [|eauto].
  destruct (attemptResult (transport calls)) as [e|d]; [|eauto].
  destruct (onAttemptFailure config retries e) as [e'|retries' ms] eqn:Hcatch; [eauto|].
  apply IH.
  unfold onAttemptFailure in Hcatch.
  destruct (lastAttempt config retries); [discriminate|].
  destruct (calculateBackoff (retries + 1) config); [|discriminate].
  injection Hcatch as <- _.
  unfold loopGuard in Hguard. apply Z.leb_le in Hguard. lia.
Qed.

(** [executeRequest] always settles: the fuel it is given is never used up. *)
Lemma executeRequest_total :
  is_Some (executeRequest transport clock config startTime).
Proof.
  unfold executeRequest, executeRequestFuel.
  apply executeRequestFrom_total. lia.
Qed.

(** The error after the loop is what a negative [attempts] gives: the loop
    body never runs and the transport is never called. *)
Lemma executeRequest_negative_attempts (r : RetryConfig) :
  fc_retry config = Some r →
  attempts r < 0 →
  executeRequest transport clock config startTime = Some (Rejected MaxRetriesExceeded, 0%nat).
Proof.
  intros Hretry Hneg. unfold executeRequest, executeRequestFuel.
  cbn [executeRequestFrom]. unfold loopGuard, attemptsOrZero. rewrite Hretry.
  destruct (Z.leb_spec 0 (attempts r)); [lia|reflexivity].
Qed.

Variable errors : nat → Error.
Variable r : RetryConfig.

Hypothesis always_fails : ∀ i, attemptResult (transport i) = inl (errors i).
Hypothesis has_retry : fc_retry config = Some r.

(** From retry number [k], a transport that keeps failing is called until
    retry number [attempts], and the failure of that last call is what the
    promise is rejected with. *)
Lemma executeRequestFrom_exhausted (fuel : nat) (k : nat) :
  (Z.of_nat k ≤ attempts r) →
  (Z.to_nat (attempts r) - k < fuel)%nat →
  executeRequestFrom fuel transport clock config startTime k (Z.of_nat k)
  = Some (Rejected (errors (Z.to_nat (attempts r))), S (Z.to_nat (attempts r))).
Proof.
  revert k.
  induction fuel as [|fuel IH]; intros k Hk Hfuel; [lia|].
  cbn [executeRequestFrom].
  unfold loopGuard, attemptsOrZero. rewrite has_retry.
  destruct (Z.leb_spec (Z.of_nat k) (attempts r)) as [_|Hlt]; [|lia].
  rewrite always_fails.
  unfold onAttemptFailure, lastAttempt, calculateBackoff. rewrite has_retry.
  destruct (Z.eqb_spec (Z.of_nat k) (attempts r)) as [Heq|Hne].
  - rewrite <- Heq, Nat2Z.id. reflexivity.
  - replace (Z.of_nat k + 1) with (Z.of_nat (S k)) by lia.
    apply IH; lia.
Qed.

End RetryLoop.

(** ** Marking query states stale *)

Lemma set_queryCache_same (s : State) : set_queryCache (queryCache s) s = s.
Proof. destruct s; reflexivity. Qed.

(** Marking touches the query cache only. *)
Lemma markStaleWhere_frame (matches : string → bool) (s : State) :
  markStaleWhere matches s = set_queryCache (queryCache (markStaleWhere matches s)) s.
Proof.
  unfold markStaleWhere.
  apply (map_fold_weak_ind (λ acc _, acc = set_queryCache (queryCache acc) s)).
  - symmetry. apply set_queryCache_same.
  - intros key st m acc _ IH.
    destruct (matches key); [|exact IH].
    rewrite IH. reflexivity.
Qed.

(** Marking keeps every entry and patches the matching ones. *)
Lemma markStaleWhere_lookup (matches : string → bool) (s : State) (key : string) :
  queryCache (markStaleWhere matches s) !! key = marked matches key <$> queryCache s !! key.
Proof.
  unfold markStaleWhere.
  enough (Hgen : ∀ m : gmap string QueryState,
             m ⊆ queryCache s →
             ∀ k, queryCache
                    (map_fold (λ key _ acc,
                       if matches key then updateQueryState key stalePatch acc else acc) s m)
                  !! k
                  = match m !! k with
                    | Some st => Some (marked matches k st)
                    | None => queryCache s !! k
                    end).
  { rewrite Hgen by reflexivity. destruct (queryCache s !! key); reflexivity. }
  intros m.
  apply (map_fold_weak_ind (λ acc m,
           m ⊆ queryCache s →
           ∀ k, queryCache acc !! k
                = match m !! k with
                  | Some st => Some (marked matches k st)
                  | None => queryCache s !! k
                  end)); clear m.
  - intros _ k. rewrite lookup_empty. reflexivity.
  - intros i x m acc Hfresh IH Hsub k.
    assert (Hm : m ⊆ queryCache s).
    { etrans; [|exact Hsub]. by apply insert_subseteq. }
    assert (Hi : queryCache s !! i = Some x).
    { eapply lookup_weaken; [|exact Hsub]. apply lookup_insert_eq. }
    specialize (IH Hm).
    destruct (decide (i = k)) as [->|Hne].
    + rewrite lookup_insert_eq. unfold marked.
      destruct (matches k).
      * unfold updateQueryState. cbn [queryCache set_queryCache].
        rewrite lookup_insert_eq, IH, Hfresh, Hi. reflexivity.
      * rewrite IH, Hfresh. exact Hi.
    + rewrite lookup_insert_ne by done.
      destruct (matches i); [|apply IH].
      unfold updateQueryState. cbn [queryCache set_queryCache].
      rewrite lookup_insert_ne by done. apply IH.
Qed.

Lemma marked_stale (matches : string → bool) (key : string) (st : QueryState) :
  matches key = true → isStale (marked matches key st) = true.
Proof. intros Hm. unfold marked. rewrite Hm. reflexivity. Qed.


(** A marked entry differs from the entry it was in [isStale] at most. *)
Lemma marked_fields (matches : string → bool) (key : string) (st : QueryState) :
  marked matches key st
  = {| qs_data := qs_data st; qs_loading := qs_loading st; qs_error := qs_error st;
       qs_timestamp := qs_timestamp st; qs_metadata := qs_metadata st;
       isStale := matches key || isStale st; lastUpdated := lastUpdated st;
       refetchCount := refetchCount st |}.
Proof. unfold marked. destruct (matches key), st; reflexivity. Qed.

(** ** What the synchronous prefixes leave alone *)

Section Frames.

Variable svc : ApiServiceConfig.

Lemma fetch_frame url options config s :
  let s' := (fetch url options config s).1 in
  now s' = now s ∧ cache s' = cache s ∧ requestStates s' = requestStates s
  ∧ queryCache s' = queryCache s ∧ timers s' = timers s ∧ tasks s' = tasks s.
Proof. unfold fetch, startRun. repeat case_match; cbn; auto 10. Qed.

Lemma fetch_transport url options config s :
  let s' := (fetch url options config s).1 in
  transportCalls s' = transportCalls s ∨ startsTransport s s' url.
Proof.
  unfold fetch, startRun, startsTransport. repeat case_match; cbn; auto.
  right. split; [done|]. eexists. rewrite lookup_insert_eq. done.
Qed.

Lemma request_frame endpoint data options s :
  let s' := (request svc endpoint data options s).1 in
  now s' = now s ∧ cache s' = cache s ∧ queryCache s' = queryCache s
  ∧ timers s' = timers s ∧ tasks s' = tasks s.
Proof.
  unfold request. cbn zeta.
  destruct (requestInvalid _ _); [cbn; auto 10|].
  with_fetch fetch_frame Hf.
  cbn in *. destruct Hf as (-> & -> & _ & -> & -> & ->). auto 10.
Qed.

Lemma request_transport endpoint data options s :
  let s' := (request svc endpoint data options s).1 in
  transportCalls s' = transportCalls s
  ∨ startsTransport s s' (endpointUrl svc (spreadEndpoint (endpoints svc !! endpoint) options)).
Proof.
  unfold request. cbn zeta.
  destruct (requestInvalid _ _); [cbn; auto|].
  with_fetch fetch_transport Hf.
  exact Hf.
Qed.

End Frames.

(** ** Mutations *)

Section Mutations.

Variable svc : ApiServiceConfig.

Lemma awaiting_suspended endpoint r k : suspended (awaiting endpoint r k).
Proof. destruct r; exact I. Qed.

(** C6. [mutate] with [optimisticUpdate] marks every query state whose key
    starts with one of the [invalidateQueries] prefixes stale within the
    call itself, before the call suspends: in the state the call leaves
    behind, the entries are stale, the caller is suspended, and the
    transport call that the mutation started, if it started one, has not
    come back. *)
Theorem mutate_optimistic_marks_before_transport_resolves
    (s : State) (endpoint : string) (data : Data) (config : MutationConfig)
    (queries : list string) :
  optimisticUpdate config = Some true →
  invalidateQueries config = Some queries →
  let s' := step svc s (CallMutate endpoint data config) in
  (∀ key st, queryCache s !! key = Some st → startsWithAny queries key = true →
     ∃ st', queryCache s' !! key = Some st' ∧ isStale st' = true)
  ∧ (∃ t, tasks s' = (tasks s ++ [t])%list ∧ suspended t)
  ∧ (∀ p url, (p, url) ∈ transportCalls s' → (p, url) ∉ transportCalls s →
       ∃ r, runs s' !! p = Some r ∧ run_phase r = InTransport).
Proof.
  intros Hopt Hq s'. subst s'. cbn [step]. unfold mutate. rewrite Hopt, Hq.
  cbn [flagSet default from_option id].
  set (s1 := markStaleWhere (startsWithAny queries) s).
  pose proof (request_frame svc endpoint (Some data) noOptions s1) as Hframe.
  pose proof (request_transport svc endpoint (Some data) noOptions s1) as Htr.
  destruct (request svc endpoint (Some data) noOptions s1) as [s2 r].
  cbn [fst] in Hframe, Htr. destruct Hframe as (_ & _ & Hqc & _ & Htasks).
  assert (Hs1 : s1 = set_queryCache (queryCache s1) s) by apply markStaleWhere_frame.
  unfold spawn. cbn [queryCache tasks set_tasks transportCalls runs].
  split; [|split].
  - intros key st Hkey Hmatch.
    rewrite Hqc. unfold s1. rewrite markStaleWhere_lookup, Hkey. cbn.
    eexists; split; [reflexivity|]. by apply marked_stale.
  - eexists. split; [|apply awaiting_suspended].
    rewrite Htasks, Hs1. reflexivity.
  - intros p url Hin Hnew.
    destruct Htr as [Hsame|[Hcalls (r0 & Hrun & Hphase & _)]].
    + rewrite Hsame, Hs1 in Hin. contradiction.
    + rewrite Hcalls, Hs1 in Hin. cbn in Hin.
      apply elem_of_app in Hin as [Hin|Hin]; [contradiction|].
      apply list_elem_of_singleton in Hin. injection Hin as -> _.
      exists r0. rewrite Hs1 in Hrun. cbn in Hrun. rewrite <- Hrun. split; [|done].
      f_equal.
Qed.

End Mutations.

(** ** The three answers of [fetch] *)

Lemma fetch_hit url options config s e :
  cacheCheck (mergeConfig config) (now s) (cache s) (cacheKeyOf url options) = Some e →
  fetch url options config s = (s, Now (cachedResponse e)).
Proof. intros H. unfold fetch. rewrite H. reflexivity. Qed.

Lemma fetch_join url options config s p :
  cacheCheck (mergeConfig config) (now s) (cache s) (cacheKeyOf url options) = None →
  pendingRequests s !! cacheKeyOf url options = Some p →
  fetch url options config s = (s, Later p).
Proof. intros Hc Hp. unfold fetch. rewrite Hc, Hp. reflexivity. Qed.


(** ** Queries *)

Section Queries.

Variable svc : ApiServiceConfig.

(** A query that is enabled, not deduped and whose request data is valid
    reaches [fetch]. *)
Lemma query_reaches_fetch s endpoint data config :
  qc_enabled (mergeQueryConfig config) = true →
  dedupes (mergeQueryConfig config) (now s) (queryCache s !! queryKeyOf endpoint data)
  = false →
  requestInvalid (configOf svc endpoint)
    (transformedRequest (configOf svc endpoint) data) = false →
  step svc s (CallQuery endpoint data config)
  = let s1 := updateRequestState endpoint requestLoadingPatch
                (updateQueryState (queryKeyOf endpoint data) loadingPatch s) in
    let (s2, fr) := fetch (endpointUrl svc (configOf svc endpoint)) (initOf svc endpoint data)
                      (endpointFetchConfig (configOf svc endpoint)) s1 in
    spawn (AwaitFetchInRequest endpoint (configOf svc endpoint) fr
             (ToQuery (queryKeyOf endpoint data) (queryCache s !! queryKeyOf endpoint data)
                (mergeQueryConfig config))) s2.
Proof.
  intros Hen Hd Hv. cbn [step]. unfold query. rewrite Hen, Hd. cbn [negb].
  unfold request. cbn zeta. fold (configOf svc endpoint). rewrite Hv.
  fold loadingPatch. fold requestLoadingPatch. unfold initOf.
  destruct (fetch _ _ _ _) as [s2 fr]. reflexivity.
Qed.

(** C7 (amended). A [query] for a key whose stored state is not stale and
    was updated less than a non-zero [dedupeTime] ago returns the stored
    state as it is, whatever its [metadata.cacheHit] says; nothing else
    happens: no transport call, no change to any query state. *)
Theorem query_within_dedupe_window_returns_stored_state
    (s : State) (endpoint : string) (data : option Data) (config : PartialQueryConfig)
    (st : QueryState) (window : Z) :
  queryCache s !! queryKeyOf endpoint data = Some st →
  isStale st = false →
  dedupeTime (mergeQueryConfig config) = Some window →
  window ≠ 0 →
  now s - lastUpdated st < window →
  step svc s (CallQuery endpoint data config)
  = spawn (Done (Returned (VQueryState (Some st)))) s.
Proof.
  intros Hst Hfresh Hwin Hnz Hlt. cbn [step]. unfold query. rewrite Hst.
  destruct (qc_enabled (mergeQueryConfig config)); cbn [negb]; [|reflexivity].
  unfold dedupes. rewrite Hfresh, Hwin. cbn [negb andb].
  destruct (Z.eqb_spec window 0); [contradiction|].
  destruct (Z.ltb_spec (now s - lastUpdated st) window); [|lia].
  reflexivity.
Qed.

(** [invalidateQuery] keeps every entry, marks the matching ones and leaves
    the response cache of [BinaryJSFetch] as it is. *)
Lemma invalidateQuery_marks s prefix key :
  queryCache (step svc s (CallInvalidateQuery prefix)) !! key
  = marked (String.prefix prefix) key <$> queryCache s !! key.
Proof. apply markStaleWhere_lookup. Qed.

Lemma invalidateQuery_frame s prefix :
  step svc s (CallInvalidateQuery prefix)
  = set_queryCache (queryCache (step svc s (CallInvalidateQuery prefix))) s.
Proof. apply markStaleWhere_frame. Qed.


End Queries.

(** ** Completion of a transport call *)

Lemma transportDone_success s p r status d :
  runs s !! p = Some r →
  run_phase r = InTransport →
  let response := freshResponse d (run_retries r) (run_start r) (now s) in
  transportDone p (Responded true status d) s
  = settle p (Fulfilled response) (onFulfilled r response s).
Proof. intros Hr Hp. unfold transportDone. rewrite Hr, Hp. reflexivity. Qed.

Lemma transportDone_success_cache s p r status d :
  runs s !! p = Some r →
  run_phase r = InTransport →
  cache (transportDone p (Responded true status d) s)
  = if cacheEnabled (run_config r)
    then <[run_key r := {| ce_data := d; ce_timestamp := now s |}]> (cache s)
    else cache s.
Proof.
  intros Hr Hp. rewrite (transportDone_success _ _ _ _ _ Hr Hp).
  unfold settle, onFulfilled. destruct (cacheEnabled (run_config r)); reflexivity.
Qed.

Lemma transportDone_success_pending s p r status d :
  runs s !! p = Some r →
  run_phase r = InTransport →
  pendingRequests (transportDone p (Responded true status d) s)
  = delete (run_key r) (pendingRequests s).
Proof.
  intros Hr Hp. rewrite (transportDone_success _ _ _ _ _ Hr Hp).
  unfold settle, onFulfilled. destruct (cacheEnabled (run_config r)); reflexivity.
Qed.

Lemma transportDone_success_promise s p r status d :
  runs s !! p = Some r →
  run_phase r = InTransport →
  promises (transportDone p (Responded true status d) s) !! p
  = Some (Fulfilled (freshResponse d (run_retries r) (run_start r) (now s))).
Proof.
  intros Hr Hp. rewrite (transportDone_success _ _ _ _ _ Hr Hp).
  unfold settle, onFulfilled. destruct (cacheEnabled (run_config r)); cbn;
    apply lookup_insert_eq.
Qed.

(** A failure on the last attempt rejects the promise and leaves
    [pendingRequests] as it is. *)
Lemma transportDone_last_failure s p r o e :
  runs s !! p = Some r →
  run_phase r = InTransport →
  attemptResult o = inl e →
  lastAttempt (run_config r) (run_retries r) = true →
  transportDone p o s = settle p (Rejected e) s.
Proof.
  intros Hr Hp Ho Hlast. unfold transportDone, onAttemptFailure.
  rewrite Hr, Hp, Ho, Hlast. reflexivity.
Qed.

(** ** Resumption after [request] *)

Section Resumption.

Variable svc : ApiServiceConfig.

Lemma requestResume_frame endpoint ec fr o s :
  let s' := (requestResume endpoint ec fr o s).1 in
  now s' = now s ∧ cache s' = cache s ∧ pendingRequests s' = pendingRequests s
  ∧ runs s' = runs s ∧ transportCalls s' = transportCalls s
  ∧ queryCache s' = queryCache s ∧ timers s' = timers s ∧ tasks s' = tasks s.
Proof.
  unfold requestResume. destruct o as [response|e]; [|cbn; auto 10].
  destruct (responseInvalid _ _); cbn; repeat case_match; cbn; auto 10.
Qed.

Lemma requestResume_fulfilled endpoint ec fr response s :
  responseInvalid ec (data (transformedResponse ec response)) = false →
  (requestResume endpoint ec fr (Fulfilled response) s).2
  = Fulfilled (transformedResponse ec response).
Proof. intros Hv. unfold requestResume. rewrite Hv. reflexivity. Qed.


(** Whoever awaits [request], a rejection is thrown on to the caller. *)
Lemma continue_rejected k e s : (continue k (Rejected e) s).2 = Thrown e.
Proof. destruct k; reflexivity. Qed.

Lemma continue_frame k o s :
  let s' := (continue k o s).1 in
  now s' = now s ∧ cache s' = cache s ∧ pendingRequests s' = pendingRequests s
  ∧ runs s' = runs s ∧ transportCalls s' = transportCalls s ∧ tasks s' = tasks s.
Proof.
  destruct k as [|key current cfg|cfg]; cbn [continue].
  - cbn. auto 10.
  - unfold queryResume. destruct o; [destruct (numberSet _)|]; cbn; auto 10.
  - unfold mutateResume. destruct o as [response|e]; cbn [fst].
    + generalize (default [] (invalidateQueries cfg)). intros l. revert s.
      induction l as [|q l IH]; intros s; [cbn; auto 10|].
      cbn [foldl]. specialize (IH (markStaleWhere (String.prefix q) s)).
      rewrite (markStaleWhere_frame (String.prefix q) s) in IH at 2 4 6 8 10 12.
      exact IH.
    + destruct (flagSet _); [|auto 10].
      rewrite markStaleWhere_frame. cbn. auto 10.
Qed.

(** The two hops of a caller that went through [request]. *)
Lemma resume_in_request s t endpoint ec fr k o :
  tasks s !! t = Some (AwaitFetchInRequest endpoint ec fr k) →
  settledOf fr s = Some o →
  resume t s
  = suspend t (AwaitRequest (outcomeRef fr (requestResume endpoint ec fr o s).2) k)
      (requestResume endpoint ec fr o s).1.
Proof.
  intros Ht Ho. unfold resume. rewrite Ht, Ho.
  destruct (requestResume endpoint ec fr o s). reflexivity.
Qed.

Lemma resume_after_request s t o k v :
  tasks s !! t = Some (AwaitRequest o k) →
  outcomeValue o s = Some v →
  resume t s = finish t (continue k v s).2 (continue k v s).1.
Proof.
  intros Ht Hv. unfold resume. rewrite Ht, Hv.
  destruct (continue k v s). reflexivity.
Qed.

(** A query whose [request] returned a response stores the data that the
    response object holds when the query resumes, with [isStale = false]. *)
Lemma resume_query_fulfilled s t ref key current cfg response :
  tasks s !! t = Some (AwaitRequest (RequestOk ref) (ToQuery key current cfg)) →
  settledOf ref s = Some (Fulfilled response) →
  ∃ st, queryCache (resume t s) !! key = Some st
        ∧ isStale st = false
        ∧ qs_data st = Some (data response)
        ∧ lastUpdated st = now s.
Proof.
  intros Ht Hv. rewrite (resume_after_request s t _ _ (Fulfilled response) Ht Hv).
  cbn [continue]. unfold queryResume.
  destruct (numberSet (refetchInterval cfg)); cbn; rewrite lookup_insert_eq;
    eexists; (split; [reflexivity|]); done.
Qed.

(** When the response passes validation, the promise of [request] is
    fulfilled with the response object of the pending-request promise, which
    now holds the transformed data. *)
Lemma resume_request_valid s t endpoint ec p k response :
  tasks s !! t = Some (AwaitFetchInRequest endpoint ec (Later p) k) →
  promises s !! p = Some (Fulfilled response) →
  responseInvalid ec (data (transformedResponse ec response)) = false →
  let s' := resume t s in
  tasks s' !! t = Some (AwaitRequest (RequestOk (Later p)) k)
  ∧ promises s' !! p = Some (Fulfilled (transformedResponse ec response))
  ∧ queryCache s' = queryCache s.
Proof.
  intros Ht Hp Hv s'. subst s'.
  rewrite (resume_in_request s t endpoint ec (Later p) k (Fulfilled response) Ht Hp).
  pose proof (requestResume_frame endpoint ec (Later p) (Fulfilled response) s) as Hf.
  cbn zeta in Hf. destruct Hf as (_ & _ & _ & _ & _ & Hqc & _ & Htasks).
  rewrite (requestResume_fulfilled endpoint ec (Later p) response s Hv).
  unfold suspend. cbn [tasks promises queryCache set_tasks outcomeRef].
  split; [|split; [|exact Hqc]].
  - apply list_lookup_insert_eq. rewrite Htasks. eapply lookup_lt_Some, Ht.
  - unfold requestResume. rewrite Hv. cbn [fst]. unfold transformedResponse.
    destruct (transform ec ≫= transform_response) as [f|]; cbn.
    + apply lookup_insert_eq.
    + exact Hp.
Qed.


End Resumption.

(** ** Requests and mutations reaching [fetch] *)

Section Reaching.

Variable svc : ApiServiceConfig.

Lemma request_reaches_fetch s endpoint data options :
  let ec := spreadEndpoint (endpoints svc !! endpoint) options in
  requestInvalid ec (transformedRequest ec data) = false →
  step svc s (CallRequest endpoint data options)
  = let s1 := updateRequestState endpoint requestLoadingPatch s in
    let (s2, fr) := fetch (endpointUrl svc ec)
                      (endpointInit svc ec (transformedRequest ec data))
                      (endpointFetchConfig ec) s1 in
    spawn (AwaitFetchInRequest endpoint ec fr ToCaller) s2.
Proof.
  intros ec Hv. cbn [step]. unfold request. cbn zeta. fold ec. rewrite Hv.
  fold requestLoadingPatch. destruct (fetch _ _ _ _) as [s2 fr]. reflexivity.
Qed.

Lemma optimisticMarking_frame config s :
  optimisticMarking config s = set_queryCache (queryCache (optimisticMarking config s)) s.
Proof.
  unfold optimisticMarking. destruct (flagSet _).
  - apply markStaleWhere_frame.
  - symmetry. apply set_queryCache_same.
Qed.



End Reaching.

(** ** Marking by a list of prefixes *)

Lemma marked_twice f g key st :
  marked f key (marked g key st) = marked (λ k, g k || f k) key st.
Proof.
  rewrite !marked_fields. cbn.
  destruct (f key), (g key), (isStale st); reflexivity.
Qed.

Lemma foldl_markStale_frame (l : list string) (s : State) :
  foldl (λ acc q, markStaleWhere (String.prefix q) acc) s l
  = set_queryCache
      (queryCache (foldl (λ acc q, markStaleWhere (String.prefix q) acc) s l)) s.
Proof.
  revert s. induction l as [|q l IH]; intros s; cbn [foldl].
  - symmetry. apply set_queryCache_same.
  - specialize (IH (markStaleWhere (String.prefix q) s)).
    revert IH. generalize (foldl (λ acc q, markStaleWhere (String.prefix q) acc)
                             (markStaleWhere (String.prefix q) s) l).
    intros s' ->. rewrite (markStaleWhere_frame (String.prefix q) s). reflexivity.
Qed.

(** Marking prefix after prefix, as [mutate] does on success, comes to the
    same as marking the keys that start with any of them. *)
Lemma foldl_markStale_lookup (l : list string) (s : State) (key : string) :
  queryCache (foldl (λ acc q, markStaleWhere (String.prefix q) acc) s l) !! key
  = marked (startsWithAny l) key <$> queryCache s !! key.
Proof.
  revert s. induction l as [|q l IH]; intros s; cbn [foldl].
  - destruct (queryCache s !! key); reflexivity.
  - rewrite IH, markStaleWhere_lookup.
    destruct (queryCache s !! key) as [st|]; [|reflexivity]. cbn [fmap option_fmap option_map].
    f_equal. rewrite marked_twice. rewrite !marked_fields. reflexivity.
Qed.

(** ** Claims on completions, mutations and validation *)

Section Completions.

Variable svc : ApiServiceConfig.

(** C3 (amended). The completion of a transport call is applied whatever
    happened to the key while the call was outstanding: in every state in
    which the run still waits for the transport, a successful completion
    stores the response as the cache entry of the run's key when caching is
    enabled for the run; a [request] that awaits the promise and whose
    validator accepts the response returns it; and a query whose [request]
    returned it sets its query state to the response, with
    [isStale = false]. *)
Theorem late_completion_is_applied
    (s : State) (p : nat) (r : Run) (status : Z) (d : Data) :
  runs s !! p = Some r →
  run_phase r = InTransport →
  cacheEnabled (run_config r) = true →
  let s1 := step svc s (TransportDone p (Responded true status d)) in
  cache s1 !! run_key r = Some {| ce_data := d; ce_timestamp := now s |}
  ∧ promises s1 !! p
    = Some (Fulfilled (freshResponse d (run_retries r) (run_start r) (now s)))
  ∧ (∀ s2 t endpoint ec k response,
       tasks s2 !! t = Some (AwaitFetchInRequest endpoint ec (Later p) k) →
       promises s2 !! p = Some (Fulfilled response) →
       responseInvalid ec (data (transformedResponse ec response)) = false →
       tasks (step svc s2 (Resume t)) !! t = Some (AwaitRequest (RequestOk (Later p)) k))
  ∧ (∀ s3 t key current cfg response,
       tasks s3 !! t = Some (AwaitRequest (RequestOk (Later p)) (ToQuery key current cfg)) →
       promises s3 !! p = Some (Fulfilled response) →
       ∃ st, queryCache (step svc s3 (Resume t)) !! key = Some st
             ∧ isStale st = false
             ∧ qs_data st = Some (data response)
             ∧ lastUpdated st = now s3).
Proof.
  intros Hr Hp Hc s1. subst s1. cbn [step]. split; [|split; [|split]].
  - rewrite (transportDone_success_cache _ _ _ _ _ Hr Hp), Hc. apply lookup_insert_eq.
  - apply (transportDone_success_promise _ _ _ _ _ Hr Hp).
  - intros s2 t endpoint ec k response Ht Hpr Hv.
    apply (resume_request_valid s2 t endpoint ec p k response Ht Hpr Hv).
  - intros s3 t key current cfg response Ht Hpr.
    apply (resume_query_fulfilled s3 t (Later p) key current cfg response Ht Hpr).
Qed.

(** A successful completion removes the key from [pendingRequests]. *)
Lemma completion_success_unregisters s p r status d :
  runs s !! p = Some r →
  run_phase r = InTransport →
  pendingRequests (step svc s (TransportDone p (Responded true status d))) !! run_key r = None.
Proof.
  intros Hr Hp. cbn [step]. rewrite (transportDone_success_pending _ _ _ _ _ Hr Hp).
  apply lookup_delete_eq.
Qed.

(** A completion in failure on the last attempt leaves the key registered,
    with a promise that is now rejected: a later [fetch] for the key that
    misses the cache is handed that promise and calls no transport. *)
Lemma completion_failure_stays_registered s p r o e :
  runs s !! p = Some r →
  run_phase r = InTransport →
  attemptResult o = inl e →
  lastAttempt (run_config r) (run_retries r) = true →
  pendingRequests s !! run_key r = Some p →
  let s1 := step svc s (TransportDone p o) in
  pendingRequests s1 !! run_key r = Some p
  ∧ promises s1 !! p = Some (Rejected e)
  ∧ ∀ url options config,
      cacheKeyOf url options = run_key r →
      cacheCheck (mergeConfig config) (now s1) (cache s1) (run_key r) = None →
      fetch url options config s1 = (s1, Later p).
Proof.
  intros Hr Hp Ho Hlast Hreg s1. subst s1. cbn [step].
  rewrite (transportDone_last_failure _ _ _ _ _ Hr Hp Ho Hlast).
  split; [exact Hreg|]. split; [apply lookup_insert_eq|].
  intros url options config Hkey Hmiss.
  apply fetch_join; rewrite Hkey; [exact Hmiss|exact Hreg].
Qed.

(** [request] never throws the endpoint-not-configured error. *)
Lemma request_never_unconfigured endpoint data options s e :
  (request svc endpoint data options s).2 = Threw e → e = RequestValidationFailed.
Proof.
  unfold request. cbn zeta. destruct (requestInvalid _ _).
  - cbn. congruence.
  - destruct (fetch _ _ _ _). cbn. discriminate.
Qed.

(** For an endpoint that is not configured, [request] goes on to [fetch]
    with the url [baseUrl ++ "undefined"], no caching and no retry
    configuration. *)
Lemma request_unconfigured_reaches_fetch endpoint data s :
  endpoints svc !! endpoint = None →
  step svc s (CallRequest endpoint data noOptions)
  = let (s2, fr) :=
      fetch (baseUrl svc +:+ "undefined")
        (endpointInit svc noOptions data)
        {| p_cache := Some None; p_retry := Some None; p_timeout := None |}
        (updateRequestState endpoint requestLoadingPatch s) in
    spawn (AwaitFetchInRequest endpoint noOptions fr ToCaller) s2.
Proof.
  intros Hnone. rewrite request_reaches_fetch; rewrite Hnone; reflexivity.
Qed.




End Completions.

(** ** The state that a starting [fetch] leaves *)

Lemma fetch_start_state url options config s :
  cacheCheck (mergeConfig config) (now s) (cache s) (cacheKeyOf url options) = None →
  pendingRequests s !! cacheKeyOf url options = None →
  0 ≤ attemptsOrZero (mergeConfig config) →
  fetch url options config s = (startedState url options config s, Later (nextPromise s)).
Proof.
  intros Hc Hp Hguard. unfold fetch, startRun, loopGuard. rewrite Hc, Hp.
  destruct (Z.leb_spec 0 (attemptsOrZero (mergeConfig config))); [|lia].
  reflexivity.
Qed.

Lemma lookup_last_task (l : list Task) (t : Task) : (l ++ [t])%list !! List.length l = Some t.
Proof. by rewrite list_lookup_middle. Qed.

Section Validation.

Variable svc : ApiServiceConfig.



End Validation.

Section MutationCaches.

Variable svc : ApiServiceConfig.


End MutationCaches.

(** ** The pending-request registry *)

Lemma registryInv_ext s s' :
  runs s' = runs s → pendingRequests s' = pendingRequests s →
  registryInv s → registryInv s'.
Proof. unfold registryInv. intros -> ->. auto. Qed.


Lemma registryInv_initial : registryInv initialState.
Proof. intros p r H. cbn in H. by rewrite lookup_empty in H. Qed.

Lemma fetch_registryInv url options config s :
  registryInv s → registryInv (fetch url options config s).1.
Proof.
  intros Hinv. unfold fetch.
  destruct (cacheCheck _ _ _ _); [exact Hinv|].
  destruct (pendingRequests s !! cacheKeyOf url options) eqn:Hpend; [exact Hinv|].
  cbn [fst]. unfold startRun. intros p r.
  destruct (loopGuard _ 0); cbn.
  - destruct (decide (p = nextPromise s)) as [->|Hne].
    + rewrite lookup_insert_eq. intros [= <-]. cbn. apply lookup_insert_eq.
    + rewrite lookup_insert_ne by done. intros Hr. pose proof (Hinv _ _ Hr) as Hreg.
      rewrite lookup_insert_ne; [exact Hreg|]. intros Heq. congruence.
  - intros Hr. pose proof (Hinv _ _ Hr) as Hreg.
    rewrite lookup_insert_ne; [exact Hreg|]. intros Heq. congruence.
Qed.

Lemma transportDone_registryInv p o s :
  registryInv s → registryInv (transportDone p o s).
Proof.
  intros Hinv. unfold transportDone.
  destruct (runs s !! p) as [r|] eqn:Hr; [|exact Hinv].
  destruct (run_phase r); [|exact Hinv].
  destruct (attemptResult o) as [e|d].
  - destruct (onAttemptFailure _ _ e) as [e'|n ms].
    + intros q r'. cbn. destruct (decide (q = p)) as [->|Hne].
      * by rewrite lookup_delete_eq.
      * rewrite lookup_delete_ne by done. apply Hinv.
    + intros q r'. cbn. destruct (decide (q = p)) as [->|Hne].
      * rewrite lookup_insert_eq. intros [= <-]. cbn. by apply Hinv.
      * rewrite lookup_insert_ne by done. apply Hinv.
  - intros q r'. unfold settle, onFulfilled.
    destruct (cacheEnabled (run_config r)); cbn;
      (destruct (decide (q = p)) as [->|Hne];
       [by rewrite lookup_delete_eq|];
       rewrite lookup_delete_ne by done; intros Hr';
       pose proof (Hinv _ _ Hr') as Hreg;
       rewrite lookup_delete_ne; [exact Hreg|];
       intros Heq; rewrite <- Heq in Hreg; apply Hinv in Hr; congruence).
Qed.

Lemma backoffDone_registryInv p s :
  registryInv s → registryInv (backoffDone p s).
Proof.
  intros Hinv. unfold backoffDone.
  destruct (runs s !! p) as [r|] eqn:Hr; [|exact Hinv].
  destruct (run_phase r); [exact Hinv|].
  destruct (loopGuard _ _); intros q r'; cbn.
  - destruct (decide (q = p)) as [->|Hne].
    + rewrite lookup_insert_eq. intros [= <-]. cbn. by apply Hinv.
    + rewrite lookup_insert_ne by done. apply Hinv.
  - destruct (decide (q = p)) as [->|Hne].
    + by rewrite lookup_delete_eq.
    + rewrite lookup_delete_ne by done. apply Hinv.
Qed.

Section Registry.

Variable svc : ApiServiceConfig.

Lemma request_registryInv endpoint input options s :
  registryInv s → registryInv (request svc endpoint input options s).1.
Proof.
  intros Hinv. unfold request. cbn zeta.
  destruct (requestInvalid _ _); [exact Hinv|].
  with_fetch fetch_registryInv Hf.
  apply Hf. exact Hinv.
Qed.

Lemma resume_registryInv t s : registryInv s → registryInv (resume t s).
Proof.
  intros Hinv. unfold resume.
  destruct (tasks s !! t) as [[fr|endpoint ec fr k|o k|res]|]; try exact Hinv.
  - destruct (settledOf fr s); exact Hinv.
  - destruct (settledOf fr s) as [o|]; [|exact Hinv].
    pose proof (requestResume_frame endpoint ec fr o s) as Hf.
    destruct (requestResume endpoint ec fr o s) as [s1 o1]. cbn [fst] in Hf.
    destruct Hf as (_ & _ & Hp1 & Hr1 & _).
    eapply registryInv_ext; [| |exact Hinv]; cbn; congruence.
  - destruct (outcomeValue o s) as [v|]; [|exact Hinv].
    pose proof (continue_frame k v s) as Hk.
    destruct (continue k v s) as [s2 res]. cbn [fst] in Hk.
    destruct Hk as (_ & _ & Hp2 & Hr2 & _).
    eapply registryInv_ext; [| |exact Hinv]; cbn; congruence.
Qed.

(** Every event keeps the registry invariant. *)
Lemma step_registryInv s ev : registryInv s → registryInv (step svc s ev).
Proof.
  intros Hinv.
  destruct ev as [url options config|endpoint input options|endpoint input config
                 |endpoint input config|endpoint| | |p o|p|t|i|dt]; cbn [step].
  - pose proof (fetch_registryInv url options config s Hinv) as Hf.
    destruct (fetch url options config s). exact Hf.
  - pose proof (request_registryInv endpoint input options s Hinv) as Hf.
    destruct (request svc endpoint input options s). exact Hf.
  - unfold query.
    destruct (negb _); [exact Hinv|]. destruct (dedupes _ _ _); [exact Hinv|].
    with_request request_registryInv Hf.
    apply Hf. exact Hinv.
  - unfold mutate. fold (optimisticMarking config s).
    with_request request_registryInv Hf.
    apply Hf. rewrite optimisticMarking_frame. exact Hinv.
  - unfold invalidateQuery. rewrite markStaleWhere_frame. exact Hinv.
  - exact Hinv.
  - exact Hinv.
  - by apply transportDone_registryInv.
  - by apply backoffDone_registryInv.
  - by apply resume_registryInv.
  - unfold timerFired. destruct (timers s !! i) as [[due key]|]; [|exact Hinv].
    destruct (due <=? now s); exact Hinv.
  - destruct (0 <=? dt); exact Hinv.
Qed.

Lemma run_registryInv s evs : registryInv s → registryInv (run svc s evs).
Proof.
  revert s. induction evs as [|ev evs IH]; intros s Hinv; [exact Hinv|].
  cbn. apply IH, step_registryInv, Hinv.
Qed.

End Registry.

(** ** Concurrent calls for one key *)

Lemma set_tasks_same (s : State) : set_tasks (tasks s) s = s.
Proof. destruct s; reflexivity. Qed.

Section Concurrent.

Variable svc : ApiServiceConfig.

(** Calls of [fetch] for a key that is registered, and that miss the cache,
    are all handed the registered promise; nothing else changes. *)
Lemma joining_fetches url options configs s p :
  pendingRequests s !! cacheKeyOf url options = Some p →
  Forall (λ c, cacheCheck (mergeConfig c) (now s) (cache s) (cacheKeyOf url options) = None)
         configs →
  run svc s (map (CallFetch url options) configs)
  = set_tasks (tasks s ++ replicate (List.length configs) (AwaitFetch (Later p))) s.
Proof.
  revert s. induction configs as [|c configs IH]; intros s Hreg Hmiss.
  - cbn. rewrite app_nil_r. symmetry. apply set_tasks_same.
  - apply Forall_cons in Hmiss as [Hc Hmiss]. cbn [map run foldl step].
    rewrite (fetch_join _ _ _ _ _ Hc Hreg).
    fold_run.
    rewrite IH; [|exact Hreg|exact Hmiss].
    unfold spawn. cbn [tasks set_tasks]. rewrite <- app_assoc. reflexivity.
Qed.

(** The first of several concurrent calls of [fetch] starts the transport
    call; the others join it. *)
Lemma concurrent_fetches url options c0 configs s :
  Forall (λ c, cacheCheck (mergeConfig c) (now s) (cache s) (cacheKeyOf url options) = None)
         (c0 :: configs) →
  pendingRequests s !! cacheKeyOf url options = None →
  0 ≤ attemptsOrZero (mergeConfig c0) →
  run svc s (map (CallFetch url options) (c0 :: configs))
  = set_tasks (tasks s ++ replicate (S (List.length configs))
                            (AwaitFetch (Later (nextPromise s))))
      (startedState url options c0 s).
Proof.
  intros Hmiss Hpend Hatt. apply Forall_cons in Hmiss as [Hc Hmiss].
  cbn [map run foldl step]. rewrite (fetch_start_state _ _ _ _ Hc Hpend Hatt).
  fold_run.
  rewrite (joining_fetches _ _ _ _ (nextPromise s)).
  - unfold spawn. cbn [tasks set_tasks]. rewrite <- app_assoc. reflexivity.
  - cbn. apply lookup_insert_eq.
  - exact Hmiss.
Qed.

(** Setting [loading] on a query state does not make the call dedupable. *)
Lemma dedupes_after_loading cfg time (current : option QueryState) (fallback : QueryState) :
  isStale fallback = true →
  dedupes cfg time current = false →
  dedupes cfg time (Some (applyQueryPatch (default fallback current) loadingPatch)) = false.
Proof.
  intros Hfallback Hd. destruct current as [st|]; cbn.
  - exact Hd.
  - rewrite Hfallback. reflexivity.
Qed.

(** Calls of [query] that reach [fetch] for a registered key all await the
    registered promise, and the transport is not called. *)
Lemma joining_queries endpoint input config n s p :
  qc_enabled (mergeQueryConfig config) = true →
  requestInvalid (configOf svc endpoint)
    (transformedRequest (configOf svc endpoint) input) = false →
  dedupes (mergeQueryConfig config) (now s) (queryCache s !! queryKeyOf endpoint input)
  = false →
  cacheCheck (fetchConfigOf svc endpoint) (now s) (cache s)
    (fetchKeyOf svc endpoint input) = None →
  pendingRequests s !! fetchKeyOf svc endpoint input = Some p →
  let s' := run svc s (replicate n (CallQuery endpoint input config)) in
  transportCalls s' = transportCalls s
  ∧ runs s' = runs s
  ∧ promises s' = promises s
  ∧ ∃ new, tasks s' = (tasks s ++ new)%list
           ∧ List.length new = n
           ∧ Forall (awaitsPromise p) new.
Proof.
  intros Hen Hreq. revert s.
  induction n as [|n IH]; intros s Hd Hmiss Hreg.
  - cbn. repeat split. exists []. rewrite app_nil_r. repeat split. constructor.
  - cbn [replicate run foldl].
    rewrite (query_reaches_fetch svc s endpoint input config Hen Hd Hreq).
    cbn zeta. rewrite (fetch_join _ _ _ _ p); [|exact Hmiss|exact Hreg].
    fold_run.
    match goal with |- context [run svc ?s1 _] => specialize (IH s1) end.
    destruct IH as (Hcalls & Hruns & Hprom & new & Htasks & Hlen & Hall).
    + cbn. rewrite lookup_insert_eq. apply dedupes_after_loading; [reflexivity|exact Hd].
    + exact Hmiss.
    + exact Hreg.
    + cbn zeta. rewrite Hcalls, Hruns, Hprom, Htasks. repeat split.
      eexists (_ :: new). cbn [spawn tasks set_tasks updateRequestState set_requestStates
                                 updateQueryState set_queryCache].
      rewrite <- app_assoc. split; [reflexivity|]. split; [cbn; congruence|].
      constructor; [reflexivity|exact Hall].
Qed.

Lemma concurrent_queries endpoint input config n s :
  qc_enabled (mergeQueryConfig config) = true →
  requestInvalid (configOf svc endpoint)
    (transformedRequest (configOf svc endpoint) input) = false →
  dedupes (mergeQueryConfig config) (now s) (queryCache s !! queryKeyOf endpoint input)
  = false →
  cacheCheck (fetchConfigOf svc endpoint) (now s) (cache s)
    (fetchKeyOf svc endpoint input) = None →
  pendingRequests s !! fetchKeyOf svc endpoint input = None →
  0 ≤ attemptsOrZero (fetchConfigOf svc endpoint) →
  let s' := run svc s (replicate (S n) (CallQuery endpoint input config)) in
  transportCalls s'
  = (transportCalls s ++ [(nextPromise s, endpointUrl svc (configOf svc endpoint))])%list
  ∧ inFlight s' (fetchKeyOf svc endpoint input) (nextPromise s)
  ∧ promises s' = promises s
  ∧ ∃ new, tasks s' = (tasks s ++ new)%list
           ∧ List.length new = S n
           ∧ Forall (awaitsPromise (nextPromise s)) new.
Proof.
  intros Hen Hreq Hd Hmiss Hpend Hatt.
  cbn [replicate run foldl]. rewrite (query_reaches_fetch svc s endpoint input config Hen Hd Hreq).
  cbn zeta. rewrite fetch_start_state; [|exact Hmiss|exact Hpend|exact Hatt].
  fold_run.
  match goal with |- context [run svc ?s1 _] =>
    destruct (joining_queries endpoint input config n s1 (nextPromise s) Hen Hreq)
      as (Hcalls & Hruns & Hprom & new & Htasks & Hlen & Hall) end.
  - cbn. rewrite lookup_insert_eq. apply dedupes_after_loading; [reflexivity|exact Hd].
  - exact Hmiss.
  - cbn. apply lookup_insert_eq.
  - cbn zeta. rewrite Hcalls, Hprom, Htasks. split; [reflexivity|]. split.
    + unfold inFlight. rewrite Hruns. eexists. cbn. rewrite lookup_insert_eq. done.
    + split; [reflexivity|].
      eexists (_ :: new). cbn [spawn tasks set_tasks startedState set_pendingRequests
                                 set_nextPromise set_transportCalls set_runs
                                 updateRequestState set_requestStates
                                 updateQueryState set_queryCache].
      rewrite <- app_assoc. split; [reflexivity|]. split; [cbn; congruence|].
      constructor; [reflexivity|exact Hall].
Qed.

(** A caller of [fetch] that awaits promise [p] receives what [p] was
    settled with. *)
Lemma resume_fetch_caller s t p o :
  tasks s !! t = Some (AwaitFetch (Later p)) →
  promises s !! p = Some o →
  tasks (step svc s (Resume t)) !! t = Some (Done (resultOf o)).
Proof.
  intros Ht Hp. cbn [step]. unfold resume. rewrite Ht. cbn [settledOf]. rewrite Hp.
  unfold finish. cbn. apply list_lookup_insert_eq. eapply lookup_lt_Some, Ht.
Qed.

(** When the one transport call succeeds, no further call is made, the key
    is unregistered, and every one of the callers receives the response of
    that call. *)
Lemma concurrent_fetches_success url options c0 configs s status d :
  Forall (λ c, cacheCheck (mergeConfig c) (now s) (cache s) (cacheKeyOf url options) = None)
         (c0 :: configs) →
  pendingRequests s !! cacheKeyOf url options = None →
  0 ≤ attemptsOrZero (mergeConfig c0) →
  let p := nextPromise s in
  let s1 := run svc s (map (CallFetch url options) (c0 :: configs)) in
  let s2 := step svc s1 (TransportDone p (Responded true status d)) in
  transportCalls s2 = (transportCalls s ++ [(p, url)])%list
  ∧ pendingRequests s2 !! cacheKeyOf url options = None
  ∧ ∀ i, (i < S (List.length configs))%nat →
      tasks (step svc s2 (Resume (List.length (tasks s) + i)))
      !! (List.length (tasks s) + i)%nat
      = Some (Done (Returned (VResponse (freshResponse d 0 (now s) (now s))))).
Proof.
  intros Hmiss Hpend Hatt p s1 s2.
  assert (Hs1 : s1 = set_tasks (tasks s ++ replicate (S (List.length configs))
                                            (AwaitFetch (Later p)))
                      (startedState url options c0 s))
    by apply (concurrent_fetches _ _ _ _ _ Hmiss Hpend Hatt).
  assert (Hs2 : s2 = transportDone p (Responded true status d) s1) by reflexivity.
  clearbody s1 s2. subst s1.
  rewrite (transportDone_success _ _ (startedRun url options c0 s)) in Hs2;
    [|cbn; apply lookup_insert_eq|reflexivity].
  unfold settle, onFulfilled in Hs2.
  assert (Hcalls : transportCalls s2 = (transportCalls s ++ [(p, url)])%list).
  { rewrite Hs2. destruct (cacheEnabled _); reflexivity. }
  assert (Hreg : pendingRequests s2 !! cacheKeyOf url options = None).
  { rewrite Hs2. destruct (cacheEnabled _); cbn;
      rewrite delete_insert_eq; apply lookup_delete_eq. }
  assert (Htasks : tasks s2 = (tasks s ++ replicate (S (List.length configs))
                                          (AwaitFetch (Later p)))%list).
  { rewrite Hs2. destruct (cacheEnabled _); reflexivity. }
  assert (Hprom : promises s2 !! p
                  = Some (Fulfilled (freshResponse d 0 (now s) (now s)))).
  { rewrite Hs2. destruct (cacheEnabled _); cbn; apply lookup_insert_eq. }
  clear Hs2. split; [exact Hcalls|]. split; [exact Hreg|].
  intros i Hi.
  apply (resume_fetch_caller s2 _ p (Fulfilled (freshResponse d 0 (now s) (now s))));
    [|exact Hprom].
  rewrite Htasks, lookup_app_r by lia.
  replace (List.length (tasks s) + i - List.length (tasks s))%nat with i by lia.
  apply lookup_replicate_2. exact Hi.
Qed.

End Concurrent.

(** ** The machine and the retry loop *)

Lemma transportDone_rethrow s p r o e e' :
  runs s !! p = Some r → run_phase r = InTransport →
  attemptResult o = inl e →
  onAttemptFailure (run_config r) (run_retries r) e = Rethrow e' →
  transportDone p o s = settle p (Rejected e') s.
Proof. intros Hr Hp Ho Hc. unfold transportDone. rewrite Hr, Hp, Ho, Hc. reflexivity. Qed.

Lemma transportDone_retry s p r o e n ms :
  runs s !! p = Some r → run_phase r = InTransport →
  attemptResult o = inl e →
  onAttemptFailure (run_config r) (run_retries r) e = Retry n ms →
  transportDone p o s = set_runs (<[p := runAt r n (InBackoff ms)]> (runs s)) s.
Proof. intros Hr Hp Ho Hc. unfold transportDone. rewrite Hr, Hp, Ho, Hc. reflexivity. Qed.

Lemma backoffDone_again s p r ms :
  runs s !! p = Some r → run_phase r = InBackoff ms →
  loopGuard (run_config r) (run_retries r) = true →
  backoffDone p s
  = set_transportCalls (transportCalls s ++ [(p, run_url r)])
      (set_runs (<[p := runAt r (run_retries r) InTransport]> (runs s)) s).
Proof. intros Hr Hp Hg. unfold backoffDone. rewrite Hr, Hp, Hg. reflexivity. Qed.

Lemma backoffDone_exit s p r ms :
  runs s !! p = Some r → run_phase r = InBackoff ms →
  loopGuard (run_config r) (run_retries r) = false →
  backoffDone p s = settle p (Rejected MaxRetriesExceeded) s.
Proof. intros Hr Hp Hg. unfold backoffDone. rewrite Hr, Hp, Hg. reflexivity. Qed.

Lemma attemptResult_inr o d :
  attemptResult o = inr d → ∃ status, o = Responded true status d.
Proof. destruct o as [[] status body|reason]; cbn; intros [= <-]; eauto. Qed.

(** The call counter of [executeRequestFrom] only grows, and grows when the
    loop body runs. *)
Lemma executeRequestFrom_calls fuel transport clock config startTime calls retries o n :
  executeRequestFrom fuel transport clock config startTime calls retries = Some (o, n) →
  (calls ≤ n)%nat ∧ (loopGuard config retries = true → (S calls ≤ n)%nat).
Proof.
  revert calls retries.
  induction fuel as [|fuel IH]; intros calls retries Hexec; [discriminate|].
  cbn [executeRequestFrom] in Hexec.
  destruct (loopGuard config retries).
  - destruct (attemptResult (transport calls)) as [e|d].
    + destruct (onAttemptFailure config retries e) as [e'|retries' ms].
      * injection Hexec as _ <-. lia.
      * apply IH in Hexec as [Hle _]. lia.
    + injection Hexec as _ <-. lia.
  - injection Hexec as _ <-. split; [lia|discriminate].
Qed.

Section Solo.

Variable svc : ApiServiceConfig.
Variable transport : nat → TransportOutcome.
Variable p : nat.

(** The machine and [executeRequestFrom] agree on a run that is driven
    alone: same settlement, same number of transport calls. *)
Lemma solo_run_agrees (fuel : nat) :
  ∀ (s : State) (r : Run) (calls : nat) (o : Settled) (n : nat),
    runs s !! p = Some r →
    run_phase r = InTransport →
    loopGuard (run_config r) (run_retries r) = true →
    executeRequestFrom fuel transport (λ _, now s) (run_config r) (run_start r)
      calls (run_retries r) = Some (o, n) →
    let s' := run svc s (soloEvents fuel transport p (run_config r) calls (run_retries r)) in
    promises s' !! p = Some o
    ∧ runs s' !! p = None
    ∧ transportCalls s' = (transportCalls s ++ replicate (n - S calls) (p, run_url r))%list.
Proof.
  induction fuel as [|fuel IH]; intros s r calls o n Hr Hphase Hguard Hexec; [discriminate|].
  cbn [executeRequestFrom] in Hexec. rewrite Hguard in Hexec.
  cbn [soloEvents].
  destruct (attemptResult (transport calls)) as [e|d] eqn:Hattempt.
  - destruct (onAttemptFailure (run_config r) (run_retries r) e) as [e'|retries' ms] eqn:Hcatch.
    + injection Hexec as <- <-. cbn [run foldl step].
      rewrite (transportDone_rethrow _ _ _ _ _ _ Hr Hphase Hattempt Hcatch). cbn.
      rewrite lookup_insert_eq, lookup_delete_eq, Nat.sub_diag, app_nil_r. done.
    + cbn [run foldl step]. fold_run.
      rewrite (transportDone_retry _ _ _ _ _ _ _ Hr Hphase Hattempt Hcatch).
      set (s1 := set_runs _ s).
      assert (Hr1 : runs s1 !! p = Some (runAt r retries' (InBackoff ms)))
        by apply lookup_insert_eq.
      destruct (loopGuard (run_config r) retries') eqn:Hguard'.
      * rewrite (backoffDone_again _ _ _ ms Hr1 eq_refl Hguard').
        set (s2 := set_transportCalls _ _).
        destruct (executeRequestFrom_calls _ _ _ _ _ _ _ _ _ Hexec) as [_ Hn].
        specialize (Hn Hguard').
        destruct (IH s2 (runAt r retries' InTransport) (S calls) o n)
          as (Hprom & Hruns & Hcalls).
        -- apply lookup_insert_eq.
        -- reflexivity.
        -- exact Hguard'.
        -- exact Hexec.
        -- split; [exact Hprom|]. split; [exact Hruns|].
           cbn [runAt run_config run_retries run_url] in Hcalls. rewrite Hcalls.
           unfold s2, s1. cbn [transportCalls set_transportCalls set_runs runAt run_url].
           rewrite <- app_assoc. f_equal.
           replace (n - S calls)%nat with (S (n - S (S calls))) by lia. reflexivity.
      * rewrite (backoffDone_exit _ _ _ ms Hr1 eq_refl Hguard').
        destruct fuel as [|fuel']; [discriminate|].
        cbn [executeRequestFrom] in Hexec. rewrite Hguard' in Hexec.
        injection Hexec as <- <-. cbn.
        rewrite lookup_insert_eq, lookup_delete_eq, Nat.sub_diag, app_nil_r. done.
  - injection Hexec as <- <-. cbn [run foldl step].
    apply attemptResult_inr in Hattempt as [status ->].
    rewrite (transportDone_success _ _ _ _ _ Hr Hphase).
    unfold settle, onFulfilled.
    destruct (cacheEnabled (run_config r)); cbn;
      rewrite lookup_insert_eq, lookup_delete_eq, Nat.sub_diag, app_nil_r; done.
Qed.

End Solo.

(** A [fetch] that starts a run, followed by that run driven alone, settles
    its promise the way [executeRequest] says and calls the transport as
    often. *)
Lemma machine_runs_executeRequest (svc : ApiServiceConfig)
    (transport : nat → TransportOutcome) (url : string) (options : RequestInit)
    (config : PartialFetchConfig) (s : State) (o : Settled) (n : nat) :
  cacheCheck (mergeConfig config) (now s) (cache s) (cacheKeyOf url options) = None →
  pendingRequests s !! cacheKeyOf url options = None →
  0 ≤ attemptsOrZero (mergeConfig config) →
  executeRequest transport (λ _, now s) (mergeConfig config) (now s) = Some (o, n) →
  let p := nextPromise s in
  let s' := run svc s
              (CallFetch url options config
               :: soloEvents (executeRequestFuel (mergeConfig config)) transport p
                    (mergeConfig config) 0 0) in
  promises s' !! p = Some o
  ∧ transportCalls s' = (transportCalls s ++ replicate n (p, url))%list.
Proof.
  intros Hmiss Hpend Hatt Hexec p s'. subst s'.
  cbn [run foldl step]. rewrite (fetch_start_state _ _ _ _ Hmiss Hpend Hatt).
  fold_run.
  set (s1 := spawn _ _).
  assert (Hguard : loopGuard (mergeConfig config) 0 = true).
  { unfold loopGuard. apply Z.leb_le. exact Hatt. }
  destruct (executeRequestFrom_calls _ _ _ _ _ _ _ _ _ Hexec) as [_ Hn].
  specialize (Hn Hguard).
  destruct (solo_run_agrees svc transport p (executeRequestFuel (mergeConfig config)) s1
              (startedRun url options config s) 0%nat o n) as (Hprom & _ & Hcalls).
  - unfold s1. cbn. apply lookup_insert_eq.
  - reflexivity.
  - exact Hguard.
  - exact Hexec.
  - split; [exact Hprom|].
    cbn [startedRun run_config run_retries run_url] in Hcalls. rewrite Hcalls.
    unfold s1. cbn [spawn transportCalls set_tasks startedState set_pendingRequests
                      set_nextPromise set_transportCalls].
    rewrite <- app_assoc. f_equal.
    replace n with (S (n - 1)) at 2 by lia. reflexivity.
Qed.

(** ** Concurrent callers of one run *)




(** Callers that are resumed in any order: what holds of each of them, and
    of the promise they joined, is kept when every resumption keeps it. *)
Section Schedule.

Variable svc : ApiServiceConfig.
Variables (p : nat) (o : Settled) (good : Task → Prop) (lo hi : nat).

Hypothesis resume_good :
  ∀ s t task,
    promises s !! p = Some o →
    tasks s !! t = Some task →
    good task →
    promises (resume t s) !! p = Some o
    ∧ ∃ task', tasks (resume t s) = <[t := task']> (tasks s) ∧ good task'.


End Schedule.


Section QueryCallers.

Variables (endpoint : string) (ec : ApiEndpoint) (p : nat) (o : Settled).

Hypothesis no_transform : transform ec ≫= transform_response = None.
Hypothesis accepted : ∀ response, o = Fulfilled response →
                                  responseInvalid ec (data response) = false.





End QueryCallers.


Section SharedRun.

Variable svc : ApiServiceConfig.






End SharedRun.

(** ** Claims on retries, the registry and unknown endpoints *)

(** C1 (amended). With [attempts = N ≥ 0] and a transport that fails on
    every call, [executeRequest] makes exactly [N + 1] transport calls and
    rejects with the failure of the last call itself; the failure is not
    wrapped and [MaxRetriesExceeded] is not what the caller sees. *)
Theorem retry_exhaustion_surfaces_last_failure
    (transport : nat → TransportOutcome) (clock : nat → Z) (config : FetchConfig)
    (startTime : Z) (errors : nat → Error) (r : RetryConfig) :
  (∀ i, attemptResult (transport i) = inl (errors i)) →
  fc_retry config = Some r →
  0 ≤ attempts r →
  executeRequest transport clock config startTime
  = Some (Rejected (errors (Z.to_nat (attempts r))), S (Z.to_nat (attempts r))).
Proof.
  intros Hfail Hretry Hnonneg. unfold executeRequest, executeRequestFuel, attemptsOrZero.
  rewrite Hretry.
  apply (executeRequestFrom_exhausted transport clock config startTime errors r
           Hfail Hretry _ 0%nat); lia.
Qed.

(** C5. A request that fails on its last attempt stays in
    [pendingRequests]: after [fetch] of a url has failed, the key is still
    registered, and the next [fetch] of the same url is handed the rejected
    promise of the first one and makes no transport call. *)
Theorem failed_request_stays_registered :
  let url := "https://api.example.com/users" in
  let s1 := run exampleService initialState
              [CallFetch url emptyInit singleAttempt;
               TransportDone 0 (Failed "down");
               Resume 0] in
  let s2 := run exampleService s1 [CallFetch url emptyInit singleAttempt; Resume 1] in
  tasks s1 !! 0%nat = Some (Done (Thrown (TransportFailure "down")))
  ∧ runs s1 !! 0%nat = None
  ∧ pendingRequests s1 !! cacheKeyOf url emptyInit = Some 0%nat
  ∧ transportCalls s2 = [(0%nat, url)]
  ∧ tasks s2 !! 1%nat = Some (Done (Thrown (TransportFailure "down"))).
Proof. vm_compute. repeat split. Qed.

(** C8. [request] for an endpoint that is not configured throws nothing:
    it calls the transport with the url [baseUrl ++ "undefined"] and
    suspends. *)
Theorem request_unconfigured_endpoint_calls_transport :
  let s := step exampleService initialState (CallRequest "orders" None noOptions) in
  endpoints exampleService !! "orders" = None
  ∧ transportCalls s = [(0%nat, "https://api.example.comundefined")]
  ∧ tasks s = [AwaitFetchInRequest "orders" noOptions (Later 0) ToCaller]
  ∧ promises s = ∅.
Proof. vm_compute. repeat split. Qed.

(** ** The claims at concrete inputs *)

(** C1 (amended) at [attempts = 3] and a transport that is always down. *)
Lemma retry_exhaustion_witness :
  executeRequest (λ _, Failed "down") (λ _, 0) threeRetries 0
  = Some (Rejected (TransportFailure "down"), 4%nat).
Proof.
  apply (retry_exhaustion_surfaces_last_failure (λ _, Failed "down") (λ _, 0) threeRetries 0
           (λ _, TransportFailure "down")
           {| attempts := 3; delay := 1000; backoff := Exponential |}).
  - intros i. reflexivity.
  - reflexivity.
  - cbn. lia.
Defined.

(** Against C1 as stated: with [attempts = 3] and a transport that is
    always down, four calls are made, and the caller sees the transport
    failure, which is not [MaxRetriesExceeded]. *)
Lemma retry_exhaustion_not_MaxRetriesExceeded :
  executeRequest (λ _, Failed "down") (λ _, 0) threeRetries 0
  = Some (Rejected (TransportFailure "down"), 4%nat)
  ∧ TransportFailure "down" ≠ MaxRetriesExceeded.
Proof. split; [reflexivity|discriminate]. Qed.

(** The same on the machine, with the default configuration of [fetch]
    (three retries): four transport calls, three sleeps, and the promise is
    rejected with the transport failure. *)
Example retry_exhaustion_on_the_machine :
  let url := "https://api.example.com/users" in
  let down := TransportDone 0 (Failed "down") in
  let s := run exampleService initialState
             [CallFetch url emptyInit noFetchConfig;
              down; BackoffDone 0; down; BackoffDone 0; down; BackoffDone 0; down] in
  transportCalls s = replicate 4 (0%nat, url)
  ∧ promises s !! 0%nat = Some (Rejected (TransportFailure "down"))
  ∧ runs s = ∅.
Proof. vm_compute. repeat split. Qed.

(** Two queries that share one pending-request promise share its response
    object: each [request] assigns the transformed data to it, so when the
    queries resume after both requests have, both store the data
    transformed twice. *)
Example shared_response_is_transformed_by_each_request :
  let s := run markingService initialState
             [CallQuery "notes" None noQueryConfig;
              CallQuery "notes" None noQueryConfig;
              TransportDone 0 (Responded true 200 "x");
              Resume 0; Resume 1; Resume 0; Resume 1] in
  transportCalls s = [(0%nat, "https://api.example.com/notes")]
  ∧ data <$> (promises s !! 0%nat ≫= λ o, match o with
                                           | Fulfilled r => Some r
                                           | Rejected _ => None
                                           end) = Some "x!!"
  ∧ qs_data <$> queryCache s !! queryKeyOf "notes" None = Some (Some "x!!").
Proof. vm_compute. repeat split. Qed.



(** C3 (amended) at a [fetch] whose cache is cleared while it is outstanding. *)
Lemma late_completion_witness :
  let url := "https://api.example.com/users" in
  let s := run exampleService initialState
             [CallFetch url emptyInit noFetchConfig; Tick 10; CallClearCache; Tick 10] in
  cache s !! cacheKeyOf url emptyInit = None
  ∧ cache (step exampleService s (TransportDone 0 (Responded true 200 "[1]")))
    !! cacheKeyOf url emptyInit
    = Some {| ce_data := "[1]"; ce_timestamp := 20 |}.
Proof.
  split; [reflexivity|].
  refine (proj1 (late_completion_is_applied exampleService
                   (run exampleService initialState
                      [CallFetch "https://api.example.com/users" emptyInit noFetchConfig;
                       Tick 10; CallClearCache; Tick 10])
                   0%nat
                   (startedRun "https://api.example.com/users" emptyInit noFetchConfig
                      initialState)
                   200 "[1]" _ _ _)); reflexivity.
Defined.

(** Against C3 as stated: the cache is cleared while the transport call is
    outstanding, and the completion writes the cache entry all the same; a
    query state is invalidated while its transport call is outstanding, and
    the completion sets it to the response, not stale. *)
Lemma late_completion_overwrites :
  let url := "https://api.example.com/users" in
  let key := cacheKeyOf url emptyInit in
  let s1 := run exampleService initialState
              [CallFetch url emptyInit noFetchConfig; Tick 10; CallClearCache; Tick 10] in
  let s2 := step exampleService s1 (TransportDone 0 (Responded true 200 "[1]")) in
  let q1 := run exampleService initialState
              [CallQuery "users" None noQueryConfig; CallInvalidateQuery "users"; Tick 10] in
  let q2 := run exampleService q1
              [TransportDone 0 (Responded true 200 "[1]"); Resume 0; Resume 0] in
  (cache s1 !! key = None
   ∧ cache s2 !! key = Some {| ce_data := "[1]"; ce_timestamp := 20 |})
  ∧ (isStale <$> queryCache q1 !! queryKeyOf "users" None = Some true
     ∧ qs_data <$> queryCache q1 !! queryKeyOf "users" None = Some None
     ∧ isStale <$> queryCache q2 !! queryKeyOf "users" None = Some false
     ∧ qs_data <$> queryCache q2 !! queryKeyOf "users" None = Some (Some "[1]")).
Proof. vm_compute. repeat split. Qed.



(** C6 at a mutation of [updateUser] that invalidates [users]. *)
Lemma mutate_optimistic_witness :
  let config := {| optimisticUpdate := Some true; rollbackOnError := None;
                   mc_retryOnError := None; invalidateQueries := Some ["users"] |} in
  isStale <$> queryCache usersLoaded !! queryKeyOf "users" None = Some false
  ∧ ∃ st', queryCache (step exampleService usersLoaded (CallMutate "updateUser" "{}" config))
             !! queryKeyOf "users" None = Some st'
           ∧ isStale st' = true.
Proof.
  split; [reflexivity|].
  edestruct (mutate_optimistic_marks_before_transport_resolves exampleService usersLoaded
               "updateUser" "{}"
               {| optimisticUpdate := Some true; rollbackOnError := None;
                  mc_retryOnError := None; invalidateQueries := Some ["users"] |}
               ["users"] eq_refl eq_refl) as (Hmark & _).
  eapply Hmark.
  - vm_compute. reflexivity.
  - reflexivity.
Defined.

(** C7 (amended) at a second query of [users], 100 ms after the first. *)
Lemma query_dedupe_witness :
  ∃ st, tasks (step exampleService (step exampleService usersLoaded (Tick 100))
                 (CallQuery "users" None noQueryConfig)) !! 1%nat
        = Some (Done (Returned (VQueryState (Some st)))).
Proof.
  eexists.
  erewrite (query_within_dedupe_window_returns_stored_state exampleService
              (step exampleService usersLoaded (Tick 100)) "users" None noQueryConfig _ 1000).
  - reflexivity.
  - vm_compute. reflexivity.
  - reflexivity.
  - reflexivity.
  - discriminate.
  - vm_compute. reflexivity.
Defined.

(** Against C7 as stated: the state of [users] was filled by a transport
    response; a query 100 ms later, inside the dedupe window of 1000 ms,
    returns it with [metadata.cacheHit = false]. *)
Lemma query_dedupe_returns_cacheHit_false :
  let s := step exampleService usersLoaded (Tick 100) in
  ∃ st, queryCache s !! queryKeyOf "users" None = Some st
        ∧ isStale st = false
        ∧ now s - lastUpdated st = 100
        ∧ tasks (step exampleService s (CallQuery "users" None noQueryConfig)) !! 1%nat
          = Some (Done (Returned (VQueryState (Some st))))
        ∧ am_cacheHit (qs_metadata st) = false.
Proof. eexists. vm_compute. repeat split. Qed.




(** * Further properties of the three classes *)

(** ** More on the retry loop *)

Section RetrySuccess.

Variables (transport : nat → TransportOutcome) (clock : nat → Z).
Variables (config : FetchConfig) (startTime : Z).

Lemma executeRequestFrom_recovers (r : RetryConfig) (errors : nat → Error) (k : nat)
    (d : Data) (fuel j : nat) :
  fc_retry config = Some r →
  Z.of_nat k ≤ attempts r →
  (∀ i, (i < k)%nat → attemptResult (transport i) = inl (errors i)) →
  attemptResult (transport k) = inr d →
  (j ≤ k)%nat →
  (k - j < fuel)%nat →
  executeRequestFrom fuel transport clock config startTime j (Z.of_nat j)
  = Some (Fulfilled (freshResponse d (Z.of_nat k) startTime (clock k)), S k).
Proof.
  intros Hretry Hk Hfail Hok. revert j.
  induction fuel as [|fuel IH]; intros j Hj Hfuel; [lia|].
  cbn [executeRequestFrom]. unfold loopGuard, attemptsOrZero. rewrite Hretry.
  destruct (Z.leb_spec (Z.of_nat j) (attempts r)); [|lia].
  destruct (decide (j = k)) as [->|Hne].
  - rewrite Hok. reflexivity.
  - rewrite Hfail by lia.
    unfold onAttemptFailure, lastAttempt, calculateBackoff. rewrite Hretry.
    destruct (Z.eqb_spec (Z.of_nat j) (attempts r)); [lia|].
    replace (Z.of_nat j + 1) with (Z.of_nat (S j)) by lia.
    apply IH; lia.
Qed.

(** X1. A transport that fails [k] times, with [k] no more than [attempts],
    and then succeeds: [executeRequest] makes [k + 1] calls and fulfils with
    the data of the last one, [retryCount = k], [cacheHit = false], the
    completion time as timestamp and the time since the start as
    duration. *)
Theorem retry_then_success (r : RetryConfig) (errors : nat → Error) (k : nat) (d : Data) :
  fc_retry config = Some r →
  Z.of_nat k ≤ attempts r →
  (∀ i, (i < k)%nat → attemptResult (transport i) = inl (errors i)) →
  attemptResult (transport k) = inr d →
  executeRequest transport clock config startTime
  = Some (Fulfilled {| data := d;
                       metadata := {| timestamp := clock k;
                                      cacheHit := false;
                                      retryCount := Z.of_nat k;
                                      duration := clock k - startTime;
                                      size := Z.of_nat (String.length d) |} |},
          S k).
Proof.
  intros Hretry Hk Hfail Hok. unfold executeRequest, executeRequestFuel, attemptsOrZero.
  rewrite Hretry.
  apply (executeRequestFrom_recovers r errors k d _ 0%nat Hretry Hk Hfail Hok); lia.
Qed.

Lemma executeRequestFrom_budget (fuel calls : nat) (retries : Z) (o : Settled) (n : nat) :
  executeRequestFrom fuel transport clock config startTime calls retries = Some (o, n) →
  (n - calls ≤ Z.to_nat (attemptsOrZero config + 1 - retries))%nat
  ∧ ∀ response, o = Fulfilled response →
      retryCount (metadata response) = retries + Z.of_nat (n - calls) - 1
      ∧ cacheHit (metadata response) = false.
Proof.
  revert calls retries.
  induction fuel as [|fuel IH]; intros calls retries Hexec; [discriminate|].
  cbn [executeRequestFrom] in Hexec.
  destruct (loopGuard config retries) eqn:Hguard.
  - unfold loopGuard in Hguard. apply Z.leb_le in Hguard.
    destruct (attemptResult (transport calls)) as [e|d].
    + destruct (onAttemptFailure config retries e) as [e'|retries' ms] eqn:Hcatch.
      * injection Hexec as <- <-. split; [lia|discriminate].
      * unfold onAttemptFailure in Hcatch.
        destruct (lastAttempt config retries); [discriminate|].
        destruct (calculateBackoff (retries + 1) config); [|discriminate].
        injection Hcatch as <- _.
        pose proof (executeRequestFrom_calls _ _ _ _ _ _ _ _ _ Hexec) as [Hle _].
        apply IH in Hexec as [Hn Hresp]. split; [lia|].
        intros response Hr. destruct (Hresp response Hr) as [-> ->]. split; [lia|done].
    + injection Hexec as <- <-. split; [lia|].
      intros response [= <-]. cbn. split; [lia|done].
  - injection Hexec as <- <-. split; [lia|discriminate].
Qed.

(** X2. Whatever the transport answers, [executeRequest] makes no more than
    [attempts + 1] transport calls (one call when there is no retry
    configuration), and a response it fulfils with carries
    [retryCount = calls - 1] and [cacheHit = false]. *)
Theorem retry_budget_is_respected (o : Settled) (n : nat) :
  executeRequest transport clock config startTime = Some (o, n) →
  (n ≤ S (Z.to_nat (attemptsOrZero config)))%nat
  ∧ ∀ response, o = Fulfilled response →
      retryCount (metadata response) = Z.of_nat n - 1
      ∧ cacheHit (metadata response) = false.
Proof.
  intros Hexec. apply executeRequestFrom_budget in Hexec as [Hn Hresp].
  split; [lia|].
  intros response Hr. destruct (Hresp response Hr) as [-> ->]. split; [lia|done].
Qed.

End RetrySuccess.

(** ** Starting a request, a query or a mutation *)

Section Starting.

Variable svc : ApiServiceConfig.

(** A request that passes validation, misses the cache and finds its key
    unregistered starts a run. *)
Lemma request_starts s endpoint input options :
  let ec := spreadEndpoint (endpoints svc !! endpoint) options in
  let url := endpointUrl svc ec in
  let init := endpointInit svc ec (transformedRequest ec input) in
  requestInvalid ec (transformedRequest ec input) = false →
  cacheCheck (mergeConfig (endpointFetchConfig ec)) (now s) (cache s) (cacheKeyOf url init)
  = None →
  pendingRequests s !! cacheKeyOf url init = None →
  0 ≤ attemptsOrZero (mergeConfig (endpointFetchConfig ec)) →
  step svc s (CallRequest endpoint input options)
  = spawn (AwaitFetchInRequest endpoint ec (Later (nextPromise s)) ToCaller)
      (startedState url init (endpointFetchConfig ec)
         (updateRequestState endpoint requestLoadingPatch s)).
Proof.
  intros ec url init Hreq Hmiss Hpend Hatt.
  rewrite request_reaches_fetch by exact Hreq. cbn zeta. fold ec url init.
  rewrite fetch_start_state; [reflexivity|exact Hmiss|exact Hpend|exact Hatt].
Qed.

Lemma query_starts s endpoint input config :
  qc_enabled (mergeQueryConfig config) = true →
  dedupes (mergeQueryConfig config) (now s) (queryCache s !! queryKeyOf endpoint input)
  = false →
  requestInvalid (configOf svc endpoint)
    (transformedRequest (configOf svc endpoint) input) = false →
  cacheCheck (fetchConfigOf svc endpoint) (now s) (cache s)
    (fetchKeyOf svc endpoint input) = None →
  pendingRequests s !! fetchKeyOf svc endpoint input = None →
  0 ≤ attemptsOrZero (fetchConfigOf svc endpoint) →
  step svc s (CallQuery endpoint input config)
  = spawn (AwaitFetchInRequest endpoint (configOf svc endpoint) (Later (nextPromise s))
             (ToQuery (queryKeyOf endpoint input)
                (queryCache s !! queryKeyOf endpoint input) (mergeQueryConfig config)))
      (startedState (endpointUrl svc (configOf svc endpoint)) (initOf svc endpoint input)
         (endpointFetchConfig (configOf svc endpoint))
         (updateRequestState endpoint requestLoadingPatch
            (updateQueryState (queryKeyOf endpoint input) loadingPatch s))).
Proof.
  intros Hen Hd Hreq Hmiss Hpend Hatt.
  rewrite (query_reaches_fetch svc s endpoint input config Hen Hd Hreq). cbn zeta.
  rewrite fetch_start_state; [reflexivity|exact Hmiss|exact Hpend|exact Hatt].
Qed.

End Starting.

(** ** Resuming after a rejection *)

Lemma continue_requestStates k o s :
  requestStates (continue k o s).1 = requestStates s.
Proof.
  destruct k as [|key current cfg|cfg]; cbn [continue]; [reflexivity| |].
  - unfold queryResume. destruct o; [destruct (numberSet _)|]; reflexivity.
  - unfold mutateResume. destruct o as [response|e]; cbn [fst].
    + rewrite foldl_markStale_frame. reflexivity.
    + destruct (flagSet _); [|reflexivity]. rewrite markStaleWhere_frame. reflexivity.
Qed.

Lemma updateRequestState_lookup endpoint u s :
  requestStates (updateRequestState endpoint u s) !! endpoint
  = Some (applyRequestPatch
            (default {| rs_data := None; rs_loading := false; rs_error := None;
                        rs_timestamp := now s; rs_metadata := noMetadata |}
                     (requestStates s !! endpoint)) u).
Proof. unfold updateRequestState. cbn. apply lookup_insert_eq. Qed.

Section Rejections.

Variable svc : ApiServiceConfig.

(** When the promise that [request] awaits is rejected, [request] records
    the error, keeps the data it had, and rejects in turn; the caller gets
    the error thrown when it resumes. *)
Lemma resume_request_rejected s t endpoint ec fr k e :
  tasks s !! t = Some (AwaitFetchInRequest endpoint ec fr k) →
  settledOf fr s = Some (Rejected e) →
  let s1 := step svc s (Resume t) in
  let s2 := step svc s1 (Resume t) in
  s1 = suspend t (AwaitRequest (RequestFailed e) k) (requestFailed endpoint e s)
  ∧ tasks s2 !! t = Some (Done (Thrown e))
  ∧ cache s2 = cache s
  ∧ transportCalls s2 = transportCalls s
  ∧ pendingRequests s2 = pendingRequests s
  ∧ requestStates s2 = requestStates (requestFailed endpoint e s).
Proof.
  intros Ht Hs s1 s2.
  assert (Hs1 : s1 = suspend t (AwaitRequest (RequestFailed e) k) (requestFailed endpoint e s)).
  { unfold s1. cbn [step]. rewrite (resume_in_request s t endpoint ec fr k _ Ht Hs).
    reflexivity. }
  split; [exact Hs1|].
  assert (Ht1 : tasks s1 !! t = Some (AwaitRequest (RequestFailed e) k)).
  { rewrite Hs1. unfold suspend. cbn. apply list_lookup_insert_eq. eapply lookup_lt_Some, Ht. }
  unfold s2. cbn [step].
  rewrite (resume_after_request s1 t _ _ (Rejected e) Ht1 eq_refl).
  pose proof (continue_frame k (Rejected e) s1) as Hk.
  pose proof (continue_rejected k e s1) as Hr.
  pose proof (continue_requestStates k (Rejected e) s1) as Hrs.
  destruct (continue k (Rejected e) s1) as [s' res]. cbn [fst snd] in *. subst res.
  destruct Hk as (_ & Hcache & Hpend & _ & Hcalls & Htasks).
  unfold finish. cbn [tasks cache transportCalls pendingRequests requestStates set_tasks].
  split.
  { apply list_lookup_insert_eq. rewrite Htasks. eapply lookup_lt_Some, Ht1. }
  rewrite Hcache, Hcalls, Hpend, Hrs, Hs1. done.
Qed.

End Rejections.

(** ** Requests through [BinaryJSApi] *)

Section Requests.

Variable svc : ApiServiceConfig.

(** X3. For an endpoint without a [retry] configuration the defaults of
    [BinaryJSFetch] do not apply: [request] makes one transport call, and
    when that call fails, whatever the failure, the caller gets a
    [TypeError] (thrown by [calculateBackoff] on the missing configuration)
    and the request state records it. *)
Theorem failure_without_retry_configuration_is_TypeError
    (s : State) (endpoint : string) (input : option Data) (options : ApiEndpoint)
    (o : TransportOutcome) (e : Error) :
  let ec := spreadEndpoint (endpoints svc !! endpoint) options in
  let url := endpointUrl svc ec in
  let init := endpointInit svc ec (transformedRequest ec input) in
  ep_retry ec = None →
  requestInvalid ec (transformedRequest ec input) = false →
  cacheCheck (mergeConfig (endpointFetchConfig ec)) (now s) (cache s) (cacheKeyOf url init)
  = None →
  pendingRequests s !! cacheKeyOf url init = None →
  attemptResult o = inl e →
  let t := List.length (tasks s) in
  let p := nextPromise s in
  let s' := run svc s [CallRequest endpoint input options; TransportDone p o;
                       Resume t; Resume t] in
  tasks s' !! t = Some (Done (Thrown TypeError))
  ∧ transportCalls s' = (transportCalls s ++ [(p, url)])%list
  ∧ ∃ st, requestStates s' !! endpoint = Some st
          ∧ rs_error st = Some TypeError
          ∧ rs_loading st = false.
Proof.
  intros ec url init Hretry Hreq Hmiss Hpend Hfail t p s'.
  assert (Hatt : 0 ≤ attemptsOrZero (mergeConfig (endpointFetchConfig ec))).
  { unfold attemptsOrZero, mergeConfig, endpointFetchConfig.
    cbn [fc_retry p_retry spread_key]. rewrite Hretry. done. }
  subst s'. cbn [run foldl].
  rewrite (request_starts svc s endpoint input options Hreq Hmiss Hpend Hatt).
  fold ec url init p.
  set (s0 := updateRequestState endpoint requestLoadingPatch s).
  set (s1 := spawn _ (startedState url init (endpointFetchConfig ec) s0)).
  assert (Hrun : runs s1 !! p = Some (startedRun url init (endpointFetchConfig ec) s0))
    by apply lookup_insert_eq.
  assert (Hs2 : step svc s1 (TransportDone p o) = settle p (Rejected TypeError) s1).
  { cbn [step]. apply (transportDone_rethrow _ _ _ _ e _ Hrun eq_refl Hfail).
    unfold onAttemptFailure, lastAttempt, calculateBackoff, startedRun, mergeConfig,
      endpointFetchConfig. cbn [run_config run_retries fc_retry p_retry spread_key].
    rewrite Hretry. reflexivity. }
  rewrite Hs2. set (s2 := settle p (Rejected TypeError) s1).
  destruct (resume_request_rejected svc s2 t endpoint ec (Later p) ToCaller TypeError)
    as (_ & Hdone & _ & Hcalls & _ & Hstates).
  { apply lookup_last_task. }
  { cbn. apply lookup_insert_eq. }
  split; [exact Hdone|]. split; [rewrite Hcalls; reflexivity|].
  rewrite Hstates. unfold requestFailed. rewrite updateRequestState_lookup.
  eexists. split; [reflexivity|]. split; reflexivity.
Qed.

End Requests.

(** ** Resuming after a response *)


Lemma resume_caller s t o v :
  tasks s !! t = Some (AwaitRequest o ToCaller) →
  outcomeValue o s = Some v →
  resume t s = finish t (resultOf v) s.
Proof. intros Ht Hv. rewrite (resume_after_request s t o ToCaller v Ht Hv). reflexivity. Qed.

Lemma lookup_suspended (l : list Task) (t : nat) (old new : Task) :
  l !! t = Some old → <[t := new]> l !! t = Some new.
Proof. intros H. apply list_lookup_insert_eq. eapply lookup_lt_Some, H. Qed.

Section RequestLifecycle.

Variable svc : ApiServiceConfig.

(** X4. A request whose data the request validator rejects never reaches
    [fetch]: no transport call, no change to the response cache or to the
    pending requests; the caller gets the validation error, and the request
    state of the endpoint records it with [loading = false] and the data it
    had before. *)
Theorem invalid_request_never_reaches_fetch
    (s : State) (endpoint : string) (input : option Data) (options : ApiEndpoint) :
  let ec := spreadEndpoint (endpoints svc !! endpoint) options in
  requestInvalid ec (transformedRequest ec input) = true →
  let t := List.length (tasks s) in
  let s' := run svc s [CallRequest endpoint input options; Resume t] in
  tasks s' !! t = Some (Done (Thrown RequestValidationFailed))
  ∧ transportCalls s' = transportCalls s
  ∧ cache s' = cache s
  ∧ pendingRequests s' = pendingRequests s
  ∧ runs s' = runs s
  ∧ ∃ st, requestStates s' !! endpoint = Some st
          ∧ rs_error st = Some RequestValidationFailed
          ∧ rs_loading st = false
          ∧ rs_data st = requestStates s !! endpoint ≫= rs_data.
Proof.
  intros ec Hinvalid t s'. subst s'. cbn [run foldl].
  assert (Hs1 : step svc s (CallRequest endpoint input options)
                = spawn (AwaitRequest (RequestFailed RequestValidationFailed) ToCaller)
                    (requestFailed endpoint RequestValidationFailed
                       (updateRequestState endpoint requestLoadingPatch s))).
  { cbn [step]. unfold request. cbn zeta. fold ec. rewrite Hinvalid. reflexivity. }
  rewrite Hs1. set (s1 := spawn _ _).
  assert (Ht : tasks s1 !! t = Some (AwaitRequest (RequestFailed RequestValidationFailed)
                                       ToCaller)) by apply lookup_last_task.
  cbn [step]. rewrite (resume_caller s1 t _ (Rejected RequestValidationFailed) Ht eq_refl).
  unfold finish. cbn [tasks transportCalls cache pendingRequests runs requestStates set_tasks].
  split; [eapply lookup_suspended, Ht|].
  repeat (split; [reflexivity|]).
  unfold s1, spawn, requestFailed. cbn [requestStates set_tasks].
  rewrite !updateRequestState_lookup. eexists. split; [reflexivity|].
  cbn. destruct (requestStates s !! endpoint); done.
Qed.


End RequestLifecycle.

(** ** The life of a query *)

Lemma updateQueryState_lookup key u s :
  queryCache (updateQueryState key u s) !! key
  = Some (applyQueryPatch
            (default {| qs_data := None; qs_loading := false; qs_error := None;
                        qs_timestamp := now s; qs_metadata := noMetadata;
                        isStale := true; lastUpdated := 0; refetchCount := 0 |}
                     (queryCache s !! key)) u).
Proof. unfold updateQueryState. cbn. apply lookup_insert_eq. Qed.

Lemma updateQueryState_lookup_ne key key' u s :
  key' ≠ key →
  queryCache (updateQueryState key u s) !! key' = queryCache s !! key'.
Proof. intros Hne. unfold updateQueryState. cbn. apply lookup_insert_ne. congruence. Qed.

(** The second hop of a query whose request succeeded. *)
Lemma resume_query_ok s t o key current cfg response :
  tasks s !! t = Some (AwaitRequest o (ToQuery key current cfg)) →
  outcomeValue o s = Some (Fulfilled response) →
  let s' := resume t s in
  let stored := succeededQueryState (queryCache s !! key) current response (now s) in
  tasks s' !! t = Some (Done (Returned (VQueryState (Some stored))))
  ∧ queryCache s' !! key = Some stored
  ∧ (∀ key', key' ≠ key → queryCache s' !! key' = queryCache s !! key')
  ∧ timers s'
    = (if numberSet (refetchInterval cfg)
       then timers s ++ [(now s + default 0 (refetchInterval cfg), key)]
       else timers s)%list
  ∧ now s' = now s ∧ cache s' = cache s ∧ pendingRequests s' = pendingRequests s
  ∧ transportCalls s' = transportCalls s ∧ requestStates s' = requestStates s
  ∧ promises s' = promises s ∧ runs s' = runs s.
Proof.
  intros Ht Hv s' stored. subst s'.
  rewrite (resume_after_request s t o _ _ Ht Hv). cbn [continue queryResume].
  set (patch := {| qp_data := _ |}).
  assert (Hstored : applyQueryPatch
            (default {| qs_data := None; qs_loading := false; qs_error := None;
                        qs_timestamp := now s; qs_metadata := noMetadata;
                        isStale := true; lastUpdated := 0; refetchCount := 0 |}
                     (queryCache s !! key)) patch = stored).
  { unfold stored, succeededQueryState, applyQueryPatch, patch. cbn.
    destruct (queryCache s !! key), current; reflexivity. }
  assert (Hlen : (t < List.length (tasks s))%nat) by (eapply lookup_lt_Some, Ht).
  destruct (numberSet (refetchInterval cfg)); cbn [fst snd];
    unfold finish;
    cbn [tasks queryCache timers now cache pendingRequests transportCalls requestStates
         promises runs set_tasks set_timers updateQueryState set_queryCache];
    rewrite lookup_insert_eq, Hstored;
    (split; [apply list_lookup_insert_eq; exact Hlen|]);
    (split; [reflexivity|]);
    (split; [intros key' Hne; apply lookup_insert_ne; congruence|]);
    done.
Qed.

(** The second hop of a query whose request failed. *)
Lemma resume_query_failed s t o key current cfg e :
  tasks s !! t = Some (AwaitRequest o (ToQuery key current cfg)) →
  outcomeValue o s = Some (Rejected e) →
  let s' := resume t s in
  tasks s' !! t = Some (Done (Thrown e))
  ∧ queryCache s' !! key = Some (failedQueryState (queryCache s !! key) e (now s))
  ∧ (∀ key', key' ≠ key → queryCache s' !! key' = queryCache s !! key')
  ∧ timers s' = timers s
  ∧ now s' = now s ∧ cache s' = cache s ∧ pendingRequests s' = pendingRequests s
  ∧ transportCalls s' = transportCalls s ∧ requestStates s' = requestStates s
  ∧ promises s' = promises s ∧ runs s' = runs s.
Proof.
  intros Ht Hv s'. subst s'.
  rewrite (resume_after_request s t o _ _ Ht Hv). cbn [continue queryResume fst snd].
  assert (Hlen : (t < List.length (tasks s))%nat) by (eapply lookup_lt_Some, Ht).
  unfold finish.
  cbn [tasks queryCache timers now cache pendingRequests transportCalls requestStates
       promises runs set_tasks updateQueryState set_queryCache].
  rewrite lookup_insert_eq.
  split; [apply list_lookup_insert_eq; exact Hlen|].
  split.
  { f_equal. unfold failedQueryState, applyQueryPatch. cbn.
    destruct (queryCache s !! key); reflexivity. }
  split; [intros key' Hne; apply lookup_insert_ne; congruence|].
  done.
Qed.

Section QueryLifecycle.

Variable svc : ApiServiceConfig.


End QueryLifecycle.

(** ** A started run that the transport answers *)

Section StartedRun.

Variable svc : ApiServiceConfig.
Variables (url : string) (init : RequestInit) (cfg : PartialFetchConfig).
Variables (s0 : State) (task : Task) (dt : Z).

Lemma started_run_ticks :
  0 ≤ dt →
  step svc (spawn task (startedState url init cfg s0)) (Tick dt)
  = set_now (now s0 + dt) (spawn task (startedState url init cfg s0)).
Proof. intros Hdt. cbn [step]. destruct (Z.leb_spec 0 dt); [reflexivity|lia]. Qed.


Lemma started_run_fails o e e' :
  0 ≤ dt →
  attemptResult o = inl e →
  onAttemptFailure (mergeConfig cfg) 0 e = Rethrow e' →
  let p := nextPromise s0 in
  let key := cacheKeyOf url init in
  let s2 := run svc (spawn task (startedState url init cfg s0))
              [Tick dt; TransportDone p o] in
  promises s2 !! p = Some (Rejected e')
  ∧ tasks s2 = (tasks s0 ++ [task])%list
  ∧ transportCalls s2 = (transportCalls s0 ++ [(p, url)])%list
  ∧ cache s2 = cache s0
  ∧ pendingRequests s2 !! key = Some p
  ∧ runs s2 !! p = None
  ∧ now s2 = now s0 + dt
  ∧ queryCache s2 = queryCache s0
  ∧ requestStates s2 = requestStates s0
  ∧ timers s2 = timers s0.
Proof.
  intros Hdt Hfail Hlast p key s2. subst s2. cbn [run foldl].
  rewrite started_run_ticks by exact Hdt. cbn [step].
  rewrite (transportDone_rethrow _ _ (startedRun url init cfg s0) _ e e');
    [|cbn; apply lookup_insert_eq|reflexivity|exact Hfail|exact Hlast].
  unfold settle. cbn.
  split; [apply lookup_insert_eq|].
  split; [reflexivity|]. split; [reflexivity|]. split; [reflexivity|].
  split; [apply lookup_insert_eq|].
  split; [apply lookup_delete_eq|]. done.
Qed.

End StartedRun.

Section QueryThroughTransport.

Variable svc : ApiServiceConfig.


(** X8. A query whose transport call fails for good: the error reaches the
    caller of [query] unchanged; the query state is stale, holds the error
    and keeps the data, [lastUpdated] and [refetchCount] it had; the request
    state of the endpoint holds the error too; nothing is cached, and the
    key stays registered as pending with the rejected promise. *)
Theorem query_failed_by_transport
    (s : State) (endpoint : string) (input : option Data) (config : PartialQueryConfig)
    (o : TransportOutcome) (e e' : Error) (dt : Z) :
  let ec := configOf svc endpoint in
  let url := endpointUrl svc ec in
  let fkey := fetchKeyOf svc endpoint input in
  let before := getQueryState endpoint input s in
  qc_enabled (mergeQueryConfig config) = true →
  dedupes (mergeQueryConfig config) (now s) before = false →
  requestInvalid ec (transformedRequest ec input) = false →
  cacheCheck (fetchConfigOf svc endpoint) (now s) (cache s) fkey = None →
  pendingRequests s !! fkey = None →
  0 ≤ attemptsOrZero (fetchConfigOf svc endpoint) →
  0 ≤ dt →
  attemptResult o = inl e →
  onAttemptFailure (fetchConfigOf svc endpoint) 0 e = Rethrow e' →
  let t := List.length (tasks s) in
  let p := nextPromise s in
  let s' := run svc s [CallQuery endpoint input config; Tick dt; TransportDone p o;
                       Resume t; Resume t] in
  tasks s' !! t = Some (Done (Thrown e'))
  ∧ getQueryState endpoint input s'
    = Some {| qs_data := before ≫= qs_data; qs_loading := false; qs_error := Some e';
              qs_timestamp := from_option qs_timestamp (now s) before;
              qs_metadata := from_option qs_metadata noMetadata before;
              isStale := true;
              lastUpdated := from_option lastUpdated 0 before;
              refetchCount := from_option refetchCount 0 before |}
  ∧ (∃ st, getRequestState endpoint s' = Some st
           ∧ rs_error st = Some e' ∧ rs_loading st = false)
  ∧ transportCalls s' = (transportCalls s ++ [(p, url)])%list
  ∧ cache s' = cache s
  ∧ pendingRequests s' !! fkey = Some p
  ∧ promises s' !! p = Some (Rejected e').
Proof.
  intros ec url fkey before Hen Hd Hreq Hmiss Hpend Hatt Hdt Hfail Hlast t p s'.
  subst s'. unfold getQueryState, getRequestState in *.
  change (run svc s [CallQuery endpoint input config; Tick dt; TransportDone p o;
                     Resume t; Resume t])
    with (run svc (run svc (step svc s (CallQuery endpoint input config))
                     [Tick dt; TransportDone p o])
            [Resume t; Resume t]).
  rewrite (query_starts svc s endpoint input config Hen Hd Hreq Hmiss Hpend Hatt).
  set (key := queryKeyOf endpoint input) in *.
  set (s0 := updateRequestState endpoint requestLoadingPatch
               (updateQueryState key loadingPatch s)).
  fold ec url.
  set (task := AwaitFetchInRequest endpoint ec (Later (nextPromise s))
                 (ToQuery key before (mergeQueryConfig config))).
  destruct (started_run_fails svc url (initOf svc endpoint input)
              (endpointFetchConfig ec) s0 task dt o e e' Hdt Hfail Hlast)
    as (Hprom & Htasks & Hcalls & Hcache & Hpending & _ & Hnow & Hqc & _).
  set (s2 := run svc _ [Tick dt; _]) in *.
  assert (Ht : tasks s2 !! t = Some task).
  { rewrite Htasks. apply lookup_last_task. }
  cbn [run foldl step].
  rewrite (resume_in_request s2 t endpoint ec (Later p) _ (Rejected e') Ht Hprom).
  cbn [requestResume fst snd outcomeRef].
  set (s3 := suspend t _ _).
  assert (Ht3 : tasks s3 !! t
                = Some (AwaitRequest (RequestFailed e')
                          (ToQuery key before (mergeQueryConfig config)))).
  { unfold s3, suspend. cbn [tasks set_tasks requestFailed updateRequestState
                             set_requestStates].
    eapply lookup_suspended, Ht. }
  destruct (resume_query_failed s3 t _ key before _ e' Ht3 eq_refl)
    as (Hdone & Hstored & _ & _ & _ & Hcache4 & Hpend4 & Hcalls4 & Hrs4 & Hprom4 & _).
  split; [exact Hdone|].
  split.
  { rewrite Hstored. f_equal. unfold s3, suspend, requestFailed.
    cbn [queryCache now set_tasks updateRequestState set_requestStates].
    rewrite Hqc, Hnow. unfold s0.
    cbn [queryCache now updateRequestState set_requestStates].
    rewrite updateQueryState_lookup. unfold failedQueryState, before.
    destruct (queryCache s !! key); reflexivity. }
  split.
  { rewrite Hrs4. unfold s3, suspend, requestFailed. cbn [requestStates set_tasks].
    rewrite updateRequestState_lookup. eexists. split; [reflexivity|]. split; reflexivity. }
  rewrite Hcalls4, Hcache4, Hpend4, Hprom4.
  unfold s3, suspend, requestFailed.
  cbn [transportCalls cache pendingRequests promises set_tasks updateRequestState
       set_requestStates].
  rewrite Hcalls, Hcache. done.
Qed.

End QueryThroughTransport.

(** ** A key whose request failed *)

Lemma fetch_rejectedFor url options config s key p e :
  rejectedFor s key p e → rejectedFor (fetch url options config s).1 key p e.
Proof.
  intros (Hpend & Hprom & Hrun & Hlt). unfold fetch.
  destruct (cacheCheck _ _ _ _); [done|].
  destruct (pendingRequests s !! cacheKeyOf url options) eqn:Hp; [done|].
  assert (Hkey : cacheKeyOf url options ≠ key) by congruence.
  unfold rejectedFor, startRun. cbn [fst].
  destruct (loopGuard _ 0); cbn.
  - rewrite !lookup_insert_ne by (done || lia). repeat split; (done || lia).
  - rewrite !lookup_insert_ne by (done || lia). repeat split; (done || lia).
Qed.

Lemma transportDone_rejectedFor q o s key p e :
  registryInv s →
  rejectedFor s key p e → rejectedFor (transportDone q o s) key p e.
Proof.
  intros Hinv (Hpend & Hprom & Hrun & Hlt). unfold transportDone.
  destruct (runs s !! q) as [r|] eqn:Hr; [|done].
  assert (Hq : q ≠ p) by congruence.
  destruct (run_phase r); [|done].
  destruct (attemptResult o) as [e0|d].
  - destruct (onAttemptFailure _ _ e0) as [e'|n ms]; unfold rejectedFor, settle; cbn.
    + rewrite lookup_insert_ne, lookup_delete_ne by done. done.
    + rewrite lookup_insert_ne by done. done.
  - assert (Hkey : run_key r ≠ key).
    { intros Heq. apply Hinv in Hr. congruence. }
    unfold rejectedFor, settle, onFulfilled.
    destruct (cacheEnabled (run_config r)); cbn;
      rewrite lookup_delete_ne, lookup_insert_ne, lookup_delete_ne by done; done.
Qed.

Lemma backoffDone_rejectedFor q s key p e :
  rejectedFor s key p e → rejectedFor (backoffDone q s) key p e.
Proof.
  intros (Hpend & Hprom & Hrun & Hlt). unfold backoffDone.
  destruct (runs s !! q) as [r|] eqn:Hr; [|done].
  assert (Hq : q ≠ p) by congruence.
  destruct (run_phase r); [done|].
  destruct (loopGuard _ _); unfold rejectedFor, settle; cbn.
  - rewrite lookup_insert_ne by done. done.
  - rewrite lookup_insert_ne, lookup_delete_ne by done. done.
Qed.

Lemma rejectedFor_ext s s' key p e :
  pendingRequests s' = pendingRequests s → promises s' = promises s →
  runs s' = runs s → nextPromise s' = nextPromise s →
  rejectedFor s key p e → rejectedFor s' key p e.
Proof. unfold rejectedFor. intros -> -> -> ->. done. Qed.

Lemma continue_promises k o s :
  promises (continue k o s).1 = promises s
  ∧ nextPromise (continue k o s).1 = nextPromise s.
Proof.
  destruct k as [|key current cfg|cfg]; cbn [continue]; [done| |].
  - unfold queryResume. destruct o; [destruct (numberSet _)|]; done.
  - unfold mutateResume. destruct o as [response|e0]; cbn [fst].
    + rewrite foldl_markStale_frame. done.
    + destruct (flagSet _); [|done]. rewrite markStaleWhere_frame. done.
Qed.

Lemma requestResume_rejectedFor endpoint ec fr o s key p e :
  settledOf fr s = Some o →
  rejectedFor s key p e → rejectedFor (requestResume endpoint ec fr o s).1 key p e.
Proof.
  intros Hs (Hpend & Hprom & Hrun & Hlt). unfold requestResume.
  destruct o as [response|e0]; [|done].
  destruct (transform ec ≫= transform_response) as [f|], fr as [r|q];
    destruct (responseInvalid _ _); unfold rejectedFor; cbn; try done.
  all: cbn in Hs; assert (q ≠ p) by congruence;
    rewrite lookup_insert_ne by done; done.
Qed.

Section RejectedKey.

Variable svc : ApiServiceConfig.

Lemma request_rejectedFor key p e endpoint input options s :
  rejectedFor s key p e → rejectedFor (request svc endpoint input options s).1 key p e.
Proof.
  intros Hrej. unfold request. cbn zeta.
  destruct (requestInvalid _ _); [exact Hrej|].
  match goal with
  | |- context [fetch ?u ?o ?c ?s0] =>
      pose proof (fetch_rejectedFor u o c s0 key p e) as Hf; destruct (fetch u o c s0)
  end.
  apply Hf. exact Hrej.
Qed.

Lemma resume_rejectedFor t s key p e :
  rejectedFor s key p e → rejectedFor (resume t s) key p e.
Proof.
  intros Hrej. unfold resume.
  destruct (tasks s !! t) as [[fr|endpoint ec fr k|o k|res]|]; try exact Hrej.
  - destruct (settledOf fr s); exact Hrej.
  - destruct (settledOf fr s) as [o|] eqn:Hs; [|exact Hrej].
    pose proof (requestResume_rejectedFor endpoint ec fr o s key p e Hs Hrej) as Hf.
    destruct (requestResume endpoint ec fr o s) as [s1 o1]. exact Hf.
  - destruct (outcomeValue o s) as [v|]; [|exact Hrej].
    pose proof (continue_frame k v s) as Hk.
    pose proof (continue_promises k v s) as Hp.
    destruct (continue k v s) as [s2 res]. cbn [fst] in Hk, Hp.
    destruct Hk as (_ & _ & Hp2 & Hr2 & _). destruct Hp as [Hp3 Hn3].
    eapply rejectedFor_ext; [| | | |exact Hrej]; cbn; congruence.
Qed.

Lemma step_rejectedFor s ev key p e :
  registryInv s →
  rejectedFor s key p e → rejectedFor (step svc s ev) key p e.
Proof.
  intros Hinv Hrej.
  destruct ev as [url options config|endpoint input options|endpoint input config
                 |endpoint input config|endpoint| | |q o|q|t|i|dt]; cbn [step].
  - pose proof (fetch_rejectedFor url options config s key p e Hrej) as Hf.
    destruct (fetch url options config s). exact Hf.
  - pose proof (request_rejectedFor key p e endpoint input options s Hrej) as Hf.
    destruct (request svc endpoint input options s). exact Hf.
  - unfold query.
    destruct (negb _); [exact Hrej|]. destruct (dedupes _ _ _); [exact Hrej|].
    with_request (request_rejectedFor key p e) Hf.
    apply Hf. exact Hrej.
  - unfold mutate. fold (optimisticMarking config s).
    with_request (request_rejectedFor key p e) Hf.
    apply Hf. rewrite optimisticMarking_frame. exact Hrej.
  - unfold invalidateQuery. rewrite markStaleWhere_frame. exact Hrej.
  - exact Hrej.
  - exact Hrej.
  - by apply transportDone_rejectedFor.
  - by apply backoffDone_rejectedFor.
  - by apply resume_rejectedFor.
  - unfold timerFired. destruct (timers s !! i) as [[due k]|]; [|exact Hrej].
    destruct (due <=? now s); exact Hrej.
  - destruct (0 <=? dt); exact Hrej.
Qed.

Lemma run_rejectedFor evs s key p e :
  registryInv s →
  rejectedFor s key p e → rejectedFor (run svc s evs) key p e.
Proof.
  revert s. induction evs as [|ev evs IH]; intros s Hinv Hrej; [exact Hrej|].
  cbn. apply IH; [apply step_registryInv, Hinv|apply step_rejectedFor; assumption].
Qed.

(** X9. Once the request for a key has failed, the key is never requested
    again: in every state that the system can reach afterwards the key is
    still registered with the rejected promise, no run for it exists, and a
    call of [fetch] for it changes nothing and returns the rejected promise
    (or an entry of the response cache, if there is one that answers). *)
Theorem rejected_key_is_never_requested_again
    (before after : list Event) (key : string) (p : nat) (e : Error) :
  let s := run svc initialState before in
  rejectedFor s key p e →
  let s' := run svc s after in
  rejectedFor s' key p e
  ∧ (∀ q r, runs s' !! q = Some r → run_key r ≠ key)
  ∧ ∀ url options config,
      cacheKeyOf url options = key →
      fetch url options config s' = (s', Later p)
      ∨ ∃ entry, fetch url options config s' = (s', Now (cachedResponse entry)).
Proof.
  intros s Hrej s'.
  assert (Hinv : registryInv s) by apply run_registryInv, registryInv_initial.
  assert (Hinv' : registryInv s') by apply run_registryInv, Hinv.
  pose proof (run_rejectedFor after s key p e Hinv Hrej) as Hrej'. fold s' in Hrej'.
  split; [exact Hrej'|].
  destruct Hrej' as (Hpend & Hprom & Hrun & Hlt).
  split.
  - intros q r Hr Hkey. pose proof (Hinv' _ _ Hr) as Hreg. rewrite Hkey in Hreg.
    congruence.
  - intros url options config Hkey. unfold fetch. rewrite Hkey.
    destruct (cacheCheck _ _ _ _) as [entry|]; [right; eexists; reflexivity|].
    rewrite Hpend. left. reflexivity.
Qed.

End RejectedKey.

(** ** The response cache: expiry, disabling, clearing *)

Section ResponseCache.

Variable svc : ApiServiceConfig.

(** X10. An entry of the response cache answers [fetch] exactly while its
    age is below the [ttl] of the call: at an age of [ttl] or more the call
    goes to the transport, and the expired entry stays in the cache. *)
Theorem entry_answers_until_ttl
    (s : State) (url : string) (options : RequestInit) (config : PartialFetchConfig)
    (c : CacheConfig) (t : Z) (entry : CacheEntry) :
  fc_cache (mergeConfig config) = Some c →
  enabled c = true →
  ttl c = Some t →
  t ≠ 0 →
  cache s !! cacheKeyOf url options = Some entry →
  let s' := step svc s (CallFetch url options config) in
  (now s - ce_timestamp entry < t →
     s' = spawn (AwaitFetch (Now (cachedResponse entry))) s)
  ∧ (t ≤ now s - ce_timestamp entry →
     pendingRequests s !! cacheKeyOf url options = None →
     0 ≤ attemptsOrZero (mergeConfig config) →
     tasks s' = (tasks s ++ [AwaitFetch (Later (nextPromise s))])%list
     ∧ transportCalls s' = (transportCalls s ++ [(nextPromise s, url)])%list
     ∧ cache s' = cache s).
Proof.
  intros Hc Hen Httl Ht Hentry s'. subst s'. cbn [step].
  assert (Hcheck : cacheCheck (mergeConfig config) (now s) (cache s) (cacheKeyOf url options)
                   = if now s - ce_timestamp entry <? t then Some entry else None).
  { unfold cacheCheck, withinTtl. rewrite Hc, Hen, Hentry, Httl.
    destruct (Z.eqb_spec t 0); [done|]. cbn [orb].
    destruct (now s - ce_timestamp entry <? t); reflexivity. }
  split.
  - intros Hage. rewrite (fetch_hit url options config s entry); [reflexivity|].
    rewrite Hcheck. destruct (Z.ltb_spec (now s - ce_timestamp entry) t); [done|lia].
  - intros Hage Hpend Hatt.
    rewrite fetch_start_state; [done| |exact Hpend|exact Hatt].
    rewrite Hcheck. destruct (Z.ltb_spec (now s - ce_timestamp entry) t); [lia|done].
Qed.

(** X11. The cache configuration of a call replaces the default one as a
    whole: a call that passes [cache: { enabled: true }] without [ttl] does
    not inherit the default [ttl], and an entry then answers however old it
    is; a [ttl] of 0 does the same. *)
Theorem entry_without_ttl_never_expires
    (s : State) (url : string) (options : RequestInit) (config : PartialFetchConfig)
    (c : CacheConfig) (entry : CacheEntry) (dt : Z) :
  p_cache config = Some (Some c) →
  enabled c = true →
  ttl c = None ∨ ttl c = Some 0 →
  cache s !! cacheKeyOf url options = Some entry →
  0 ≤ dt →
  let s1 := step svc s (Tick dt) in
  now s1 = now s + dt
  ∧ step svc s1 (CallFetch url options config)
    = spawn (AwaitFetch (Now (cachedResponse entry))) s1.
Proof.
  intros Hc Hen Httl Hentry Hdt s1.
  assert (Hs1 : s1 = set_now (now s + dt) s).
  { unfold s1. cbn [step]. destruct (Z.leb_spec 0 dt); [reflexivity|lia]. }
  rewrite Hs1. split; [reflexivity|]. cbn [step].
  rewrite (fetch_hit url options config _ entry); [reflexivity|].
  unfold cacheCheck, withinTtl, mergeConfig. cbn [fc_cache cache set_now now].
  rewrite Hc. cbn [spread_key]. rewrite Hen, Hentry.
  destruct Httl as [-> | ->]; reflexivity.
Qed.

(** X12. [clearCache] empties the response cache and nothing else: a
    request in flight is not cancelled, a later [fetch] for its key joins it
    without a transport call, and when the transport answers, the response
    is written into the cleared cache. *)
Theorem clearCache_keeps_requests_in_flight
    (s : State) (url : string) (options : RequestInit) (config : PartialFetchConfig)
    (p : nat) (r : Run) (status : Z) (d : Data) :
  pendingRequests s !! cacheKeyOf url options = Some p →
  runs s !! p = Some r →
  run_phase r = InTransport →
  run_key r = cacheKeyOf url options →
  cacheEnabled (run_config r) = true →
  let s1 := step svc s CallClearCache in
  let s2 := step svc s1 (TransportDone p (Responded true status d)) in
  cache s1 = ∅
  ∧ pendingRequests s1 = pendingRequests s
  ∧ runs s1 = runs s
  ∧ step svc s1 (CallFetch url options config) = spawn (AwaitFetch (Later p)) s1
  ∧ cache s2 = {[ cacheKeyOf url options := {| ce_data := d; ce_timestamp := now s |} ]}.
Proof.
  intros Hpend Hrun Hphase Hkey Hen s1 s2.
  split; [reflexivity|]. split; [reflexivity|]. split; [reflexivity|].
  split.
  - cbn [step]. rewrite (fetch_join url options config s1 p); [reflexivity| |exact Hpend].
    unfold cacheCheck. destruct (fc_cache _) as [c|]; [|reflexivity].
    destruct (enabled c); [|reflexivity]. cbn. rewrite lookup_empty. reflexivity.
  - unfold s2. cbn [step].
    rewrite (transportDone_success_cache s1 p r status d Hrun Hphase).
    rewrite Hen, Hkey. reflexivity.
Qed.

Lemma step_cache s ev :
  cache (step svc s ev) = cache s
  ∨ ev = CallClearCache
  ∨ ∃ p status d r,
      ev = TransportDone p (Responded true status d)
      ∧ runs s !! p = Some r
      ∧ cache (step svc s ev)
        = <[run_key r := {| ce_data := d; ce_timestamp := now s |}]> (cache s).
Proof.
  destruct ev as [url options config|endpoint input options|endpoint input config
                 |endpoint input config|endpoint| | |p o|p|t|i|dt]; cbn [step].
  - left. pose proof (fetch_frame url options config s) as Hf.
    destruct (fetch url options config s). cbn in *. tauto.
  - left. pose proof (request_frame svc endpoint input options s) as Hf.
    destruct (request svc endpoint input options s). cbn in *. tauto.
  - left. unfold query.
    destruct (negb _); [reflexivity|]. destruct (dedupes _ _ _); [reflexivity|].
    with_request (request_frame svc) Hf. cbn in *. tauto.
  - left. unfold mutate. fold (optimisticMarking config s).
    with_request (request_frame svc) Hf. cbn in *.
    destruct Hf as (_ & -> & _). rewrite optimisticMarking_frame. reflexivity.
  - left. unfold invalidateQuery. rewrite markStaleWhere_frame. reflexivity.
  - left. reflexivity.
  - right. left. reflexivity.
  - unfold transportDone.
    destruct (runs s !! p) as [r|] eqn:Hr; [|left; reflexivity].
    destruct (run_phase r); [|left; reflexivity].
    destruct o as [[|] status body|reason]; cbn [attemptResult].
    + unfold settle, onFulfilled.
      destruct (cacheEnabled (run_config r)); [|left; reflexivity].
      right. right. exists p, status, body, r. done.
    + left. destruct (onAttemptFailure _ _ _); reflexivity.
    + left. destruct (onAttemptFailure _ _ _); reflexivity.
  - left. unfold backoffDone.
    destruct (runs s !! p) as [r|]; [|reflexivity].
    destruct (run_phase r); [reflexivity|].
    destruct (loopGuard _ _); reflexivity.
  - left. unfold resume.
    destruct (tasks s !! t) as [[fr|endpoint ec fr k|o k|res]|]; try reflexivity.
    + destruct (settledOf fr s); reflexivity.
    + destruct (settledOf fr s) as [o|]; [|reflexivity].
      pose proof (requestResume_frame endpoint ec fr o s) as Hf.
      destruct (requestResume endpoint ec fr o s) as [s1 o1]. cbn in *. tauto.
    + destruct (outcomeValue o s) as [v|]; [|reflexivity].
      pose proof (continue_frame k v s) as Hk.
      destruct (continue k v s) as [s2 res]. cbn in *. tauto.
  - left. unfold timerFired. destruct (timers s !! i) as [[due k]|]; [|reflexivity].
    destruct (due <=? now s); reflexivity.
  - left. destruct (0 <=? dt); reflexivity.
Qed.

(** X13. Entries of the response cache are never evicted: whatever happens,
    short of [clearCache], a key that has an entry keeps having one.
    Expiry only stops an entry from answering. *)
Theorem cache_entries_stay_until_clearCache
    (s : State) (evs : list Event) (key : string) :
  CallClearCache ∉ evs →
  is_Some (cache s !! key) →
  is_Some (cache (run svc s evs) !! key).
Proof.
  revert s. induction evs as [|ev evs IH]; intros s Hno Hin; [exact Hin|].
  cbn. apply IH; [set_solver|].
  destruct (step_cache s ev) as [-> | [-> | (p & status & d & r & _ & _ & ->)]].
  - exact Hin.
  - set_solver.
  - destruct (decide (run_key r = key)) as [->|Hne].
    + rewrite lookup_insert_eq. done.
    + rewrite lookup_insert_ne by done. exact Hin.
Qed.

Lemma step_transportCalls s ev :
  transportCalls (step svc s ev) = transportCalls s
  ∨ mayCallTransport ev = true
    ∧ ∃ p url, transportCalls (step svc s ev) = (transportCalls s ++ [(p, url)])%list.
Proof.
  destruct ev as [url options config|endpoint input options|endpoint input config
                 |endpoint input config|endpoint| | |p o|p|t|i|dt]; cbn [step mayCallTransport].
  - pose proof (fetch_transport url options config s) as Hf.
    destruct (fetch url options config s). cbn in *.
    destruct Hf as [Hf|[Hf _]]; [left; exact Hf|right; eauto].
  - pose proof (request_transport svc endpoint input options s) as Hf.
    destruct (request svc endpoint input options s). cbn in *.
    destruct Hf as [Hf|[Hf _]]; [left; exact Hf|right; eauto].
  - unfold query.
    destruct (negb _); [left; reflexivity|]. destruct (dedupes _ _ _); [left; reflexivity|].
    with_request (request_transport svc) Hf. cbn in *.
    destruct Hf as [Hf|[Hf _]]; [left; exact Hf|right; eauto].
  - unfold mutate. fold (optimisticMarking config s).
    with_request (request_transport svc) Hf. cbn in *.
    rewrite optimisticMarking_frame in Hf. cbn in Hf.
    destruct Hf as [Hf|[Hf _]]; [left; exact Hf|right; eauto].
  - left. unfold invalidateQuery. rewrite markStaleWhere_frame. reflexivity.
  - left. reflexivity.
  - left. reflexivity.
  - left. unfold transportDone.
    destruct (runs s !! p) as [r|]; [|reflexivity].
    destruct (run_phase r); [|reflexivity].
    destruct (attemptResult o) as [e|d].
    + destruct (onAttemptFailure _ _ e); reflexivity.
    + unfold settle, onFulfilled. destruct (cacheEnabled _); reflexivity.
  - unfold backoffDone.
    destruct (runs s !! p) as [r|]; [|left; reflexivity].
    destruct (run_phase r); [left; reflexivity|].
    destruct (loopGuard _ _); [right; split; [reflexivity|]; eauto|left; reflexivity].
  - left. unfold resume.
    destruct (tasks s !! t) as [[fr|endpoint ec fr k|o k|res]|]; try reflexivity.
    + destruct (settledOf fr s); reflexivity.
    + destruct (settledOf fr s) as [o|]; [|reflexivity].
      pose proof (requestResume_frame endpoint ec fr o s) as Hf.
      destruct (requestResume endpoint ec fr o s) as [s1 o1]. cbn in *. tauto.
    + destruct (outcomeValue o s) as [v|]; [|reflexivity].
      pose proof (continue_frame k v s) as Hk.
      destruct (continue k v s) as [s2 res]. cbn in *. tauto.
  - left. unfold timerFired. destruct (timers s !! i) as [[due k]|]; [|reflexivity].
    destruct (due <=? now s); reflexivity.
  - left. destruct (0 <=? dt); reflexivity.
Qed.

(** X14. The transport is called only from the four calls ([fetch],
    [request], [query], [mutate]) and at the end of a back-off sleep, at
    most once each: over any sequence of events the log of transport calls
    only grows at its end, by no more than the number of such events.
    Invalidation, clearing, timers, completions and resumptions never call
    the transport. *)
Theorem transport_calls_are_bounded
    (s : State) (evs : list Event) :
  ∃ new, transportCalls (run svc s evs) = (transportCalls s ++ new)%list
         ∧ (List.length new ≤ List.length (filter (λ ev, mayCallTransport ev = true) evs))%nat.
Proof.
  revert s. induction evs as [|ev evs IH]; intros s.
  - exists []. cbn. rewrite app_nil_r. split; [reflexivity|lia].
  - cbn [run foldl]. fold_run. destruct (IH (step svc s ev)) as (new & Hnew & Hlen).
    rewrite Hnew. rewrite filter_cons.
    destruct (step_transportCalls s ev) as [-> | [Hmay (p & url & ->)]].
    + exists new. split; [reflexivity|].
      destruct (decide (mayCallTransport ev = true)); cbn; lia.
    + exists ((p, url) :: new). rewrite <- app_assoc. split; [reflexivity|].
      rewrite decide_True by exact Hmay. cbn. lia.
Qed.

End ResponseCache.

(** ** Endpoints without cache configuration, back-off, rejected keys *)

Section Endpoints.

Variable svc : ApiServiceConfig.


(** X16. Between two attempts the run sleeps and calls nothing: after its
    failed attempt number [i] (counted from 0, with [i] below [attempts])
    the sleep is [delay * 2^i] with exponential back-off and
    [delay * (i + 1)] with linear back-off, as long as the delay, the
    factor and their product are safe integers, which the doubles of the
    source multiply exactly; the promise stays unsettled, and the next
    transport call is made when the sleep ends. *)
Theorem backoff_schedule
    (s : State) (p : nat) (r : Run) (o : TransportOutcome) (e : Error) (rc : RetryConfig) :
  runs s !! p = Some r →
  run_phase r = InTransport →
  attemptResult o = inl e →
  fc_retry (run_config r) = Some rc →
  0 ≤ run_retries r < attempts rc →
  let factor := match backoff rc with
                | Exponential => 2 ^ run_retries r
                | Linear => run_retries r + 1
                end in
  safeInteger (delay rc) = true →
  safeInteger factor = true →
  safeInteger (delay rc * factor) = true →
  let sleep := delay rc * factor in
  let s1 := step svc s (TransportDone p o) in
  let s2 := step svc s1 (BackoffDone p) in
  (runs s1 !! p = Some (runAt r (run_retries r + 1) (InBackoff sleep))
   ∧ transportCalls s1 = transportCalls s
   ∧ promises s1 = promises s)
  ∧ (runs s2 !! p = Some (runAt r (run_retries r + 1) InTransport)
     ∧ transportCalls s2 = (transportCalls s ++ [(p, run_url r)])%list
     ∧ promises s2 = promises s).
Proof.
  intros Hrun Hphase Hfail Hrc Hi factor _ _ _ sleep s1 s2.
  assert (Hs1 : s1 = set_runs (<[p := runAt r (run_retries r + 1) (InBackoff sleep)]> (runs s)) s).
  { unfold s1. cbn [step]. apply (transportDone_retry s p r o e _ _ Hrun Hphase Hfail).
    unfold onAttemptFailure, lastAttempt, calculateBackoff. rewrite Hrc.
    destruct (Z.eqb_spec (run_retries r) (attempts rc)); [lia|].
    unfold sleep, factor. rewrite Z.add_simpl_r. destruct (backoff rc); reflexivity. }
  assert (Hrun1 : runs s1 !! p = Some (runAt r (run_retries r + 1) (InBackoff sleep))).
  { rewrite Hs1. cbn. apply lookup_insert_eq. }
  split; [split; [exact Hrun1|rewrite Hs1; done]|].
  unfold s2. cbn [step].
  rewrite (backoffDone_again s1 p _ sleep Hrun1 eq_refl).
  - rewrite Hs1. cbn. split; [apply lookup_insert_eq|done].
  - unfold loopGuard, attemptsOrZero, runAt. cbn [run_config run_retries]. rewrite Hrc.
    destruct (Z.leb_spec (run_retries r + 1) (attempts rc)); [reflexivity|lia].
Qed.

(** X17. A query for a key whose request has failed before fails at once
    with the same error, without a transport call, unless it is
    deduplicated or the response cache answers it. *)
Theorem query_for_rejected_key_fails_at_once
    (s : State) (endpoint : string) (input : option Data) (config : PartialQueryConfig)
    (p : nat) (e : Error) :
  let ec := configOf svc endpoint in
  let fkey := fetchKeyOf svc endpoint input in
  let before := getQueryState endpoint input s in
  rejectedFor s fkey p e →
  qc_enabled (mergeQueryConfig config) = true →
  dedupes (mergeQueryConfig config) (now s) before = false →
  requestInvalid ec (transformedRequest ec input) = false →
  cacheCheck (fetchConfigOf svc endpoint) (now s) (cache s) fkey = None →
  let t := List.length (tasks s) in
  let s' := run svc s [CallQuery endpoint input config; Resume t; Resume t] in
  tasks s' !! t = Some (Done (Thrown e))
  ∧ transportCalls s' = transportCalls s
  ∧ getQueryState endpoint input s'
    = Some (failedQueryState before e (now s))
  ∧ rejectedFor s' fkey p e.
Proof.
  intros ec fkey before (Hpend & Hprom & Hrun & Hlt) Hen Hd Hreq Hmiss t s'.
  subst s'. unfold getQueryState in *. cbn [run foldl].
  rewrite (query_reaches_fetch svc s endpoint input config Hen Hd Hreq). cbn zeta.
  set (key := queryKeyOf endpoint input) in *.
  set (s0 := updateRequestState endpoint requestLoadingPatch
               (updateQueryState key loadingPatch s)).
  rewrite (fetch_join _ _ _ s0 p); [|exact Hmiss|exact Hpend].
  fold ec. set (s1 := spawn _ s0).
  assert (Ht : tasks s1 !! t
               = Some (AwaitFetchInRequest endpoint ec (Later p)
                         (ToQuery key before (mergeQueryConfig config))))
    by apply lookup_last_task.
  cbn [step].
  rewrite (resume_in_request s1 t endpoint ec (Later p) _ (Rejected e) Ht Hprom).
  cbn [requestResume fst snd outcomeRef].
  set (s3 := suspend t _ _).
  assert (Ht3 : tasks s3 !! t
                = Some (AwaitRequest (RequestFailed e)
                          (ToQuery key before (mergeQueryConfig config)))).
  { unfold s3, suspend. cbn [tasks set_tasks requestFailed updateRequestState
                             set_requestStates].
    eapply lookup_suspended, Ht. }
  destruct (resume_query_failed s3 t _ key before _ e Ht3 eq_refl)
    as (Hdone & Hstored & _ & _ & _ & _ & Hpend4 & Hcalls4 & _ & Hprom4 & Hruns4).
  split; [exact Hdone|].
  split; [rewrite Hcalls4; reflexivity|].
  split.
  { rewrite Hstored. f_equal. unfold s3, suspend, requestFailed, s1, spawn, s0.
    cbn [queryCache now set_tasks updateRequestState set_requestStates].
    rewrite updateQueryState_lookup. unfold failedQueryState, before.
    destruct (queryCache s !! key); reflexivity. }
  unfold rejectedFor. rewrite Hpend4, Hprom4, Hruns4.
  assert (Hnext : nextPromise (resume t s3) = nextPromise s).
  { rewrite (resume_after_request s3 t _ _ (Rejected e) Ht3 eq_refl).
    cbn [continue queryResume fst snd]. reflexivity. }
  rewrite Hnext. done.
Qed.

End Endpoints.

(** ** Query states under invalidation, mutation and timers *)

Lemma append_cons (c : Ascii.ascii) (a b : string) :
  String c a +:+ b = String c (a +:+ b).
Proof. reflexivity. Qed.

Lemma prefix_app (a b : string) : String.prefix a (a +:+ b) = true.
Proof.
  induction a as [|c a IH]; [destruct b; reflexivity|].
  rewrite append_cons. cbn [String.prefix].
  destruct (Ascii.ascii_dec c c); [exact IH|done].
Qed.

Lemma app_assoc_string (a b c : string) : (a +:+ b) +:+ c = a +:+ (b +:+ c).
Proof.
  induction a as [|x a IH]; [reflexivity|].
  rewrite !append_cons. f_equal. exact IH.
Qed.

Lemma transportDone_queryCache p o s : queryCache (transportDone p o s) = queryCache s.
Proof.
  unfold transportDone. destruct (runs s !! p) as [r|]; [|reflexivity].
  destruct (run_phase r); [|reflexivity].
  destruct (attemptResult o) as [e|d].
  - destruct (onAttemptFailure _ _ e); reflexivity.
  - unfold settle, onFulfilled. destruct (cacheEnabled _); reflexivity.
Qed.

Lemma backoffDone_queryCache p s : queryCache (backoffDone p s) = queryCache s.
Proof.
  unfold backoffDone. destruct (runs s !! p) as [r|]; [|reflexivity].
  destruct (run_phase r); [reflexivity|]. destruct (loopGuard _ _); reflexivity.
Qed.

Section QueryStates.

Variable svc : ApiServiceConfig.

(** X18. [invalidateQuery(endpoint)] matches keys by prefix: it marks the
    state of every query of the endpoint, whatever its parameters, and also
    the states of every endpoint whose name begins with [endpoint]; it
    changes no other field of these states, no other state, and nothing
    outside the query cache. *)
Theorem invalidateQuery_marks_by_prefix (s : State) (endpoint : string) :
  let s' := step svc s (CallInvalidateQuery endpoint) in
  (∀ suffix input st,
     getQueryState (endpoint +:+ suffix) input s = Some st →
     getQueryState (endpoint +:+ suffix) input s'
     = Some {| qs_data := qs_data st; qs_loading := qs_loading st; qs_error := qs_error st;
               qs_timestamp := qs_timestamp st; qs_metadata := qs_metadata st;
               isStale := true; lastUpdated := lastUpdated st;
               refetchCount := refetchCount st |})
  ∧ (∀ key, String.prefix endpoint key = false → queryCache s' !! key = queryCache s !! key)
  ∧ (∀ key, is_Some (queryCache s' !! key) ↔ is_Some (queryCache s !! key))
  ∧ s' = set_queryCache (queryCache s') s.
Proof.
  intros s'. split; [|split; [|split]].
  - intros suffix input st Hst. unfold getQueryState in *. unfold s'.
    rewrite invalidateQuery_marks, Hst. cbn [fmap option_fmap option_map].
    rewrite marked_fields. unfold queryKeyOf.
    rewrite app_assoc_string, prefix_app. reflexivity.
  - intros key Hno. unfold s'. rewrite invalidateQuery_marks.
    unfold marked. rewrite Hno. destruct (queryCache s !! key); reflexivity.
  - intros key. unfold s'. rewrite invalidateQuery_marks. apply fmap_is_Some.
  - apply invalidateQuery_frame.
Qed.

(** X19. When [mutate] resumes it only ever marks query states stale: on
    success the nested loops mark the states whose key begins with one of
    [invalidateQueries]; on failure with [rollbackOnError] the same states
    are marked stale, not restored; on failure without it nothing changes.
    The caller gets the data of the response, or the error. *)
Theorem mutation_completion_only_marks_stale
    (s : State) (t : nat) (o : RequestOutcome) (config : MutationConfig) (v : Settled) :
  tasks s !! t = Some (AwaitRequest o (ToMutate config)) →
  outcomeValue o s = Some v →
  let queries := default [] (invalidateQueries config) in
  let hit := λ key, match v with
                    | Fulfilled _ => startsWithAny queries key
                    | Rejected _ => flagSet (rollbackOnError config)
                                    && startsWithAny queries key
                    end in
  let s' := step svc s (Resume t) in
  (∀ key, queryCache s' !! key = marked hit key <$> queryCache s !! key)
  ∧ tasks s' !! t = Some (Done (match v with
                                | Fulfilled response => Returned (VData (data response))
                                | Rejected e => Thrown e
                                end))
  ∧ cache s' = cache s ∧ transportCalls s' = transportCalls s
  ∧ requestStates s' = requestStates s.
Proof.
  intros Ht Hv queries hit s'. subst s'. cbn [step].
  rewrite (resume_after_request s t o _ v Ht Hv). cbn [continue].
  assert (Hlen : (t < List.length (tasks s))%nat) by (eapply lookup_lt_Some, Ht).
  unfold mutateResume, finish. fold queries.
  destruct v as [response|e]; cbn [fst snd tasks queryCache set_tasks].
  - split; [intros key; apply foldl_markStale_lookup|].
    rewrite foldl_markStale_frame. cbn.
    split; [apply list_lookup_insert_eq; exact Hlen|done].
  - unfold hit. destruct (flagSet (rollbackOnError config)); cbn [andb].
    + split; [intros key; apply markStaleWhere_lookup|].
      rewrite markStaleWhere_frame. cbn.
      split; [apply list_lookup_insert_eq; exact Hlen|done].
    + split.
      { intros key. unfold marked. destruct (queryCache s !! key); reflexivity. }
      split; [apply list_lookup_insert_eq; exact Hlen|done].
Qed.

(** X20. [refetchInterval] does not refetch.  A query that succeeds with a
    non-zero [refetchInterval] sets one timer; before the interval has
    passed the timer does nothing; when it fires it marks the query stale,
    keeps its data, calls no transport and is gone.  The next [query] for
    the key is then not deduplicated. *)
Theorem refetch_interval_marks_stale_once
    (s : State) (t : nat) (o : RequestOutcome) (key : string)
    (current : option QueryState) (cfg : QueryConfig) (response : FetchResponse)
    (interval : Z) :
  tasks s !! t = Some (AwaitRequest o (ToQuery key current cfg)) →
  outcomeValue o s = Some (Fulfilled response) →
  refetchInterval cfg = Some interval →
  interval ≠ 0 →
  let i := List.length (timers s) in
  let s1 := step svc s (Resume t) in
  let stored := succeededQueryState (queryCache s !! key) current response (now s) in
  timers s1 = (timers s ++ [(now s + interval, key)])%list
  ∧ queryCache s1 !! key = Some stored
  ∧ (∀ dt, 0 ≤ dt < interval →
       step svc (step svc s1 (Tick dt)) (TimerFired i) = step svc s1 (Tick dt))
  ∧ (∀ dt other, 0 ≤ dt → interval ≤ dt →
       let s2 := step svc (step svc s1 (Tick dt)) (TimerFired i) in
       queryCache s2 !! key = Some (applyQueryPatch stored stalePatch)
       ∧ timers s2 = timers s
       ∧ transportCalls s2 = transportCalls s
       ∧ runs s2 = runs s
       ∧ tasks s2 = tasks s1
       ∧ dedupes other (now s2) (queryCache s2 !! key) = false).
Proof.
  intros Ht Hv Hint Hnz i s1 stored.
  destruct (resume_query_ok s t o key current cfg response Ht Hv)
    as (_ & Hstored & _ & Htimers & Hnow & _ & _ & Hcalls & _ & _ & Hruns).
  change (resume t s) with s1 in *.
  assert (Hset : numberSet (refetchInterval cfg) = true).
  { rewrite Hint. unfold numberSet. destruct (Z.eqb_spec interval 0); done. }
  rewrite Hset, Hint in Htimers. cbn [default] in Htimers.
  fold stored in Hstored.
  split; [exact Htimers|]. split; [exact Hstored|].
  assert (Hi : timers s1 !! i = Some (now s + interval, key)).
  { rewrite Htimers. apply list_lookup_middle. reflexivity. }
  assert (Htick : ∀ dt, 0 ≤ dt → step svc s1 (Tick dt) = set_now (now s + dt) s1).
  { intros dt Hdt. cbn [step]. destruct (Z.leb_spec 0 dt); [|lia]. by rewrite Hnow. }
  split.
  - intros dt [Hdt Hlt]. rewrite (Htick dt Hdt). cbn [step]. unfold timerFired.
    cbn [timers set_now now]. rewrite Hi.
    destruct (Z.leb_spec (now s + interval) (now s + dt)); [lia|reflexivity].
  - intros dt other Hdt Hge s2. subst s2. rewrite (Htick dt Hdt). cbn [step].
    unfold timerFired. cbn [timers set_now now]. rewrite Hi.
    destruct (Z.leb_spec (now s + interval) (now s + dt)); [|lia].
    rewrite updateQueryState_lookup.
    cbn [queryCache timers transportCalls runs tasks now set_now set_timers
         updateQueryState set_queryCache].
    rewrite Hstored, Htimers, Hcalls, Hruns. cbn [default].
    split; [reflexivity|].
    split.
    { unfold i. rewrite delete_middle. apply app_nil_r. }
    split; [reflexivity|]. split; [reflexivity|]. split; reflexivity.
Qed.

Lemma step_query_state (s : State) (ev : Event) (key : string) (st : QueryState) :
  queryCache s !! key = Some st →
  ev = CallClearQueryCache
  ∨ (∃ t o current cfg response,
       ev = Resume t
       ∧ tasks s !! t = Some (AwaitRequest o (ToQuery key current cfg))
       ∧ outcomeValue o s = Some (Fulfilled response)
       ∧ queryCache (step svc s ev) !! key
         = Some (succeededQueryState (Some st) current response (now s)))
  ∨ ∃ st', queryCache (step svc s ev) !! key = Some st'
           ∧ qs_data st' = qs_data st
           ∧ lastUpdated st' = lastUpdated st
           ∧ refetchCount st' = refetchCount st
           ∧ (isStale st = true → isStale st' = true).
Proof.
  intros Hst.
  assert (Hkeep : ∀ s', queryCache s' = queryCache s →
            ∃ st', queryCache s' !! key = Some st' ∧ qs_data st' = qs_data st
                   ∧ lastUpdated st' = lastUpdated st ∧ refetchCount st' = refetchCount st
                   ∧ (isStale st = true → isStale st' = true)).
  { intros s' ->. exists st. done. }
  assert (Hmark : ∀ f s', queryCache s' !! key = marked f key <$> queryCache s !! key →
            ∃ st', queryCache s' !! key = Some st' ∧ qs_data st' = qs_data st
                   ∧ lastUpdated st' = lastUpdated st ∧ refetchCount st' = refetchCount st
                   ∧ (isStale st = true → isStale st' = true)).
  { intros f s' ->. rewrite Hst. cbn. eexists. split; [reflexivity|].
    rewrite marked_fields. cbn. repeat split. intros ->. apply orb_true_r. }
  assert (Hpatch : ∀ key' u s0,
            queryCache s0 = queryCache s →
            qp_data u = None → qp_lastUpdated u = None → qp_refetchCount u = None →
            (qp_isStale u = None ∨ qp_isStale u = Some true) →
            ∃ st', queryCache (updateQueryState key' u s0) !! key = Some st'
                   ∧ qs_data st' = qs_data st
                   ∧ lastUpdated st' = lastUpdated st ∧ refetchCount st' = refetchCount st
                   ∧ (isStale st = true → isStale st' = true)).
  { intros key' u s0 Hq Hd Hl Hr Hs.
    destruct (decide (key = key')) as [<-|Hne].
    - rewrite updateQueryState_lookup, Hq, Hst. cbn [default].
      eexists. split; [reflexivity|]. unfold applyQueryPatch. cbn.
      rewrite Hd, Hl, Hr. cbn. repeat split.
      destruct Hs as [-> | ->]; cbn; done.
    - rewrite updateQueryState_lookup_ne by done. rewrite Hq. exists st. done. }
  destruct ev as [url options config|endpoint input options|endpoint input config
                 |endpoint input config|endpoint| | |p o|p|t|i|dt];
    [right; right|right; right|right; right|right; right|right; right|left; reflexivity
    |right; right|right; right|right; right| |right; right|right; right]; cbn [step].
  - apply Hkeep. pose proof (fetch_frame url options config s) as Hf.
    destruct (fetch url options config s). cbn in *. tauto.
  - apply Hkeep. pose proof (request_frame svc endpoint input options s) as Hf.
    destruct (request svc endpoint input options s). cbn in *. tauto.
  - unfold query.
    destruct (negb _); [apply Hkeep; reflexivity|].
    destruct (dedupes _ _ _); [apply Hkeep; reflexivity|].
    match goal with
    | |- context [request svc ?e ?d ?o (updateQueryState ?k ?u s)] =>
        pose proof (request_frame svc e d o (updateQueryState k u s)) as Hf;
        pose proof (Hpatch k u s eq_refl eq_refl eq_refl eq_refl (or_introl eq_refl)) as Hp;
        destruct (request svc e d o (updateQueryState k u s)) as [s2 r]
    end.
    cbn [fst spawn queryCache set_tasks] in *.
    destruct Hf as (_ & _ & -> & _). exact Hp.
  - unfold mutate. fold (optimisticMarking config s).
    with_request (request_frame svc) Hf. cbn [fst spawn queryCache set_tasks] in *.
    destruct Hf as (_ & _ & -> & _).
    unfold optimisticMarking. destruct (flagSet _); [|apply (Hkeep s); reflexivity].
    apply (Hmark (startsWithAny (default [] (invalidateQueries config)))
             (markStaleWhere (startsWithAny (default [] (invalidateQueries config))) s)).
    apply markStaleWhere_lookup.
  - apply (Hmark (String.prefix endpoint) (invalidateQuery endpoint s)).
    apply markStaleWhere_lookup.
  - apply Hkeep. reflexivity.
  - apply Hkeep. apply transportDone_queryCache.
  - apply Hkeep. apply backoffDone_queryCache.
  - unfold resume.
    destruct (tasks s !! t) as [[fr|endpoint ec fr k|o k|res]|] eqn:Ht;
      try (right; right; apply Hkeep; reflexivity).
    + right; right. destruct (settledOf fr s); apply Hkeep; reflexivity.
    + right; right. destruct (settledOf fr s) as [o|]; [|apply Hkeep; reflexivity].
      pose proof (requestResume_frame endpoint ec fr o s) as Hf.
      destruct (requestResume endpoint ec fr o s) as [s1 o1]. cbn in *.
      apply Hkeep. cbn. tauto.
    + destruct (outcomeValue o s) as [v|] eqn:Hv; [|right; right; apply Hkeep; reflexivity].
      destruct k as [|key' current cfg|cfg]; cbn [continue].
      * right; right. apply Hkeep. reflexivity.
      * destruct (decide (key' = key)) as [->|Hne].
        -- destruct v as [response|e].
           ++ right; left. exists t, o, current, cfg, response.
              split; [reflexivity|]. split; [exact Ht|]. split; [exact Hv|].
              destruct (resume_query_ok s t o key current cfg response Ht Hv)
                as (_ & Hstored & _).
              unfold resume in Hstored. rewrite Ht, Hv in Hstored.
              etrans; [exact Hstored|]. rewrite Hst. reflexivity.
           ++ right; right. cbn [queryResume finish].
              apply (Hpatch key _ s eq_refl); (reflexivity || (right; reflexivity)).
        -- right; right. unfold queryResume.
           destruct v as [response|e]; [destruct (numberSet _)|];
             cbn [finish queryCache set_tasks set_timers];
             rewrite updateQueryState_lookup_ne by done; exists st; done.
      * right; right.
        unfold mutateResume. destruct v as [response|e]; cbn [finish queryCache set_tasks].
        -- apply (Hmark (startsWithAny (default [] (invalidateQueries cfg)))
                    (foldl (λ acc q, markStaleWhere (String.prefix q) acc) s
                       (default [] (invalidateQueries cfg)))).
           apply foldl_markStale_lookup.
        -- destruct (flagSet _); [|apply (Hkeep s); reflexivity].
           apply (Hmark (startsWithAny (default [] (invalidateQueries cfg)))
                    (markStaleWhere (startsWithAny (default [] (invalidateQueries cfg))) s)).
           apply markStaleWhere_lookup.
  - unfold timerFired. destruct (timers s !! i) as [[due k]|]; [|apply Hkeep; reflexivity].
    destruct (due <=? now s); [|apply Hkeep; reflexivity].
    apply (Hpatch k stalePatch (set_timers (delete i (timers s)) s) eq_refl);
      (reflexivity || (right; reflexivity)).
  - destruct (0 <=? dt); apply Hkeep; reflexivity.
Qed.

(** X21. Only [clearQueryCache] and the success of a query for the key
    change what a query state holds: under every other event the state stays
    in the query cache with the data, [lastUpdated] and [refetchCount] it
    had, and a stale state stays stale.  In particular neither a mutation
    nor the response cache nor a failed query ever refreshes or replaces
    query data. *)
Theorem only_a_successful_query_refreshes
    (s : State) (ev : Event) (key : string) (st : QueryState) :
  queryCache s !! key = Some st →
  ev = CallClearQueryCache
  ∨ (∃ t o current cfg response,
       ev = Resume t
       ∧ tasks s !! t = Some (AwaitRequest o (ToQuery key current cfg))
       ∧ outcomeValue o s = Some (Fulfilled response)
       ∧ queryCache (step svc s ev) !! key
         = Some (succeededQueryState (Some st) current response (now s)))
  ∨ ∃ st', queryCache (step svc s ev) !! key = Some st'
           ∧ qs_data st' = qs_data st
           ∧ lastUpdated st' = lastUpdated st
           ∧ refetchCount st' = refetchCount st
           ∧ (isStale st = true → isStale st' = true).
Proof. apply step_query_state. Qed.

(** X22. Query states are never removed one by one: whatever happens, short
    of [clearQueryCache], a key that has a query state keeps having one. *)
Theorem query_states_stay_until_clearQueryCache
    (s : State) (evs : list Event) (key : string) :
  CallClearQueryCache ∉ evs →
  is_Some (queryCache s !! key) →
  is_Some (queryCache (run svc s evs) !! key).
Proof.
  revert s. induction evs as [|ev evs IH]; intros s Hno [st Hst]; [by exists st|].
  cbn. apply IH; [set_solver|].
  destruct (step_query_state s ev key st Hst)
    as [-> | [(t & o & current & cfg & response & _ & _ & _ & Hnew) | (st' & Hnew & _)]].
  - set_solver.
  - rewrite Hnew. done.
  - rewrite Hnew. done.
Qed.

End QueryStates.

(** ** What [request] sends *)

Lemma headerOf_setHeader k k' v h :
  headerOf k (setHeader k' v h) = if String.eqb k k' then Some v else headerOf k h.
Proof.
  induction h as [|[k0 v0] h IH]; cbn [setHeader headerOf]; [reflexivity|].
  destruct (String.eqb_spec k' k0) as [->|Hne]; cbn [headerOf].
  - destruct (String.eqb k k0); reflexivity.
  - rewrite IH. destruct (String.eqb_spec k k0) as [->|Hne'].
    + destruct (String.eqb_spec k0 k'); [congruence|reflexivity].
    + reflexivity.
Qed.

Lemma headerOf_snoc k h k' v :
  headerOf k (h ++ [(k', v)])%list
  = match headerOf k h with
    | Some w => Some w
    | None => if String.eqb k k' then Some v else None
    end.
Proof.
  induction h as [|[k0 v0] h IH]; cbn [headerOf app]; [reflexivity|].
  destruct (String.eqb k k0); [reflexivity|exact IH].
Qed.

Lemma setHeader_keys k v h : ∃ extra, (setHeader k v h).*1 = (h.*1 ++ extra)%list.
Proof.
  induction h as [|[k0 v0] h [extra IH]]; cbn [setHeader].
  - exists [k]. reflexivity.
  - destruct (String.eqb_spec k k0) as [->|Hne].
    + exists []. cbn. by rewrite app_nil_r.
    + exists extra. cbn. by rewrite IH.
Qed.

Lemma foldl_setHeader (k : string) (l base : list (string * string)) :
  headerOf k (foldl (λ acc kv, setHeader (fst kv) (snd kv) acc) base l)
  = match headerOf k (reverse l) with
    | Some v => Some v
    | None => headerOf k base
    end
  ∧ ∃ extra, (foldl (λ acc kv, setHeader (fst kv) (snd kv) acc) base l).*1
             = (base.*1 ++ extra)%list.
Proof.
  revert base. induction l as [|[k' v] rest IH]; intros base; cbn [foldl fst snd].
  - split; [reflexivity|]. exists []. by rewrite app_nil_r.
  - destruct (IH (setHeader k' v base)) as [Hlook [extra Hkeys]]. split.
    + rewrite Hlook, reverse_cons, headerOf_snoc, headerOf_setHeader.
      destruct (headerOf k (reverse rest)), (String.eqb k k'); reflexivity.
    + destruct (setHeader_keys k' v base) as [extra' Hk].
      rewrite Hkeys, Hk, <- app_assoc. eauto.
Qed.

(** X23. The headers that [request] sends: a header of the endpoint
    overrides the default header of the same name and every other default
    header is kept.  When no header name consists of digits only, the
    default headers keep their places at the front of the header object
    (whose order enters the cache key). *)
Theorem endpoint_headers_override_defaults
    (a b : option (list (string * string))) (k : string) :
  headerOf k (spreadHeaders a b)
  = match headerOf k (reverse (default [] b)) with
    | Some v => Some v
    | None => headerOf k (default [] a)
    end
  ∧ (Forall (λ kv, indexLike kv.1 = false) (default [] a ++ default [] b)%list →
     ∃ extra, (spreadHeaders a b).*1 = ((default [] a).*1 ++ extra)%list).
Proof.
  destruct (foldl_setHeader k (default [] b) (default [] a)) as [Hlook Hkeys].
  split; [exact Hlook|]. intros _. exact Hkeys.
Qed.

Section Bodies.

Variable svc : ApiServiceConfig.

(** X24. Request data that is falsy in JavaScript ([null], [false], [0],
    the empty string) is sent without a body, so for an endpoint without
    request transform and request validator such a request is the same
    request as one without data: same cache key, same pending promise, same
    effect. *)
Theorem falsy_request_data_is_no_data
    (s : State) (endpoint : string) (d : Data) (options : ApiEndpoint) :
  let ec := spreadEndpoint (endpoints svc !! endpoint) options in
  js_truthy d = false →
  transform ec ≫= transform_request = None →
  validation ec ≫= validate_request = None →
  endpointInit svc ec (transformedRequest ec (Some d))
  = endpointInit svc ec (transformedRequest ec None)
  ∧ step svc s (CallRequest endpoint (Some d) options)
    = step svc s (CallRequest endpoint None options).
Proof.
  intros ec Hfalsy Htr Hval.
  assert (Hinit : endpointInit svc ec (transformedRequest ec (Some d))
                  = endpointInit svc ec (transformedRequest ec None)).
  { unfold transformedRequest, endpointInit. rewrite Htr, Hfalsy. reflexivity. }
  split; [exact Hinit|].
  cbn [step]. unfold request. cbn zeta. fold ec.
  unfold requestInvalid. rewrite Hval, Hinit. reflexivity.
Qed.

End Bodies.

(** ** The prefetch queue *)

Lemma mergeConfig_asPartial (config : FetchConfig) : mergeConfig (asPartial config) = config.
Proof. destruct config. reflexivity. Qed.

Lemma fetch_set_tasks url options config ts s :
  fetch url options config (set_tasks ts s)
  = (set_tasks ts (fetch url options config s).1, (fetch url options config s).2).
Proof.
  unfold fetch, startRun. cbn [now cache pendingRequests nextPromise set_tasks].
  destruct (cacheCheck _ _ _ _); [reflexivity|].
  destruct (pendingRequests s !! _); [reflexivity|].
  destruct (loopGuard _ 0); reflexivity.
Qed.

Section PrefetchQueue.

Variable svc : ApiServiceConfig.

Lemma step_fetch_merged s url options config :
  step svc s (CallFetch url options (asPartial (mergeConfig config)))
  = step svc s (CallFetch url options config).
Proof. cbn [step]. unfold fetch. rewrite mergeConfig_asPartial. reflexivity. Qed.

Lemma flushEntry_step (s : State) (frs : list FetchReturn) (ts : list Task) (q : Queued) :
  step svc (set_tasks (ts ++ map AwaitFetch frs) s) (fetchEvent q)
  = set_tasks (ts ++ map AwaitFetch (flushEntry (s, frs) q).2) (flushEntry (s, frs) q).1.
Proof.
  cbn [step fetchEvent]. rewrite fetch_set_tasks. unfold flushEntry. cbn [fst snd].
  destruct (fetch (q_url q) (q_options q) (asPartial (q_config q)) s) as [s1 fr].
  cbn [fst snd]. unfold spawn. cbn [tasks set_tasks].
  rewrite map_app, app_assoc. reflexivity.
Qed.

Lemma flushQueue_run (queue : list Queued) (acc : State * list FetchReturn)
    (ts : list Task) :
  run svc (set_tasks (ts ++ map AwaitFetch acc.2) acc.1) (map fetchEvent queue)
  = set_tasks (ts ++ map AwaitFetch (foldl flushEntry acc queue).2)
      (foldl flushEntry acc queue).1.
Proof.
  revert acc. induction queue as [|q queue IH]; intros [s frs]; [reflexivity|].
  cbn [map foldl fst snd].
  change (run svc ?x (?ev :: ?evs)) with (run svc (step svc x ev) evs).
  rewrite flushEntry_step. apply IH.
Qed.

Lemma flushQueue_frame (queue : list Queued) (acc : State * list FetchReturn) :
  let acc' := foldl flushEntry acc queue in
  now acc'.1 = now acc.1 ∧ cache acc'.1 = cache acc.1 ∧ tasks acc'.1 = tasks acc.1
  ∧ ∃ more, acc'.2 = (acc.2 ++ more)%list.
Proof.
  revert acc. induction queue as [|q queue IH]; intros [s frs]; cbn [foldl].
  - cbn. repeat split. exists []. by rewrite app_nil_r.
  - destruct (IH (flushEntry (s, frs) q)) as (Hn & Hc & Ht & more & Hm).
    cbn zeta. rewrite Hn, Hc, Ht, Hm. unfold flushEntry. cbn [fst snd].
    pose proof (fetch_frame (q_url q) (q_options q) (asPartial (q_config q)) s) as Hf.
    destruct (fetch _ _ _ s) as [s1 fr]. cbn [fst snd] in *.
    destruct Hf as (-> & -> & _ & _ & _ & ->).
    repeat split. exists (fr :: more). by rewrite <- app_assoc.
Qed.

Lemma prefetch_queue (calls : list (string * RequestInit * PartialFetchConfig))
    (queue0 : list Queued) :
  foldl (λ queue c, prefetch c.1.1 c.1.2 c.2 queue) queue0 calls
  = (queue0 ++ map (λ c, {| q_url := c.1.1; q_options := c.1.2;
                            q_config := mergeConfig c.2 |}) calls)%list.
Proof.
  revert queue0. induction calls as [|c calls IH]; intros queue0; cbn [foldl map].
  - by rewrite app_nil_r.
  - rewrite IH. unfold prefetch. by rewrite <- app_assoc.
Qed.

Lemma run_fetch_merged (calls : list (string * RequestInit * PartialFetchConfig))
    (s : State) :
  run svc s (map (λ c, CallFetch c.1.1 c.1.2 (asPartial (mergeConfig c.2))) calls)
  = run svc s (map (λ c, CallFetch c.1.1 c.1.2 c.2) calls).
Proof.
  revert s. induction calls as [|c calls IH]; intros s; [reflexivity|].
  cbn [map].
  change (run svc ?x (?ev :: ?evs)) with (run svc (step svc x ev) evs).
  rewrite step_fetch_merged. apply IH.
Qed.

(** X25. [prefetch] fetches nothing; [flushQueue] then calls [fetch] for
    every queued entry, in order and with the configuration that was given
    to [prefetch]: on the fetch layer its effect is that of these calls of
    [fetch] made one after another, and the promises it waits for are
    theirs. *)
Theorem flushQueue_fetches_what_was_prefetched
    (calls : list (string * RequestInit * PartialFetchConfig)) (s : State) :
  let requestQueue := foldl (λ queue c, prefetch c.1.1 c.1.2 c.2 queue) [] calls in
  let s' := run svc s (map (λ c, CallFetch c.1.1 c.1.2 c.2) calls) in
  List.length requestQueue = List.length calls
  ∧ (flushQueue requestQueue s).1 = set_tasks (tasks s) s'
  ∧ tasks s' = (tasks s ++ map AwaitFetch (flushQueue requestQueue s).2)%list.
Proof.
  intros requestQueue s'.
  assert (Hev : map fetchEvent requestQueue
                = map (λ c, CallFetch c.1.1 c.1.2 (asPartial (mergeConfig c.2))) calls).
  { unfold requestQueue. rewrite prefetch_queue. cbn [app]. rewrite map_map. reflexivity. }
  pose proof (flushQueue_run requestQueue (s, []) (tasks s)) as Hrun.
  cbn [fst snd map] in Hrun.
  rewrite app_nil_r, set_tasks_same, Hev, run_fetch_merged in Hrun.
  fold s' in Hrun. change (foldl flushEntry (s, []) requestQueue)
    with (flushQueue requestQueue s) in Hrun.
  destruct (flushQueue_frame requestQueue (s, [])) as (_ & _ & Ht & _).
  change (foldl flushEntry (s, []) requestQueue) with (flushQueue requestQueue s) in Ht.
  cbn [fst] in Ht.
  split; [unfold requestQueue; rewrite prefetch_queue; cbn [app]; apply length_map|].
  rewrite Hrun. split; [|reflexivity].
  transitivity (set_tasks (tasks (flushQueue requestQueue s).1)
                  (flushQueue requestQueue s).1);
    [symmetry; apply set_tasks_same|rewrite Ht; reflexivity].
Qed.






End PrefetchQueue.

(** ** Refetching on window focus *)

Lemma beforeColon_app (key rest : string) :
  beforeColon (beforeColon key +:+ ":" +:+ rest) = beforeColon key.
Proof.
  induction key as [|c key IH]; [reflexivity|].
  cbn [beforeColon]. destruct (Ascii.eqb c colon) eqn:Hc; [reflexivity|].
  rewrite append_cons. cbn [beforeColon]. rewrite Hc, IH. reflexivity.
Qed.

Lemma queryKeyOf_beforeColon (key key' : string) :
  key = queryKeyOf (beforeColon key') None → key = queryKeyOf (beforeColon key) None.
Proof.
  intros Hkey. rewrite Hkey at 2. unfold queryKeyOf at 2.
  rewrite beforeColon_app. exact Hkey.
Qed.

Section FocusRefetch.

Variable svc : ApiServiceConfig.

Lemma query_other_key endpoint input config s key :
  key ≠ queryKeyOf endpoint input →
  queryCache (query svc endpoint input config s).1 !! key = queryCache s !! key
  ∧ ¬ queriesKey key (query svc endpoint input config s).2
  ∧ tasks (query svc endpoint input config s).1 = tasks s.
Proof.
  intros Hne. unfold query.
  destruct (negb _); [cbn; tauto|]. destruct (dedupes _ _ _); [cbn; tauto|].
  match goal with
  | |- context [request svc ?e ?d ?o ?s0] =>
      pose proof (request_frame svc e d o s0) as Hf; destruct (request svc e d o s0) as [s2 r]
  end.
  cbn [fst snd] in *. destruct Hf as (_ & _ & -> & _ & ->).
  rewrite updateQueryState_lookup_ne by exact Hne.
  split; [reflexivity|]. split; [|reflexivity].
  destruct r; cbn; congruence.
Qed.

(** X27. Refetching on window focus ignores the data of a query: for each
    stale entry it calls [query] with the endpoint alone, which is the query
    of the key [endpoint:undefined].  So the state of a query that was made
    with data is left exactly as it is, stale, in whatever order the
    entries are visited, and none of the queries started will write it. *)
Theorem focus_refetch_ignores_query_data
    (visited : list string) (s : State) (key : string) :
  key ≠ queryKeyOf (beforeColon key) None →
  let s' := refetchStaleQueries svc visited s in
  queryCache s' !! key = queryCache s !! key
  ∧ ∃ started, tasks s' = (tasks s ++ started)%list
               ∧ Forall (λ t, ¬ queriesKey key t) started.
Proof.
  intros Hkey s'. subst s'. unfold refetchStaleQueries.
  revert s. induction visited as [|key' visited IH]; intros s.
  - cbn. split; [reflexivity|]. exists []. rewrite app_nil_r. split; [reflexivity|constructor].
  - cbn [foldl]. destruct (IH (refetchEntry svc s key')) as (Hq & started & Ht & Hall).
    rewrite Hq, Ht. unfold refetchEntry.
    destruct (queryCache s !! key') as [state|]; cycle 1.
    { split; [reflexivity|]. exists started. done. }
    destruct (isStale state && flagSet (refetchOnWindowFocus defaultQueryConfig)); cycle 1.
    { split; [reflexivity|]. exists started. done. }
    assert (Hne : key ≠ queryKeyOf (beforeColon key') None).
    { intros Heq. apply Hkey. eapply queryKeyOf_beforeColon, Heq. }
    destruct (query_other_key (beforeColon key') None noQueryConfig s key Hne)
      as (Hq1 & Hno & Ht1).
    destruct (query svc (beforeColon key') None noQueryConfig s) as [s1 t].
    cbn [fst snd spawn queryCache tasks set_tasks] in *.
    split; [exact Hq1|]. exists (t :: started). rewrite Ht1, <- app_assoc.
    split; [reflexivity|]. constructor; [exact Hno|exact Hall].
Qed.

End FocusRefetch.

(** ** The further properties at concrete inputs *)

(** X1 at a transport that is down twice, under the default retry
    configuration. *)
Lemma retry_then_success_witness :
  executeRequest downTwice (λ i, 10 * Z.of_nat i) threeRetries 0
  = Some (Fulfilled {| data := "ok";
                       metadata := {| timestamp := 20; cacheHit := false; retryCount := 2;
                                      duration := 20; size := 2 |} |},
          3%nat).
Proof.
  apply (retry_then_success downTwice (λ i, 10 * Z.of_nat i) threeRetries 0
           {| attempts := 3; delay := 1000; backoff := Exponential |}
           (λ _, TransportFailure "down") 2 "ok").
  - vm_compute; reflexivity.
  - cbn. lia.
  - intros [|[|i]] Hi; [reflexivity|reflexivity|lia].
  - vm_compute; reflexivity.
Defined.

(** X2 at the same transport. *)
Lemma retry_budget_witness :
  (3 ≤ S (Z.to_nat (attemptsOrZero threeRetries)))%nat.
Proof.
  apply (retry_budget_is_respected downTwice (λ i, 10 * Z.of_nat i) threeRetries 0
           (Fulfilled {| data := "ok";
                         metadata := {| timestamp := 20; cacheHit := false; retryCount := 2;
                                        duration := 20; size := 2 |} |}) 3%nat).
  vm_compute. reflexivity.
Defined.

(** X3 at the [users] endpoint of the sample service, which has no [retry]
    configuration, and a transport that answers 503. *)
Lemma failure_without_retry_configuration_witness :
  tasks (run exampleService initialState
           [CallRequest "users" None noOptions; TransportDone 0 (Responded false 503 "");
            Resume 0; Resume 0]) !! 0%nat
  = Some (Done (Thrown TypeError)).
Proof.
  refine (proj1 (failure_without_retry_configuration_is_TypeError exampleService initialState
                   "users" None noOptions (Responded false 503 "") (HttpError 503)
                   _ _ _ _ _)); reflexivity.
Defined.

(** X4 at a [signup] without data. *)
Lemma invalid_request_witness :
  tasks (run signupService initialState [CallRequest "signup" None noOptions; Resume 0])
  !! 0%nat = Some (Done (Thrown RequestValidationFailed))
  ∧ transportCalls (run signupService initialState
                      [CallRequest "signup" None noOptions; Resume 0]) = [].
Proof.
  destruct (invalid_request_never_reaches_fetch signupService initialState "signup" None
              noOptions) as (Hdone & Hcalls & _).
  - vm_compute; reflexivity.
  - split; [exact Hdone|exact Hcalls].
Defined.




(** X8 at a first query of [users] whose transport call fails. *)
Lemma query_failed_witness :
  let s' := run exampleService initialState
              [CallQuery "users" None noQueryConfig; Tick 0;
               TransportDone 0 (Failed "down"); Resume 0; Resume 0] in
  tasks s' !! 0%nat = Some (Done (Thrown TypeError))
  ∧ cache s' = ∅.
Proof.
  intros s'.
  destruct (query_failed_by_transport exampleService initialState "users" None noQueryConfig
              (Failed "down") (TransportFailure "down") TypeError 0)
    as (Hdone & _ & _ & _ & Hcache & _).
  - vm_compute; reflexivity.
  - vm_compute; reflexivity.
  - vm_compute; reflexivity.
  - vm_compute; reflexivity.
  - vm_compute; reflexivity.
  - vm_compute. discriminate.
  - lia.
  - vm_compute; reflexivity.
  - vm_compute; reflexivity.
  - split; [exact Hdone|exact Hcache].
Defined.

(** X9 at a [fetch] that failed on its only attempt; the cache is cleared
    and a minute passes. *)
Lemma rejected_key_witness :
  let url := "https://api.example.com/users" in
  let s := run exampleService initialState
             [CallFetch url emptyInit singleAttempt; TransportDone 0 (Failed "down")] in
  let s' := run exampleService s [CallClearCache; Tick 60000] in
  rejectedFor s' (cacheKeyOf url emptyInit) 0 (TransportFailure "down").
Proof.
  intros url s s'.
  refine (proj1 (rejected_key_is_never_requested_again exampleService
                   [CallFetch url emptyInit singleAttempt; TransportDone 0 (Failed "down")]
                   [CallClearCache; Tick 60000]
                   (cacheKeyOf url emptyInit) 0 (TransportFailure "down") _)).
  repeat split; vm_compute; (reflexivity || lia).
Defined.

(** X10 at the cached response of [users], 100 ms old under a [ttl] of
    5000 ms. *)
Lemma entry_answers_witness :
  let s := step exampleService usersLoaded (Tick 100) in
  step exampleService s
    (CallFetch (endpointUrl exampleService (configOf exampleService "users"))
       (initOf exampleService "users" None)
       (endpointFetchConfig (configOf exampleService "users")))
  = spawn (AwaitFetch (Now (cachedResponse {| ce_data := "[1]"; ce_timestamp := 5 |}))) s.
Proof.
  intros s.
  refine (proj1 (entry_answers_until_ttl exampleService s
                   (endpointUrl exampleService (configOf exampleService "users"))
                   (initOf exampleService "users" None)
                   (endpointFetchConfig (configOf exampleService "users"))
                   {| enabled := true; ttl := Some 5000 |} 5000
                   {| ce_data := "[1]"; ce_timestamp := 5 |} _ _ _ _ _) _);
    vm_compute; (reflexivity || discriminate).
Defined.

(** X11 at an entry cached without [ttl], a day later. *)
Lemma entry_without_ttl_witness :
  let url := "https://api.example.com/users" in
  let s := run exampleService initialState
             [CallFetch url emptyInit cacheWithoutTtl;
              TransportDone 0 (Responded true 200 "[1]")] in
  let s1 := step exampleService s (Tick 86400000) in
  step exampleService s1 (CallFetch url emptyInit cacheWithoutTtl)
  = spawn (AwaitFetch (Now (cachedResponse {| ce_data := "[1]"; ce_timestamp := 0 |}))) s1.
Proof.
  intros url s s1.
  refine (proj2 (entry_without_ttl_never_expires exampleService s url emptyInit
                   cacheWithoutTtl {| enabled := true; ttl := None |}
                   {| ce_data := "[1]"; ce_timestamp := 0 |} 86400000 _ _ _ _ _)).
  - reflexivity.
  - reflexivity.
  - left. reflexivity.
  - vm_compute; reflexivity.
  - lia.
Defined.

(** X12 at a [fetch] in flight on a fresh machine. *)
Lemma clearCache_witness :
  let url := "https://api.example.com/users" in
  let s := step exampleService initialState (CallFetch url emptyInit noFetchConfig) in
  let s1 := step exampleService s CallClearCache in
  step exampleService s1 (CallFetch url emptyInit noFetchConfig)
  = spawn (AwaitFetch (Later 0)) s1.
Proof.
  intros url s s1.
  destruct (clearCache_keeps_requests_in_flight exampleService s url emptyInit noFetchConfig
              0%nat (startedRun url emptyInit noFetchConfig initialState) 200 "[1]")
    as (_ & _ & _ & Hjoin & _).
  - vm_compute; reflexivity.
  - vm_compute; reflexivity.
  - reflexivity.
  - reflexivity.
  - reflexivity.
  - exact Hjoin.
Defined.

(** X13 at the cached response of [users], two minutes later, after the
    query cache has been invalidated and cleared. *)
Lemma cache_entries_stay_witness :
  is_Some (cache (run exampleService usersLoaded
                    [Tick 120000; CallInvalidateQuery "users"; CallClearQueryCache])
           !! fetchKeyOf exampleService "users" None).
Proof.
  apply (cache_entries_stay_until_clearCache exampleService usersLoaded
           [Tick 120000; CallInvalidateQuery "users"; CallClearQueryCache]).
  - intros Hin. repeat (apply elem_of_cons in Hin as [Hin|Hin]; [discriminate Hin|]).
    by apply elem_of_nil in Hin.
  - eexists. vm_compute. reflexivity.
Defined.


(** X16 at the first failure of a [fetch] under the default retry
    configuration. *)
Lemma backoff_schedule_witness :
  let url := "https://api.example.com/users" in
  let s := step exampleService initialState (CallFetch url emptyInit noFetchConfig) in
  runs (step exampleService s (TransportDone 0 (Failed "down"))) !! 0%nat
  = Some (runAt (startedRun url emptyInit noFetchConfig initialState) 1 (InBackoff 1000)).
Proof.
  intros url s.
  destruct (backoff_schedule exampleService s 0%nat
              (startedRun url emptyInit noFetchConfig initialState)
              (Failed "down") (TransportFailure "down")
              {| attempts := 3; delay := 1000; backoff := Exponential |})
    as ((Hrun & _) & _).
  - vm_compute; reflexivity.
  - reflexivity.
  - reflexivity.
  - reflexivity.
  - cbn. lia.
  - reflexivity.
  - reflexivity.
  - reflexivity.
  - exact Hrun.
Defined.

(** X17 at a second query of [users] after the first one failed. *)
Lemma query_for_rejected_key_witness :
  let s' := run exampleService usersFailed
              [CallQuery "users" None noQueryConfig; Resume 1; Resume 1] in
  tasks s' !! 1%nat = Some (Done (Thrown TypeError))
  ∧ transportCalls s' = transportCalls usersFailed.
Proof.
  intros s'.
  destruct (query_for_rejected_key_fails_at_once exampleService usersFailed "users" None
              noQueryConfig 0%nat TypeError)
    as (Hdone & Hcalls & _).
  - repeat split; vm_compute; (reflexivity || lia).
  - reflexivity.
  - vm_compute; reflexivity.
  - vm_compute; reflexivity.
  - vm_compute; reflexivity.
  - split; [exact Hdone|exact Hcalls].
Defined.

(** X19 at a mutation of [updateUser] that failed, with [rollbackOnError]. *)
Lemma mutation_completion_witness :
  let s := run exampleService usersLoaded
             [CallMutate "updateUser" "{}" updatingUsers; TransportDone 1 (Failed "down");
              Resume 1] in
  let s' := step exampleService s (Resume 1) in
  tasks s' !! 1%nat = Some (Done (Thrown TypeError))
  ∧ isStale <$> queryCache s' !! queryKeyOf "users" None = Some true.
Proof.
  intros s s'.
  destruct (mutation_completion_only_marks_stale exampleService s 1%nat
              (RequestFailed TypeError) updatingUsers (Rejected TypeError))
    as (Hmark & Hdone & _).
  - vm_compute; reflexivity.
  - reflexivity.
  - split; [exact Hdone|]. unfold s'. rewrite Hmark. vm_compute. reflexivity.
Defined.

(** X20 at a query of [users] with a refetch interval of half a minute. *)
Lemma refetch_interval_witness :
  let s := run exampleService initialState
             [CallQuery "users" None everyHalfMinute;
              TransportDone 0 (Responded true 200 "[1]"); Resume 0] in
  timers (step exampleService s (Resume 0)) = [(30000, queryKeyOf "users" None)].
Proof.
  intros s.
  destruct (refetch_interval_marks_stale_once exampleService s 0%nat (RequestOk (Later 0))
              (queryKeyOf "users" None) None (mergeQueryConfig everyHalfMinute)
              (freshResponse "[1]" 0 0 0) 30000)
    as (Htimers & _).
  - vm_compute; reflexivity.
  - vm_compute; reflexivity.
  - reflexivity.
  - discriminate.
  - etrans; [exact Htimers|]. vm_compute. reflexivity.
Defined.

(** X21 at the loaded [users] query and a mutation that invalidates it. *)
Lemma only_a_successful_query_refreshes_witness :
  ∃ st', queryCache (step exampleService usersLoaded
                       (CallMutate "updateUser" "{}" updatingUsers))
           !! queryKeyOf "users" None = Some st'
         ∧ qs_data st' = Some "[1]".
Proof.
  edestruct (only_a_successful_query_refreshes exampleService usersLoaded
               (CallMutate "updateUser" "{}" updatingUsers) (queryKeyOf "users" None))
    as [Hev | [(t & o & current & cfg & response & Hev & _) | (st' & Hst' & Hdata & _)]].
  - vm_compute. reflexivity.
  - discriminate Hev.
  - discriminate Hev.
  - exists st'. split; [exact Hst'|exact Hdata].
Defined.

(** X22 at the loaded [users] query, after a mutation and a cleared
    response cache. *)
Lemma query_states_stay_witness :
  is_Some (queryCache (run exampleService usersLoaded
                         [CallMutate "updateUser" "{}" updatingUsers; CallClearCache;
                          Tick 120000])
           !! queryKeyOf "users" None).
Proof.
  apply (query_states_stay_until_clearQueryCache exampleService usersLoaded
           [CallMutate "updateUser" "{}" updatingUsers; CallClearCache; Tick 120000]).
  - intros Hin. repeat (apply elem_of_cons in Hin as [Hin|Hin]; [discriminate Hin|]).
    by apply elem_of_nil in Hin.
  - eexists. vm_compute. reflexivity.
Defined.

(** X23 at a default [Accept] header that the endpoint overrides. *)
Lemma endpoint_headers_witness :
  let a := Some [("Accept", "application/json"); ("X-Client", "binaryjs")] in
  let b := Some [("X-Trace", "on"); ("Accept", "text/plain")] in
  headerOf "Accept" (spreadHeaders a b) = Some "text/plain"
  ∧ ∃ extra, (spreadHeaders a b).*1 = (["Accept"; "X-Client"] ++ extra)%list.
Proof.
  destruct (endpoint_headers_override_defaults
              (Some [("Accept", "application/json"); ("X-Client", "binaryjs")])
              (Some [("X-Trace", "on"); ("Accept", "text/plain")]) "Accept")
    as [Hlook Hkeys].
  split; [exact Hlook|].
  apply Hkeys. repeat constructor.
Defined.

(** X24 at a request of [users] with the data [0]. *)
Lemma falsy_request_data_witness :
  step exampleService initialState (CallRequest "users" (Some "0") noOptions)
  = step exampleService initialState (CallRequest "users" None noOptions).
Proof.
  refine (proj2 (falsy_request_data_is_no_data exampleService initialState "users" "0"
                   noOptions _ _ _)); vm_compute; reflexivity.
Defined.


(** X27 at a stale query of [users] that was made with the data [1]. *)
Lemma focus_refetch_witness :
  let s := run exampleService initialState
             [CallQuery "users" (Some "1") noQueryConfig; TransportDone 0 (Failed "down");
              Resume 0; Resume 0] in
  let key := queryKeyOf "users" (Some "1") in
  queryCache (refetchStaleQueries exampleService [key; queryKeyOf "users" None] s) !! key
  = queryCache s !! key.
Proof.
  intros s key.
  refine (proj1 (focus_refetch_ignores_query_data exampleService
                   [key; queryKeyOf "users" None] s key _)).
  vm_compute. discriminate.
Defined.
